(** * miller_ecog_tools: cross-validated classification and electrode clustering

    A shallow embedding of the parts of [classify.py] and
    [subject_oscillation_cluster.py] that plan cross-validation folds,
    normalise and weight the training data, select the regularisation value
    with a bias-corrected AUC, build the electrode adjacency matrix and
    extract electrode clusters.

    Conventions.
    - numpy arrays are lists; a 2-D array is a list of rows.
    - A boolean mask is a [list bool]; [a[mask]] is [getitem_mask].
    - AUC values, class weights and feature values are exact rationals
      ([Q]); electrode coordinates and distances are binary64 floats
      ([PrimFloat.float]) as in the code.
    - Functions of numpy, scipy, scikit-learn and tarjan that the code calls
      but does not define are parameters of the sections that use them. *)

From Stdlib Require Import QArith Qcanon Qround Qminmax Lqa Floats.
From stdpp Require Import base list gmap strings sorting.

Local Open Scope Z_scope.

(** ** numpy helpers *)

Module Np.

(** [np.unique]: the sorted distinct values. *)
Fixpoint insert_uniq (x : Z) (l : list Z) : list Z :=
  match l with
  | [] => [x]
  | y :: l' =>
      if x <? y then x :: l
      else if x =? y then l
      else y :: insert_uniq x l'
  end.

Definition unique (l : list Z) : list Z := foldr insert_uniq [] l.

(** [a == k] and [a != k] on an integer array. *)
Definition eq_mask (a : list Z) (k : Z) : list bool := (λ x, x =? k) <$> a.
Definition ne_mask (a : list Z) (k : Z) : list bool := (λ x, negb (x =? k)) <$> a.

(** [m1 & m2], [~m] *)
Definition and_mask (m1 m2 : list bool) : list bool := zip_with andb m1 m2.
Definition not_mask (m : list bool) : list bool := negb <$> m.

(** [np.array([x in phases for x in a])] *)
Definition isin (phases : list string) (a : list string) : list bool :=
  (λ x, bool_decide (x ∈ phases)) <$> a.

(** [a == s] on a string array. *)
Definition str_eq_mask (a : list string) (s : string) : list bool :=
  (λ x, bool_decide (x = s)) <$> a.

(** [a[mask]] for a mask of the length of [a]: the selected entries, in order. *)
Fixpoint getitem_mask {A} (a : list A) (mask : list bool) : list A :=
  match a, mask with
  | x :: a', b :: mask' =>
      if b then x :: getitem_mask a' mask' else getitem_mask a' mask'
  | _, _ => []
  end.

(** [np.any(rows, axis=0)] for rows of [n] entries *)
Definition any_axis0 (n : nat) (rows : list (list bool)) : list bool :=
  foldr (zip_with orb) (replicate n false) rows.

(** [a[a == old] = new] on a string array. *)
Definition replace_str (old new : string) (a : list string) : list string :=
  (λ x, if bool_decide (x = old) then new else x) <$> a.

(** Python's [needle in hay] on strings. *)
Definition str_contains (needle hay : string) : bool :=
  match String.index 0 needle hay with Some _ => true | None => false end.

(** A loop that may fail: [foldl] in the option monad. *)
Fixpoint fold_opt {A B} (f : A → B → option A) (a : A) (l : list B) : option A :=
  match l with
  | [] => Some a
  | x :: l' => f a x ≫= λ a', fold_opt f a' l'
  end.

Lemma elem_of_insert_uniq x l z :
  z ∈ insert_uniq x l ↔ z = x ∨ z ∈ l.
Proof.
  induction l as [|y l IH]; simpl.
  - rewrite list_elem_of_singleton, elem_of_nil. tauto.
  - destruct (Z.ltb_spec x y); [by rewrite elem_of_cons|].
    destruct (Z.eqb_spec x y) as [->|Hne].
    + rewrite elem_of_cons. tauto.
    + rewrite !elem_of_cons, IH. tauto.
Qed.

Lemma elem_of_unique l z : z ∈ unique l ↔ z ∈ l.
Proof.
  induction l as [|x l IH]; simpl; [done|].
  by rewrite elem_of_insert_uniq, IH, elem_of_cons.
Qed.

Lemma insert_uniq_sorted x l :
  StronglySorted Z.lt l → StronglySorted Z.lt (insert_uniq x l).
Proof.
  induction 1 as [|y l Hs IH Hall]; simpl.
  - repeat constructor.
  - destruct (Z.ltb_spec x y).
    + constructor; [by constructor|].
      constructor; [done|]. eapply Forall_impl; [exact Hall|]. simpl. lia.
    + destruct (Z.eqb_spec x y); [by constructor|].
      constructor; [done|].
      apply Forall_forall. intros z Hz.
      apply elem_of_insert_uniq in Hz as [->|Hz]; [lia|].
      by eapply Forall_forall in Hall.
Qed.

Lemma unique_sorted l : StronglySorted Z.lt (unique l).
Proof.
  induction l; simpl; [constructor|]. by apply insert_uniq_sorted.
Qed.

Lemma unique_NoDup l : NoDup (unique l).
Proof.
  generalize (unique_sorted l). induction 1 as [|y l' Hs IH Hall].
  - constructor.
  - constructor; [|done]. intros Hin.
    eapply Forall_forall in Hall; [|exact Hin]. lia.
Qed.

(** A dictionary filled by a loop [for k in l: d[k] = f(k)]. *)
Lemma lookup_foldl_insert `{Countable K} {V} (f : K → V) (l : list K)
    (d : gmap K V) (k : K) :
  foldl (λ d k, <[k := f k]> d) d l !! k
  = if decide (k ∈ l) then Some (f k) else d !! k.
Proof.
  revert d. induction l as [|x l IH]; intros d; cbn [foldl].
  - case_decide as Hin; [by apply elem_of_nil in Hin|done].
  - rewrite IH. repeat case_decide; rewrite ?elem_of_cons in *; try tauto.
    + destruct (decide (k = x)) as [->|Hne]; [by rewrite lookup_insert_eq|tauto].
    + rewrite lookup_insert_ne; [done|]. intros ->. tauto.
Qed.

Lemma elem_of_concat {A} (ls : list (list A)) (x : A) :
  x ∈ concat ls ↔ ∃ l, x ∈ l ∧ l ∈ ls.
Proof.
  induction ls as [|l ls IH]; simpl.
  - split; [intros Hx; by apply elem_of_nil in Hx|].
    intros (l & _ & Hl). by apply elem_of_nil in Hl.
  - rewrite elem_of_app, IH. split.
    + intros [Hx|(l' & Hx & Hl')]; [exists l|exists l']; rewrite elem_of_cons; tauto.
    + intros (l' & Hx & [->|Hl']%elem_of_cons); [by left|right; by exists l'].
Qed.

(** Indexing an array with a mask computed from the array itself, and
    with any mask. *)
Lemma getitem_mask_fmap {A} (f : A → bool) (a : list A) :
  getitem_mask a (f <$> a) = filter (λ x, f x = true) a.
Proof.
  induction a as [|x a IH]; [done|]. cbn [fmap list_fmap getitem_mask].
  rewrite filter_cons. destruct (f x) eqn:Hx.
  - rewrite decide_True by done. by rewrite <- IH.
  - rewrite decide_False by done. exact IH.
Qed.

Lemma elem_of_getitem_mask {A} (a : list A) (mask : list bool) (x : A) :
  x ∈ getitem_mask a mask → x ∈ a.
Proof.
  revert mask. induction a as [|y a IH]; intros [|b mask] Hx; simpl in Hx;
    try by apply elem_of_nil in Hx.
  destruct b.
  - apply elem_of_cons in Hx as [->|Hx]; [apply list_elem_of_here|].
    apply list_elem_of_further. by eapply IH.
  - apply list_elem_of_further. by eapply IH.
Qed.

End Np.

(** ** Cross-validation planner *)

Module CrossVal.

(** One row of [subject_data.events.data]. *)
Record event := Event {
  ev_session : Z;
  ev_trial : Z;
  ev_list : Z;
  ev_type : string
}.

(** The entry [cv_dict[fold]]. *)
Record fold := Fold {
  train_bool : list bool;
  test_bool : list bool;
  fold_train_phase : list string;
  fold_test_phase : list string
}.

(** The attributes of a [SubjectClassifier] that the planner reads and writes. *)
Record SubjectClassifier := {
  task : string;
  subject_data : option (list event);
  train_phase : list string;
  test_phase : list string;
  cross_val_dict : gmap Z fold;
  task_phase : option (list string)
}.

(** The fold key of every event: the session when there are several
    sessions, else the trial (RAM_TH1) or list number. *)
Definition folds_of (task : string) (evs : list event) : list Z :=
  let sessions := ev_session <$> evs in
  if bool_decide (1 < length (Np.unique sessions))%nat then sessions
  else if bool_decide (task = "RAM_TH1"%string) then ev_trial <$> evs
  else ev_list <$> evs.

(** The event types with encoding and retrieval renamed to ['enc'] and ['rec']. *)
Definition rename_phases (task : string) (evs : list event) : list string :=
  let is_th := Np.str_contains "RAM_TH" task in
  let enc_str := if is_th then "CHEST"%string else "WORD"%string in
  let rec_str := if is_th then "REC"%string else "REC_WORD"%string in
  Np.replace_str rec_str "rec" (Np.replace_str enc_str "enc" (ev_type <$> evs)).

(** [valid_train_inds] and [valid_test_inds] of [make_cross_val_labels]:
    both are computed from [self.test_phase]. *)
Definition valid_train_inds (self : SubjectClassifier) (tp : list string) : list bool :=
  Np.isin (test_phase self) tp.
Definition valid_test_inds (self : SubjectClassifier) (tp : list string) : list bool :=
  Np.isin (test_phase self) tp.

(** The body of the loop over [uniq_folds]. *)
Definition make_fold (folds : list Z) (tp : list string)
    (valid_train valid_test : list bool) (k : Z) : fold :=
  let tr := Np.and_mask (Np.ne_mask folds k) valid_train in
  let te := Np.and_mask (Np.eq_mask folds k) valid_test in
  {| train_bool := tr; test_bool := te;
     fold_train_phase := Np.getitem_mask tp tr;
     fold_test_phase := Np.getitem_mask tp te |}.

Definition make_cv_dict (folds : list Z) (tp : list string)
    (valid_train valid_test : list bool) : gmap Z fold :=
  foldl (λ d k, <[k := make_fold folds tp valid_train valid_test k]> d)
        ∅ (Np.unique folds).

(** [SubjectClassifier.make_cross_val_labels]. Without loaded data the
    method prints a message and returns, leaving the object as it was
    ([inl] carries the message). Otherwise it renames the phases in the
    event table in place and stores the fold dictionary and the phases. *)
Definition make_cross_val_labels (self : SubjectClassifier)
    : string + SubjectClassifier :=
  match subject_data self with
  | None =>
      inl "Data must be loaded before computing cross validation labels. Use .load_data()"%string
  | Some evs =>
      let folds := folds_of (task self) evs in
      let tp := rename_phases (task self) evs in
      let evs' := zip_with (λ e t, Event (ev_session e) (ev_trial e) (ev_list e) t) evs tp in
      inr {| task := task self;
             subject_data := Some evs';
             train_phase := train_phase self;
             test_phase := test_phase self;
             cross_val_dict :=
               make_cv_dict folds tp (valid_train_inds self tp) (valid_test_inds self tp);
             task_phase := Some tp |}
  end.

(** The masks of [ClassifyTH.compute_classifier]: the configured phases are
    first mapped to ['rec'] or ['enc']. *)
Definition th_phases (phases : list string) : list string :=
  (λ x, if Np.str_contains "rec" x then "rec" else "enc")%string <$> phases.

Definition th_mask_train (train_phase : list string) (cv_sel : list Z)
    (task_phase : list string) (cv : Z) : list bool :=
  Np.and_mask (Np.ne_mask cv_sel cv) (Np.isin (th_phases train_phase) task_phase).

Definition th_mask_test (test_phase : list string) (cv_sel : list Z)
    (task_phase : list string) (cv : Z) : list bool :=
  Np.and_mask (Np.not_mask (Np.ne_mask cv_sel cv))
              (Np.isin (th_phases test_phase) task_phase).

(** *** Facts about the planner *)

Lemma lookup_make_cv_dict folds tp vt ve k :
  make_cv_dict folds tp vt ve !! k
  = if decide (k ∈ folds) then Some (make_fold folds tp vt ve k) else None.
Proof.
  unfold make_cv_dict. rewrite Np.lookup_foldl_insert, lookup_empty.
  destruct (decide (k ∈ Np.unique folds)) as [H|H];
    rewrite Np.elem_of_unique in H; [by rewrite decide_True|by rewrite decide_False].
Qed.

Lemma length_folds_of task evs : length (folds_of task evs) = length evs.
Proof. unfold folds_of. repeat case_bool_decide; by rewrite length_fmap. Qed.

Lemma length_rename_phases task evs : length (rename_phases task evs) = length evs.
Proof. unfold rename_phases, Np.replace_str. by rewrite !length_fmap. Qed.

(** With several sessions the fold keys are the sessions. *)
Lemma folds_of_sessions task evs :
  (1 < length (Np.unique (ev_session <$> evs)))%nat →
  folds_of task evs = ev_session <$> evs.
Proof. intros H. unfold folds_of. by rewrite bool_decide_eq_true_2. Qed.

(** What the two masks of a fold mark, entry by entry. *)
Lemma lookup_train_bool folds tp vt ve k i b :
  train_bool (make_fold folds tp vt ve k) !! i = Some b ↔
  ∃ key v, folds !! i = Some key ∧ vt !! i = Some v ∧ b = negb (key =? k) && v.
Proof.
  simpl. unfold Np.and_mask, Np.ne_mask. rewrite lookup_zip_with_Some. split.
  - intros (x & v & -> & Hx & Hv). apply list_lookup_fmap_Some in Hx as (key & -> & Hk).
    eauto.
  - intros (key & v & Hk & Hv & ->). exists (negb (key =? k)), v.
    rewrite list_lookup_fmap, Hk. eauto.
Qed.

Lemma lookup_test_bool folds tp vt ve k i b :
  test_bool (make_fold folds tp vt ve k) !! i = Some b ↔
  ∃ key v, folds !! i = Some key ∧ ve !! i = Some v ∧ b = (key =? k) && v.
Proof.
  simpl. unfold Np.and_mask, Np.eq_mask. rewrite lookup_zip_with_Some. split.
  - intros (x & v & -> & Hx & Hv). apply list_lookup_fmap_Some in Hx as (key & -> & Hk).
    eauto.
  - intros (key & v & Hk & Hv & ->). exists (key =? k), v.
    rewrite list_lookup_fmap, Hk. eauto.
Qed.

Lemma lookup_isin phases a i b :
  Np.isin phases a !! i = Some b ↔ ∃ t, a !! i = Some t ∧ b = bool_decide (t ∈ phases).
Proof.
  unfold Np.isin. rewrite list_lookup_fmap_Some. split; intros (t & ? & ?); eauto.
Qed.

Lemma make_cross_val_labels_inr self self' :
  make_cross_val_labels self = inr self' →
  ∃ evs, subject_data self = Some evs ∧
    cross_val_dict self' =
      make_cv_dict (folds_of (task self) evs) (rename_phases (task self) evs)
        (valid_train_inds self (rename_phases (task self) evs))
        (valid_test_inds self (rename_phases (task self) evs)).
Proof.
  unfold make_cross_val_labels. destruct (subject_data self) as [evs|]; [|done].
  intros [= <-]. eauto.
Qed.

(** The train mask of [make_cross_val_labels] marks the events of the other
    folds whose phase is in [self.test_phase]. *)
Lemma make_cross_val_labels_train_bool self self' evs k f i b :
  subject_data self = Some evs →
  make_cross_val_labels self = inr self' →
  cross_val_dict self' !! k = Some f →
  train_bool f !! i = Some b ↔
  ∃ key t, folds_of (task self) evs !! i = Some key
         ∧ rename_phases (task self) evs !! i = Some t
         ∧ b = negb (key =? k) && bool_decide (t ∈ test_phase self).
Proof.
  intros Hd Hm Hk. apply make_cross_val_labels_inr in Hm as (evs' & Hd' & Hcv).
  rewrite Hd in Hd'. injection Hd' as <-.
  rewrite Hcv, lookup_make_cv_dict in Hk. case_decide; [|done]. injection Hk as <-.
  rewrite lookup_train_bool. unfold valid_train_inds. split.
  - intros (key & v & Hkey & Hv & ->). apply lookup_isin in Hv as (t & Ht & ->). eauto.
  - intros (key & t & Hkey & Ht & ->). exists key, (bool_decide (t ∈ test_phase self)).
    rewrite lookup_isin. eauto.
Qed.

(** The masks of [ClassifyTH.compute_classifier] follow the train phases
    for training and the test phases for testing. *)
Lemma th_mask_train_lookup train_phase cv_sel task_phase cv i b :
  th_mask_train train_phase cv_sel task_phase cv !! i = Some b ↔
  ∃ key t, cv_sel !! i = Some key ∧ task_phase !! i = Some t
         ∧ b = negb (key =? cv) && bool_decide (t ∈ th_phases train_phase).
Proof.
  unfold th_mask_train, Np.and_mask, Np.ne_mask. rewrite lookup_zip_with_Some. split.
  - intros (x & v & -> & Hx & Hv). apply list_lookup_fmap_Some in Hx as (key & -> & Hk).
    apply lookup_isin in Hv as (t & Ht & ->). eauto.
  - intros (key & t & Hk & Ht & ->).
    exists (negb (key =? cv)), (bool_decide (t ∈ th_phases train_phase)).
    rewrite list_lookup_fmap, Hk, lookup_isin. eauto.
Qed.

Lemma th_mask_test_lookup test_phase cv_sel task_phase cv i b :
  th_mask_test test_phase cv_sel task_phase cv !! i = Some b ↔
  ∃ key t, cv_sel !! i = Some key ∧ task_phase !! i = Some t
         ∧ b = (key =? cv) && bool_decide (t ∈ th_phases test_phase).
Proof.
  unfold th_mask_test, Np.and_mask, Np.not_mask, Np.ne_mask.
  rewrite lookup_zip_with_Some. split.
  - intros (x & v & -> & Hx & Hv).
    apply list_lookup_fmap_Some in Hx as (y & -> & Hy).
    apply list_lookup_fmap_Some in Hy as (key & -> & Hk).
    apply lookup_isin in Hv as (t & Ht & ->). rewrite negb_involutive. eauto.
  - intros (key & t & Hk & Ht & ->).
    exists (key =? cv), (bool_decide (t ∈ th_phases test_phase)).
    rewrite !list_lookup_fmap, Hk, lookup_isin. simpl. rewrite negb_involutive. eauto.
Qed.

(** *** Examples *)

(** Two sessions of two events each; training on encoding, testing on
    retrieval. *)
Definition two_sessions_enc_rec : SubjectClassifier :=
  {| task := "RAM_TH1";
     subject_data := Some [Event 0 0 0 "CHEST"; Event 0 0 0 "REC";
                           Event 1 1 0 "CHEST"; Event 1 1 0 "REC"];
     train_phase := ["enc"%string];
     test_phase := ["rec"%string];
     cross_val_dict := ∅;
     task_phase := None |}.

Example two_sessions_phases :
  rename_phases "RAM_TH1" [Event 0 0 0 "CHEST"; Event 0 0 0 "REC";
                           Event 1 1 0 "CHEST"; Event 1 1 0 "REC"]
  = ["enc"; "rec"; "enc"; "rec"]%string.
Proof. reflexivity. Qed.

(** C1, at a concrete input: training on encoding and testing on retrieval,
    the train mask of the fold that holds out session 0 marks the retrieval
    event of session 1 (index 3) and not its encoding event (index 2). *)
Theorem make_cross_val_labels_train_mask_follows_test_phase :
  ∃ self' f,
    make_cross_val_labels two_sessions_enc_rec = inr self'
    ∧ cross_val_dict self' !! 0 = Some f
    ∧ train_bool f = [false; false; false; true]
    ∧ test_bool f = [false; true; false; false]
    ∧ fold_train_phase f = ["rec"%string].
Proof.
  eexists _, _. split; [reflexivity|]. split; [by vm_compute|]. by vm_compute.
Qed.

(** C9: in the plan of [make_cross_val_labels] the train and test masks of
    a fold never mark the same event; every event whose phase is a test
    phase is marked by the test mask of the fold keyed by its own fold key;
    and a test mask marks only such events, each under its own key, so no
    event is in the test mask of two folds. With several sessions the fold
    keys are the sessions ([folds_of_sessions]). *)
Theorem cv_masks_disjoint_and_test_partition
    (self self' : SubjectClassifier) (evs : list event) :
  subject_data self = Some evs →
  make_cross_val_labels self = inr self' →
  let cv := cross_val_dict self' in
  let keys := folds_of (task self) evs in
  let tp := rename_phases (task self) evs in
  (∀ k f i, cv !! k = Some f →
     ¬ (train_bool f !! i = Some true ∧ test_bool f !! i = Some true))
  ∧ (∀ i key t, keys !! i = Some key → tp !! i = Some t → t ∈ test_phase self →
       ∃ f, cv !! key = Some f ∧ test_bool f !! i = Some true)
  ∧ (∀ k f i, cv !! k = Some f → test_bool f !! i = Some true →
       keys !! i = Some k ∧ ∃ t, tp !! i = Some t ∧ t ∈ test_phase self)
  ∧ length keys = length evs ∧ length tp = length evs.
Proof.
  intros Hd Hm cv keys tp.
  apply make_cross_val_labels_inr in Hm as (evs' & Hd' & Hcv).
  rewrite Hd in Hd'. injection Hd' as <-.
  assert (Hlk : ∀ k f, cv !! k = Some f →
            f = make_fold keys tp (valid_train_inds self tp) (valid_test_inds self tp) k).
  { intros k f Hk. unfold cv in Hk. rewrite Hcv, lookup_make_cv_dict in Hk.
    case_decide; [by injection Hk|done]. }
  split; [|split; [|split; [|split]]].
  - intros k f i Hk [Htr Hte]. rewrite (Hlk _ _ Hk) in Htr, Hte.
    apply lookup_train_bool in Htr as (key & v & Hkey & _ & Hb).
    apply lookup_test_bool in Hte as (key' & v' & Hkey' & _ & Hb').
    rewrite Hkey in Hkey'. injection Hkey' as <-.
    destruct (key =? k); simpl in *; congruence.
  - intros i key t Hkey Ht Hin.
    exists (make_fold keys tp (valid_train_inds self tp) (valid_test_inds self tp) key).
    split.
    + unfold cv. rewrite Hcv, lookup_make_cv_dict, decide_True; [done|].
      by eapply list_elem_of_lookup_2.
    + apply lookup_test_bool. exists key, true. repeat split; [done| |].
      * unfold valid_test_inds. apply lookup_isin. exists t.
        by rewrite bool_decide_eq_true_2.
      * by rewrite Z.eqb_refl.
  - intros k f i Hk Hte. rewrite (Hlk _ _ Hk) in Hte.
    apply lookup_test_bool in Hte as (key & v & Hkey & Hv & Hb).
    symmetry in Hb. apply andb_true_iff in Hb as [Hkk%Z.eqb_eq ->]. subst key.
    split; [done|].
    apply lookup_isin in Hv as (t & Ht & Hb). exists t. split; [done|].
    symmetry in Hb. by apply bool_decide_eq_true in Hb.
  - apply length_folds_of.
  - apply length_rename_phases.
Qed.

Lemma cv_masks_disjoint_and_test_partition_witness :
  ∃ self' evs,
    subject_data two_sessions_enc_rec = Some evs
    ∧ make_cross_val_labels two_sessions_enc_rec = inr self'
    ∧ (∀ i key t,
         folds_of "RAM_TH1" evs !! i = Some key →
         rename_phases "RAM_TH1" evs !! i = Some t → t ∈ ["rec"%string] →
         ∃ f, cross_val_dict self' !! key = Some f ∧ test_bool f !! i = Some true).
Proof.
  eexists _, _. split; [reflexivity|]. split; [reflexivity|].
  exact (proj1 (proj2 (cv_masks_disjoint_and_test_partition
                         two_sessions_enc_rec _ _ eq_refl eq_refl))).
Defined.

(** *** A second call of the planner *)

(** Renaming the phases of phases that are already renamed changes
    nothing. *)
Lemma rename_renamed (enc_str rec_str : string) (a : list string) :
  "enc"%string ≠ enc_str → "rec"%string ≠ enc_str →
  "enc"%string ≠ rec_str → "rec"%string ≠ rec_str →
  let tp := Np.replace_str rec_str "rec" (Np.replace_str enc_str "enc" a) in
  Np.replace_str rec_str "rec" (Np.replace_str enc_str "enc" tp) = tp.
Proof.
  intros H1 H2 H3 H4 tp. unfold tp, Np.replace_str. rewrite <- !list_fmap_compose.
  apply list_fmap_ext. intros _ x _. simpl.
  repeat (case_bool_decide; simplify_eq; try done).
Qed.

Lemma fmap_zip_with_l {A B C D} (f : C → D) (g : A → B → C) (h : A → D)
    (l : list A) (k : list B) :
  (∀ x y, f (g x y) = h x) → length l = length k → f <$> zip_with g l k = h <$> l.
Proof.
  intros Hf. revert k. induction l as [|x l IH]; intros [|y k] Hlen; simpl in *; try lia.
  - done.
  - by rewrite Hf, IH by lia.
Qed.

Lemma fmap_zip_with_r {A B C} (f : C → B) (g : A → B → C) (l : list A) (k : list B) :
  (∀ x y, f (g x y) = y) → length l = length k → f <$> zip_with g l k = k.
Proof.
  intros Hf. revert k. induction l as [|x l IH]; intros [|y k] Hlen; simpl in *; try lia.
  - done.
  - by rewrite Hf, IH by lia.
Qed.

Lemma retype_retyped (evs : list event) (tp : list string) :
  length evs = length tp →
  let evs' := zip_with (λ e t, Event (ev_session e) (ev_trial e) (ev_list e) t) evs tp in
  zip_with (λ e t, Event (ev_session e) (ev_trial e) (ev_list e) t) evs' tp = evs'.
Proof.
  revert tp. induction evs as [|e evs IH]; intros [|t tp] Hlen; simpl in *; try lia.
  - done.
  - f_equal. apply IH. lia.
Qed.

Lemma folds_of_retyped (task : string) (evs : list event) (tp : list string) :
  length evs = length tp →
  folds_of task (zip_with (λ e t, Event (ev_session e) (ev_trial e) (ev_list e) t) evs tp)
  = folds_of task evs.
Proof.
  intros Hlen. unfold folds_of.
  by rewrite (fmap_zip_with_l ev_session _ ev_session),
             (fmap_zip_with_l ev_trial _ ev_trial),
             (fmap_zip_with_l ev_list _ ev_list).
Qed.

Lemma rename_phases_retyped (task : string) (evs : list event) :
  rename_phases task
    (zip_with (λ e t, Event (ev_session e) (ev_trial e) (ev_list e) t)
       evs (rename_phases task evs))
  = rename_phases task evs.
Proof.
  unfold rename_phases at 1.
  rewrite (fmap_zip_with_r ev_type) by (by rewrite ?length_rename_phases).
  unfold rename_phases. destruct (Np.str_contains "RAM_TH" task); by apply rename_renamed.
Qed.

(** [make_cross_val_labels] renames the event types in the event table of
    the object; a second call finds them renamed and leaves the object as
    the first call left it. *)
Theorem make_cross_val_labels_idempotent (self self' : SubjectClassifier) :
  make_cross_val_labels self = inr self' → make_cross_val_labels self' = inr self'.
Proof.
  unfold make_cross_val_labels at 1. destruct (subject_data self) as [evs|]; [|done].
  intros [= <-]. unfold make_cross_val_labels. cbn [subject_data task train_phase test_phase].
  unfold valid_train_inds, valid_test_inds. cbn [test_phase].
  pose proof (length_rename_phases (task self) evs) as Hlen.
  by rewrite rename_phases_retyped, folds_of_retyped, retype_retyped.
Qed.

Lemma make_cross_val_labels_idempotent_witness :
  ∃ self', make_cross_val_labels two_sessions_enc_rec = inr self'
    ∧ make_cross_val_labels self' = inr self'.
Proof.
  eexists. split; [reflexivity|].
  by apply (make_cross_val_labels_idempotent two_sessions_enc_rec).
Defined.

(** The plan has one fold per distinct fold key (session, or trial or list
    with a single session) and no other; it is empty exactly when there is
    no event. *)
Theorem cross_val_dict_keys (self self' : SubjectClassifier) (evs : list event) :
  subject_data self = Some evs → make_cross_val_labels self = inr self' →
  (∀ k, is_Some (cross_val_dict self' !! k) ↔ k ∈ folds_of (task self) evs)
  ∧ (cross_val_dict self' = ∅ ↔ evs = []).
Proof.
  intros Hd Hm. apply make_cross_val_labels_inr in Hm as (evs' & Hd' & Hcv).
  rewrite Hd in Hd'. injection Hd' as <-.
  assert (Hkeys : ∀ k, is_Some (cross_val_dict self' !! k) ↔ k ∈ folds_of (task self) evs).
  { intros k. rewrite Hcv, lookup_make_cv_dict. case_decide as Hin.
    - split; [done|]. intros _. by eexists.
    - split; [by intros [? ?]|done]. }
  split; [exact Hkeys|]. split.
  - intros Hempty. destruct evs as [|e evs]; [done|]. exfalso.
    pose proof (length_folds_of (task self) (e :: evs)) as Hlen.
    destruct (folds_of (task self) (e :: evs)) as [|k ks] eqn:Hf; [done|].
    destruct (proj2 (Hkeys k)) as [f Hk]; [apply list_elem_of_here|].
    by rewrite Hempty, lookup_empty in Hk.
  - intros ->. apply map_eq. intros k. rewrite lookup_empty.
    destruct (cross_val_dict self' !! k) as [f|] eqn:Hk; [|done].
    assert (Hin' : k ∈ folds_of (task self) []) by (apply Hkeys; by eexists).
    pose proof (length_folds_of (task self) []) as Hlen.
    destruct (folds_of (task self) []); [by apply elem_of_nil in Hin'|done].
Qed.

Lemma cross_val_dict_keys_witness :
  ∃ self', make_cross_val_labels two_sessions_enc_rec = inr self'
    ∧ ∀ k, is_Some (cross_val_dict self' !! k)
           ↔ k ∈ folds_of "RAM_TH1" [Event 0 0 0 "CHEST"; Event 0 0 0 "REC";
                                     Event 1 1 0 "CHEST"; Event 1 1 0 "REC"].
Proof.
  eexists. split; [reflexivity|].
  exact (proj1 (cross_val_dict_keys two_sessions_enc_rec _ _ eq_refl eq_refl)).
Defined.

End CrossVal.

(** ** Arithmetic on float arrays, over exact rationals *)

Module NpQ.

Local Open Scope Q_scope.

Abbreviation matrix := (list (list Q)) (only parsing).

(** [a.sum()] and [np.mean(a)]. The mean of an empty array is NaN in
    numpy; here it is [0 / 0 = 0], and the statements below keep to
    non-empty arrays. *)
Definition sum (a : list Q) : Q := foldr Qplus 0 a.
Definition mean (a : list Q) : Q := sum a / inject_Z (Z.of_nat (length a)).

(** [a.max()] of a non-empty array. *)
Definition amax (a : list Q) : Q :=
  match a with
  | [] => 0
  | x :: a' => foldl Qmax x a'
  end.

(** [np.argmax(a)]: the first position of the maximum. *)
Fixpoint argmax_from (best : Q) (best_i i : nat) (a : list Q) : nat :=
  match a with
  | [] => best_i
  | x :: a' =>
      if Qlt_le_dec best x then argmax_from x i (S i) a'
      else argmax_from best best_i (S i) a'
  end.

Definition argmax (a : list Q) : nat :=
  match a with
  | [] => O
  | x :: a' => argmax_from x 0 1 a'
  end.

(** [m[:, j]], [m.mean(axis=0)] and [m.max(axis=1)] *)
Definition column (j : nat) (m : matrix) : list Q := (λ row, nth j row 0) <$> m.
Definition ncols (m : matrix) : nat := match m with [] => O | row :: _ => length row end.
Definition mean_axis0 (m : matrix) : list Q := (λ j, mean (column j m)) <$> seq 0 (ncols m).
Definition max_axis1 (m : matrix) : list Q := amax <$> m.

(** [a - b] and [a / c] elementwise *)
Definition sub (a b : list Q) : list Q := zip_with Qminus a b.
Definition div_scalar (a : list Q) (c : Q) : list Q := (λ x, x / c) <$> a.

(** [np.bincount(y)]: the number of occurrences of every value from 0 to
    the largest one. *)
Definition bincount (y : list nat) : list nat :=
  match y with
  | [] => []
  | _ => (λ k, length (filter (λ v, v = k) y)) <$> seq 0 (S (max_list y))
  end.

Definition rectangular (m : matrix) (n : nat) : Prop := Forall (λ row, length row = n) m.

(** *** Facts about maxima, sums and means *)

Lemma foldl_Qmax_ge (init : Q) (a : list Q) :
  init <= foldl Qmax init a ∧ ∀ x, x ∈ a → x <= foldl Qmax init a.
Proof.
  revert init. induction a as [|y a IH]; intros init; simpl.
  - split; [apply Qle_refl|]. intros x Hx. by apply elem_of_nil in Hx.
  - destruct (IH (Qmax init y)) as [Hinit Hrest]. split.
    + eapply Qle_trans; [apply Q.le_max_l|exact Hinit].
    + intros x [->|Hx]%elem_of_cons; [|by apply Hrest].
      eapply Qle_trans; [apply Q.le_max_r|exact Hinit].
Qed.

Lemma amax_ge (a : list Q) (x : Q) : x ∈ a → x <= amax a.
Proof.
  destruct a as [|y a]; simpl; [intros H; by apply elem_of_nil in H|].
  intros [->|Hx]%elem_of_cons;
    [apply (proj1 (foldl_Qmax_ge y a))|by apply (proj2 (foldl_Qmax_ge y a))].
Qed.

Lemma sum_nonneg (a : list Q) : Forall (λ x, 0 <= x) a → 0 <= sum a.
Proof.
  induction 1 as [|x a Hx _ IH]; simpl; [apply Qle_refl|].
  change 0 with (0 + 0) at 1. by apply Qplus_le_compat.
Qed.

Lemma mean_nonneg (a : list Q) : Forall (λ x, 0 <= x) a → 0 <= mean a.
Proof.
  intros Ha. unfold mean, Qdiv. apply Qmult_le_0_compat; [by apply sum_nonneg|].
  apply Qinv_le_0_compat. change 0 with (inject_Z 0). rewrite <- Zle_Qle. lia.
Qed.

Lemma argmax_from_bound best best_i i a :
  (best_i < i)%nat → (argmax_from best best_i i a < i + length a)%nat.
Proof.
  revert best best_i i. induction a as [|x a IH]; intros best best_i i Hlt; simpl.
  - lia.
  - destruct (Qlt_le_dec best x).
    + specialize (IH x i (S i)). lia.
    + specialize (IH best best_i (S i)). lia.
Qed.

Lemma argmax_lt (a : list Q) : a ≠ [] → (argmax a < length a)%nat.
Proof.
  destruct a as [|x a]; [done|]. intros _. simpl.
  pose proof (argmax_from_bound x 0 1 a). lia.
Qed.

Lemma argmax_from_replicate (x : Q) (best_i i n : nat) :
  argmax_from x best_i i (replicate n x) = best_i.
Proof.
  revert i. induction n as [|n IH]; intros i; simpl; [done|].
  destruct (Qlt_le_dec x x) as [Hlt|_]; [by apply Qlt_irrefl in Hlt|]. apply IH.
Qed.

Lemma argmax_replicate (x : Q) (n : nat) : argmax (replicate n x) = 0%nat.
Proof. destruct n; simpl; [done|]. apply argmax_from_replicate. Qed.

End NpQ.

(** ** Selection of the regularisation value *)

Module Selection.

Import NpQ.
Local Open Scope Q_scope.

(** The three lines after the fold loop in leave-one-session-out mode:
    [aucs = fold_aucs.mean(axis=0)],
    [bias = np.mean(fold_aucs.max(axis=1) - fold_aucs[:, np.argmax(aucs)])],
    [auc = aucs.max() - bias]. *)
Definition aucs (fold_aucs : matrix) : list Q := mean_axis0 fold_aucs.

Definition bias (fold_aucs : matrix) : Q :=
  mean (sub (max_axis1 fold_aucs) (column (argmax (aucs fold_aucs)) fold_aucs)).

Definition loso_auc (fold_aucs : matrix) : Q :=
  amax (aucs fold_aucs) - bias fold_aucs.

(** The bias estimate as the specification words it: for each fold, the
    best value of that fold is subtracted from the fold's AUC at the
    overall best candidate, and the differences are averaged. *)
Definition bias_as_worded (fold_aucs : matrix) : Q :=
  mean (sub (column (argmax (aucs fold_aucs)) fold_aucs) (max_axis1 fold_aucs)).

Definition loso_auc_as_worded (fold_aucs : matrix) : Q :=
  amax (aucs fold_aucs) - bias_as_worded fold_aucs.

(** *** Facts about the selection *)

Lemma length_aucs (m : matrix) : length (aucs m) = ncols m.
Proof. unfold aucs, mean_axis0. by rewrite length_fmap, length_seq. Qed.

Lemma ncols_rectangular (m : matrix) (n : nat) :
  m ≠ [] → rectangular m n → ncols m = n.
Proof. destruct m; [done|]. intros _ Hr. by inversion Hr. Qed.

(** In every fold, the fold's best AUC is at least its AUC at any candidate. *)
Lemma row_gaps_nonneg (m : matrix) (n j : nat) :
  rectangular m n → (j < n)%nat →
  Forall (λ d, 0 <= d) (sub (max_axis1 m) (column j m)).
Proof.
  intros Hr Hj. induction Hr as [|row m Hrow _ IH]; simpl; [constructor|].
  constructor; [|exact IH].
  assert (nth j row 0 <= amax row).
  { apply amax_ge, nth_elem_of. lia. }
  lra.
Qed.

(** C6: for a table of fold AUCs with at least one fold and one candidate,
    the bias term is not negative and the bias-corrected AUC is at most the
    largest fold-mean AUC. *)
Theorem bias_corrected_auc_le_max_mean_auc (fold_aucs : matrix) (n : nat) :
  fold_aucs ≠ [] → (0 < n)%nat → rectangular fold_aucs n →
  0 <= bias fold_aucs ∧ loso_auc fold_aucs <= amax (aucs fold_aucs).
Proof.
  intros Hne Hn Hr.
  assert (Hb : 0 <= bias fold_aucs).
  { unfold bias. apply mean_nonneg, (row_gaps_nonneg _ n); [done|].
    rewrite <- (ncols_rectangular fold_aucs n), <- length_aucs by done.
    apply argmax_lt. intros Hnil. apply (f_equal length) in Hnil.
    rewrite length_aucs, (ncols_rectangular _ n) in Hnil by done. simpl in Hnil. lia. }
  split; [exact Hb|]. unfold loso_auc. lra.
Qed.

(** Two folds and two candidates: candidate 0 is best on average, candidate
    1 is best in the first fold. *)
Definition two_by_two : matrix := [[3#5; 4#5]; [9#10; 1#2]].

Lemma bias_corrected_auc_le_max_mean_auc_witness :
  0 <= bias two_by_two ∧ loso_auc two_by_two <= amax (aucs two_by_two).
Proof.
  apply (bias_corrected_auc_le_max_mean_auc two_by_two 2).
  - discriminate.
  - lia.
  - repeat constructor.
Defined.

Example two_by_two_aucs :
  Forall2 Qeq (aucs two_by_two) [3#4; 13#20] ∧ argmax (aucs two_by_two) = O.
Proof. split; [repeat constructor|reflexivity]. Qed.

Example two_by_two_bias : bias two_by_two == 1#10.
Proof. reflexivity. Qed.

Example two_by_two_loso_auc : loso_auc two_by_two == 13#20.
Proof. reflexivity. Qed.

(** C2, as worded: on [two_by_two] the bias of the code is 1/10, the
    worded one is -1/10, and the reported AUC is 13/20, not 17/20. *)
Lemma bias_is_not_as_worded :
  ¬ (bias two_by_two == bias_as_worded two_by_two
     ∧ loso_auc two_by_two == loso_auc_as_worded two_by_two).
Proof. intros [H _]. vm_compute in H. discriminate. Qed.

(** *** The bias in closed form *)

Lemma sum_sub (a b : list Q) :
  length a = length b → sum (sub a b) == sum a - sum b.
Proof.
  revert b. induction a as [|x a IH]; intros [|y b] Hlen; simpl in *; try lia.
  - ring.
  - rewrite IH by lia. ring.
Qed.

Lemma mean_sub (a b : list Q) :
  length a = length b → mean (sub a b) == mean a - mean b.
Proof.
  intros Hlen. unfold mean, sub. rewrite length_zip_with, <- Hlen, Nat.min_id.
  change (zip_with Qminus a b) with (sub a b). rewrite sum_sub by done.
  unfold Qdiv. ring.
Qed.

Lemma foldl_Qmax_proper (x y : Q) (a : list Q) :
  x == y → foldl Qmax x a == foldl Qmax y a.
Proof.
  revert x y. induction a as [|z a IH]; intros x y Hxy; simpl; [done|].
  apply IH. by rewrite Hxy.
Qed.

(** [np.argmax] returns a position of the maximum. *)
Lemma nth_argmax_from (pre a : list Q) (best : Q) (best_i : nat) :
  (best_i < length pre)%nat → nth best_i pre 0 == best →
  nth (argmax_from best best_i (length pre) a) (pre ++ a) 0 == foldl Qmax best a.
Proof.
  revert pre best best_i. induction a as [|x a IH]; intros pre best best_i Hlt Hbest.
  - simpl. by rewrite app_nil_r.
  - cbn [argmax_from foldl].
    rewrite (assoc_L (++) pre [x] a : pre ++ x :: a = (pre ++ [x]) ++ a).
    replace (S (length pre)) with (length (pre ++ [x])) by (rewrite length_app; simpl; lia).
    destruct (Qlt_le_dec best x) as [Hlt'|Hle].
    + rewrite IH with (best := x).
      * apply foldl_Qmax_proper. symmetry. apply Q.max_r. by apply Qlt_le_weak.
      * rewrite length_app. simpl. lia.
      * rewrite app_nth2 by lia. by rewrite Nat.sub_diag.
    + rewrite IH with (best := best).
      * apply foldl_Qmax_proper. symmetry. by apply Q.max_l.
      * rewrite length_app. simpl. lia.
      * by rewrite app_nth1.
Qed.

Lemma nth_argmax (a : list Q) : a ≠ [] → nth (argmax a) a 0 == amax a.
Proof.
  destruct a as [|x a]; [done|]. intros _. simpl amax. unfold argmax.
  apply (nth_argmax_from [x] a x 0); simpl; [lia|reflexivity].
Qed.

Lemma nth_aucs (m : matrix) (j : nat) :
  (j < ncols m)%nat → nth j (aucs m) 0 = mean (column j m).
Proof.
  intros Hj. unfold aucs, mean_axis0. apply nth_lookup_Some.
  by rewrite list_lookup_fmap, lookup_seq_lt.
Qed.

Lemma argmax_aucs_lt (m : matrix) (n : nat) :
  m ≠ [] → (0 < n)%nat → rectangular m n → (argmax (aucs m) < ncols m)%nat.
Proof.
  intros Hne Hn Hr. rewrite <- length_aucs. apply argmax_lt.
  intros Hnil. apply (f_equal length) in Hnil.
  rewrite length_aucs, (ncols_rectangular _ n) in Hnil by done. simpl in Hnil. lia.
Qed.

(** For a table of fold AUCs with at least one fold and one candidate, the
    bias is the mean over the folds of the fold's best AUC, minus the best
    fold-mean AUC; so the reported AUC is twice the best fold-mean AUC
    minus the mean of the folds' best AUCs. *)
Theorem bias_is_mean_fold_best_minus_best_mean (fold_aucs : matrix) (n : nat) :
  fold_aucs ≠ [] → (0 < n)%nat → rectangular fold_aucs n →
  bias fold_aucs == mean (max_axis1 fold_aucs) - amax (aucs fold_aucs)
  ∧ loso_auc fold_aucs == 2 * amax (aucs fold_aucs) - mean (max_axis1 fold_aucs).
Proof.
  intros Hne Hn Hr.
  assert (Hb : bias fold_aucs == mean (max_axis1 fold_aucs) - amax (aucs fold_aucs)).
  { unfold bias. rewrite mean_sub
      by (unfold max_axis1, column; by rewrite !length_fmap).
    rewrite <- nth_aucs by by eapply argmax_aucs_lt.
    rewrite nth_argmax; [reflexivity|].
    intros Hnil. apply (f_equal length) in Hnil.
    rewrite length_aucs, (ncols_rectangular _ n) in Hnil by done. simpl in Hnil. lia. }
  split; [exact Hb|]. unfold loso_auc. rewrite Hb. ring.
Qed.

Lemma bias_is_mean_fold_best_minus_best_mean_witness :
  bias two_by_two == mean (max_axis1 two_by_two) - amax (aucs two_by_two)
  ∧ loso_auc two_by_two == 2 * amax (aucs two_by_two) - mean (max_axis1 two_by_two).
Proof.
  apply (bias_is_mean_fold_best_minus_best_mean two_by_two 2).
  - discriminate.
  - lia.
  - repeat constructor.
Defined.

Lemma sum_self_gaps (m : matrix) :
  rectangular m 1 → sum (sub (max_axis1 m) (column 0 m)) == 0.
Proof.
  induction 1 as [|row m Hrow _ IH]; simpl; [reflexivity|].
  destruct row as [|x [|y row]]; simpl in Hrow; try lia.
  simpl. rewrite IH. ring.
Qed.

(** With a single candidate value the bias is 0 and the reported AUC is
    the mean of the fold AUCs. *)
Theorem single_candidate_has_no_bias (fold_aucs : matrix) :
  fold_aucs ≠ [] → rectangular fold_aucs 1 →
  bias fold_aucs == 0 ∧ loso_auc fold_aucs == mean (column 0 fold_aucs).
Proof.
  intros Hne Hr.
  assert (Ha : aucs fold_aucs = [mean (column 0 fold_aucs)]).
  { unfold aucs, mean_axis0. by rewrite (ncols_rectangular _ 1). }
  assert (Hb : bias fold_aucs == 0).
  { unfold bias. rewrite Ha. simpl argmax. unfold mean at 1.
    rewrite sum_self_gaps by done. unfold Qdiv. ring. }
  split; [exact Hb|]. unfold loso_auc. rewrite Hb, Ha. simpl. ring.
Qed.

Definition one_column : matrix := [[3#5]; [9#10]].

Lemma single_candidate_has_no_bias_witness :
  bias one_column == 0 ∧ loso_auc one_column == mean (column 0 one_column).
Proof.
  apply (single_candidate_has_no_bias one_column).
  - discriminate.
  - repeat constructor.
Defined.

End Selection.

(** ** Observation weights *)

Module Weights.

Import NpQ.
Local Open Scope Q_scope.

(** [len(self.train_phase) > 1 and (self.scale_enc is not None)] *)
Definition scaling (train_phase : list string) (scale_enc : option Q) : option Q :=
  if bool_decide (1 < length train_phase)%nat then scale_enc else None.

(** [y_ind = rec_train.astype(int)], with 2 added to the retrieval events
    when the encoding classes are to be scaled. *)
Definition y_ind (train_phase : list string) (scale_enc : option Q)
    (rec_train : list bool) (task_phase_train : list string) : list nat :=
  let y := (λ b : bool, if b then 1%nat else 0%nat) <$> rec_train in
  match scaling train_phase scale_enc with
  | Some _ =>
      zip_with (λ v (b : bool), if b then (v + 2)%nat else v) y
               (Np.str_eq_mask task_phase_train "rec")
  | None => y
  end.

(** [recip_freq[:2] *= s] *)
Definition scale_first_two (s : Q) (a : list Q) : list Q :=
  ((λ x, x * s) <$> take 2 a) ++ drop 2 a.

(** The weight of every class: the reciprocal of its number of events,
    divided by the mean of these reciprocals; then, when scaling, the first
    two entries are multiplied by [scale_enc] and the vector is divided by
    its mean once more. *)
Definition recip_freq (train_phase : list string) (scale_enc : option Q)
    (y : list nat) : list Q :=
  let r0 := (λ n : nat, 1 / inject_Z (Z.of_nat n)) <$> bincount y in
  let r1 := div_scalar r0 (mean r0) in
  match scaling train_phase scale_enc with
  | Some s => let r2 := scale_first_two s r1 in div_scalar r2 (mean r2)
  | None => r1
  end.

(** [weights = recip_freq[y_ind]] *)
Definition weights (train_phase : list string) (scale_enc : option Q)
    (rec_train : list bool) (task_phase_train : list string) : list Q :=
  let y := y_ind train_phase scale_enc rec_train task_phase_train in
  let r := recip_freq train_phase scale_enc y in
  (λ k, nth k r 0) <$> y.

(** *** Facts about the weights *)

Lemma sum_div_scalar (a : list Q) (c : Q) : sum (div_scalar a c) == sum a / c.
Proof.
  induction a as [|x a IH]; simpl.
  - unfold Qdiv. ring.
  - rewrite IH. unfold Qdiv. ring.
Qed.

Lemma sum_pos (a : list Q) : a ≠ [] → Forall (λ x, 0 < x) a → 0 < sum a.
Proof.
  intros Hne Ha. destruct Ha as [|x a Hx Ha]; [done|]. simpl.
  assert (0 <= sum a).
  { apply sum_nonneg. eapply Forall_impl; [exact Ha|]. intros y Hy. by apply Qlt_le_weak. }
  lra.
Qed.

Lemma length_pos_Q {A} (a : list A) : a ≠ [] → 0 < inject_Z (Z.of_nat (length a)).
Proof.
  intros Hne. change 0 with (inject_Z 0). rewrite <- Zlt_Qlt.
  destruct a; [done|]. simpl. lia.
Qed.

Lemma mean_pos (a : list Q) : a ≠ [] → Forall (λ x, 0 < x) a → 0 < mean a.
Proof.
  intros Hne Ha. unfold mean. apply Qlt_shift_div_l; [by apply length_pos_Q|].
  rewrite Qmult_0_l. by apply sum_pos.
Qed.

(** Dividing a vector by its own mean gives a vector of mean 1. *)
Lemma mean_div_scalar_mean (a : list Q) :
  a ≠ [] → 0 < mean a → mean (div_scalar a (mean a)) == 1.
Proof.
  intros Hne Hm. unfold mean at 1. rewrite sum_div_scalar.
  unfold div_scalar. rewrite length_fmap.
  pose proof (length_pos_Q a Hne) as Hn.
  assert (Hs : sum a == mean a * inject_Z (Z.of_nat (length a))).
  { unfold mean. field. lra. }
  rewrite Hs at 1. field. split; lra.
Qed.

Lemma div_scalar_pos (a : list Q) (c : Q) :
  0 < c → Forall (λ x, 0 < x) a → Forall (λ x, 0 < x) (div_scalar a c).
Proof.
  intros Hc Ha. unfold div_scalar. apply Forall_fmap.
  eapply Forall_impl; [exact Ha|]. intros x Hx. simpl.
  apply Qlt_shift_div_l; [done|]. by rewrite Qmult_0_l.
Qed.

Lemma scale_first_two_pos (s : Q) (a : list Q) :
  0 < s → Forall (λ x, 0 < x) a → Forall (λ x, 0 < x) (scale_first_two s a).
Proof.
  intros Hs Ha. unfold scale_first_two. apply Forall_app. split.
  - apply Forall_fmap. eapply Forall_impl; [by apply Forall_take|].
    intros x Hx. simpl. by apply Qmult_lt_0_compat.
  - by apply Forall_drop.
Qed.

Lemma scale_first_two_nonempty (s : Q) (a : list Q) : a ≠ [] → scale_first_two s a ≠ [].
Proof. by destruct a. Qed.

Lemma div_scalar_nonempty (a : list Q) (c : Q) : a ≠ [] → div_scalar a c ≠ [].
Proof. by destruct a. Qed.

Lemma bincount_nonempty (y : list nat) : y ≠ [] → bincount y ≠ [].
Proof. by destruct y. Qed.

(** C8, as amended: when every class from 0 to the largest one has at least
    one training event (and the scaling factor, when used, is positive),
    the class weights [recip_freq], from which every training event takes
    the weight of its class, have mean exactly 1. *)
Theorem recip_freq_mean_one (train_phase : list string) (scale_enc : option Q)
    (rec_train : list bool) (task_phase_train : list string) :
  let y := y_ind train_phase scale_enc rec_train task_phase_train in
  y ≠ [] →
  Forall (λ n, (0 < n)%nat) (bincount y) →
  (∀ s, scaling train_phase scale_enc = Some s → 0 < s) →
  mean (recip_freq train_phase scale_enc y) == 1.
Proof.
  intros y Hy Hcounts Hs. unfold recip_freq.
  set (r0 := (λ n : nat, 1 / inject_Z (Z.of_nat n)) <$> bincount y).
  assert (Hr0 : Forall (λ x, 0 < x) r0).
  { apply Forall_fmap. eapply Forall_impl; [exact Hcounts|]. intros n Hn. simpl.
    apply Qlt_shift_div_l; [|by rewrite Qmult_0_l].
    change 0 with (inject_Z 0). rewrite <- Zlt_Qlt. simpl in Hn. lia. }
  assert (Hne0 : r0 ≠ []).
  { unfold r0. pose proof (bincount_nonempty y Hy). by destruct (bincount y). }
  pose proof (mean_pos r0 Hne0 Hr0) as Hm0.
  destruct (scaling train_phase scale_enc) as [s|] eqn:Hsc.
  - specialize (Hs s eq_refl).
    set (r2 := scale_first_two s (div_scalar r0 (mean r0))).
    assert (Hne2 : r2 ≠ []) by by apply scale_first_two_nonempty, div_scalar_nonempty.
    apply mean_div_scalar_mean; [done|].
    apply mean_pos; [done|]. by apply scale_first_two_pos, div_scalar_pos.
  - by apply mean_div_scalar_mean.
Qed.

(** One event that was not recalled and three that were, training on
    encoding only. *)
Definition one_against_three : list bool := [false; true; true; true].

Lemma recip_freq_mean_one_witness :
  mean (recip_freq ["enc"%string] None
          (y_ind ["enc"%string] None one_against_three (replicate 4 "enc"%string))) == 1.
Proof.
  apply (recip_freq_mean_one ["enc"%string] None one_against_three
           (replicate 4 "enc"%string)).
  - discriminate.
  - repeat constructor.
  - discriminate.
Defined.

Example one_against_three_weights :
  Forall2 Qeq (weights ["enc"%string] None one_against_three (replicate 4 "enc"%string))
              [3#2; 1#2; 1#2; 1#2].
Proof. repeat constructor. Qed.

(** C8, as worded: with one event of one class and three of the other both
    classes are present, and the weights of the four training events have
    mean 3/4. *)
Lemma weights_mean_is_not_one :
  let w := weights ["enc"%string] None one_against_three (replicate 4 "enc"%string) in
  Forall (λ n, (0 < n)%nat)
    (bincount (y_ind ["enc"%string] None one_against_three (replicate 4 "enc"%string)))
  ∧ mean w == 3#4 ∧ ¬ mean w == 1.
Proof.
  split; [repeat constructor|]. split; [reflexivity|].
  intros H. vm_compute in H. discriminate.
Qed.

(** *** The total weight of a class *)

Lemma lookup_scale_first_two (s : Q) (a : list Q) (k : nat) :
  scale_first_two s a !! k = (λ x, if (k <? 2)%nat then x * s else x) <$> a !! k.
Proof.
  destruct a as [|x [|y a]], k as [|[|k]]; try done.
  change (a !! k = (λ x : Q, x) <$> a !! k). by destruct (a !! k).
Qed.

(** The factor by which [recip_freq[:2] *= scale_enc] changes class [k]. *)
Definition class_factor (train_phase : list string) (scale_enc : option Q) (k : nat) : Q :=
  match scaling train_phase scale_enc with
  | Some s => if (k <? 2)%nat then s else 1
  | None => 1
  end.

(** The weight of class [k] is the reciprocal of its number of events,
    times its factor, times a constant that is the same for all classes. *)
Lemma lookup_recip_freq (train_phase : list string) (scale_enc : option Q) (y : list nat) :
  ∃ c : Q, ∀ k n w,
    bincount y !! k = Some n → recip_freq train_phase scale_enc y !! k = Some w →
    w == (1 / inject_Z (Z.of_nat n)) * class_factor train_phase scale_enc k * c.
Proof.
  unfold recip_freq, class_factor.
  set (r0 := (λ n : nat, 1 / inject_Z (Z.of_nat n)) <$> bincount y).
  destruct (scaling train_phase scale_enc) as [s|].
  - exists (/ mean r0 * / mean (scale_first_two s (div_scalar r0 (mean r0)))).
    intros k n w Hn. unfold div_scalar at 1.
    rewrite list_lookup_fmap, lookup_scale_first_two.
    unfold div_scalar, r0. rewrite !list_lookup_fmap, Hn. simpl. intros [= <-].
    destruct (k <? 2)%nat; unfold Qdiv; ring.
  - exists (/ mean r0). intros k n w Hn. unfold div_scalar, r0.
    rewrite !list_lookup_fmap, Hn. simpl. intros [= <-]. unfold Qdiv. ring.
Qed.

(** When every class has at least one training event, the number of events
    of a class times the weight of the class is the same for all classes
    up to the scaling factor: without scaling every class carries the same
    total weight, and with scaling an encoding class (0 or 1) carries
    [scale_enc] times the total weight of a retrieval class (2 or 3). *)
Theorem class_totals_follow_scaling (train_phase : list string) (scale_enc : option Q)
    (rec_train : list bool) (task_phase_train : list string) (k k' n n' : nat) (w w' : Q) :
  let y := y_ind train_phase scale_enc rec_train task_phase_train in
  let r := recip_freq train_phase scale_enc y in
  Forall (λ n, (0 < n)%nat) (bincount y) →
  bincount y !! k = Some n → bincount y !! k' = Some n' →
  r !! k = Some w → r !! k' = Some w' →
  inject_Z (Z.of_nat n) * w * class_factor train_phase scale_enc k'
  == inject_Z (Z.of_nat n') * w' * class_factor train_phase scale_enc k.
Proof.
  intros y r Hpos Hn Hn' Hw Hw'.
  destruct (lookup_recip_freq train_phase scale_enc y) as [c Hc].
  rewrite (Hc k n w Hn Hw), (Hc k' n' w' Hn' Hw').
  assert (Hinv : ∀ i m, bincount y !! i = Some m →
            inject_Z (Z.of_nat m) * (1 / inject_Z (Z.of_nat m)) == 1).
  { intros i m Hm. eapply Forall_lookup_1 in Hpos; [|exact Hm]. simpl in Hpos.
    field. change 0 with (inject_Z 0). rewrite inject_Z_injective. lia. }
  pose proof (Hinv k n Hn) as E. pose proof (Hinv k' n' Hn') as E'.
  set (a := inject_Z (Z.of_nat n)) in *. set (b := 1 / a) in *.
  set (a' := inject_Z (Z.of_nat n')) in *. set (b' := 1 / a') in *.
  transitivity ((a * b) * (class_factor train_phase scale_enc k
                           * class_factor train_phase scale_enc k' * c)); [ring|].
  transitivity ((a' * b') * (class_factor train_phase scale_enc k
                             * class_factor train_phase scale_enc k' * c)); [|ring].
  by rewrite E, E'.
Qed.

Lemma class_totals_follow_scaling_witness :
  ∃ w w',
    recip_freq ["enc"%string] None
      (y_ind ["enc"%string] None one_against_three (replicate 4 "enc"%string)) !! 0%nat
    = Some w
    ∧ recip_freq ["enc"%string] None
        (y_ind ["enc"%string] None one_against_three (replicate 4 "enc"%string)) !! 1%nat
      = Some w'
    ∧ inject_Z (Z.of_nat 1) * w * 1 == inject_Z (Z.of_nat 3) * w' * 1.
Proof.
  eexists _, _. split; [reflexivity|]. split; [reflexivity|].
  apply (class_totals_follow_scaling ["enc"%string] None one_against_three
           (replicate 4 "enc"%string) 0 1 1 3).
  - repeat constructor.
  - reflexivity.
  - reflexivity.
  - reflexivity.
  - reflexivity.
Defined.

End Weights.

(** ** Electrode adjacency *)

Module Adjacency.

Local Open Scope nat_scope.

Definition point : Type := float * float * float.

(** [xyz[xyz[:, 0] < 0, 0] -= 100]: an electrode with a negative first
    coordinate is moved 100 further along that axis. *)
Definition move_left_hemisphere (p : point) : point :=
  let '(x, y, z) := p in
  if (x <? 0)%float then ((x - 100)%float, y, z) else p.

Definition separate (separate_hemis : bool) (xyz : list point) : list point :=
  if separate_hemis then move_left_hemisphere <$> xyz else xyz.

(** The Euclidean metric of [scipy.spatial.distance.pdist]. *)
Definition euclidean (u v : point) : float :=
  let '(a, b, c) := u in
  let '(x, y, z) := v in
  PrimFloat.sqrt (((a - x) * (a - x) + (b - y) * (b - y)) + (c - z) * (c - z))%float.

(** [pdist(xyz)]: the distances of all pairs [i < j], row after row. *)
Fixpoint pdist (xyz : list point) : list float :=
  match xyz with
  | [] => []
  | p :: rest => (euclidean p <$> rest) ++ pdist rest
  end.

(** The position of the pair [i < j] of [m] points in the condensed
    vector, as scipy documents it. *)
Definition condensed_index (m i j : nat) : nat := m * i + j - ((i + 2) * (i + 1)) / 2.

(** [squareform(v)]: the square symmetric matrix with zero diagonal of a
    condensed vector; an empty vector gives the 1 x 1 zero matrix. *)
Definition squareform_dim (len : nat) : nat := Nat.sqrt (2 * len) + 1.

Definition squareform (v : list float) : list (list float) :=
  let m := squareform_dim (length v) in
  (λ i, (λ j, if i =? j then 0%float
              else nth (condensed_index m (i `min` j) (i `max` j)) v 0%float)
        <$> seq 0 m)
  <$> seq 0 m.

(** [elec_dists = squareform(pdist(xyz))] after the optional move, and
    [near_adj_matr = (elec_dists < min_elec_dist) & (elec_dists > 0.)]. *)
Definition elec_dists (separate_hemis : bool) (xyz : list point) : list (list float) :=
  squareform (pdist (separate separate_hemis xyz)).

Definition near_adj_matr (separate_hemis : bool) (min_elec_dist : float)
    (xyz : list point) : list (list bool) :=
  (λ row : list float, (λ e, (e <? min_elec_dist)%float && (0 <? e)%float) <$> row)
  <$> elec_dists separate_hemis xyz.

(** Entry [(i, j)] of a 2-D array. *)
Definition entry {A} (m : list (list A)) (i j : nat) : option A :=
  m !! i ≫= λ row, row !! j.

(** *** Facts about the condensed vector *)

Lemma triangle_step (i : nat) : ((i + 3) * (i + 2)) / 2 = ((i + 2) * (i + 1)) / 2 + (i + 2).
Proof.
  replace ((i + 3) * (i + 2)) with ((i + 2) * (i + 1) + (i + 2) * 2) by lia.
  by rewrite Nat.div_add.
Qed.

Lemma triangle_le (i : nat) : ((i + 2) * (i + 1)) / 2 ≤ (i + 1) * (i + 1).
Proof.
  induction i as [|i IH]; [done|].
  replace (S i + 2) with (i + 3) by lia. replace (S i + 1) with (i + 2) by lia.
  rewrite triangle_step. nia.
Qed.

Lemma length_pdist (xyz : list point) :
  2 * length (pdist xyz) = length xyz * (length xyz - 1).
Proof.
  induction xyz as [|p rest IH]; simpl; [done|].
  rewrite length_app, length_fmap. nia.
Qed.

Lemma squareform_dim_pdist (xyz : list point) :
  xyz ≠ [] → squareform_dim (length (pdist xyz)) = length xyz.
Proof.
  intros Hne. unfold squareform_dim. rewrite length_pdist.
  destruct xyz as [|p rest]; [done|]. simpl length.
  rewrite (Nat.sqrt_unique _ (length rest)); [lia|]. nia.
Qed.

(** The condensed vector holds the distance of the pair [i < j] at its
    documented position. *)
Lemma lookup_pdist (xyz : list point) (i j : nat) (p q : point) :
  i < j → xyz !! i = Some p → xyz !! j = Some q →
  pdist xyz !! condensed_index (length xyz) i j = Some (euclidean p q).
Proof.
  revert i j. induction xyz as [|r rest IH]; intros i j Hij Hp Hq; [done|].
  destruct j as [|j]; [lia|]. simpl in Hq. simpl pdist. simpl length.
  destruct i as [|i].
  - injection Hp as ->. unfold condensed_index.
    replace (S (length rest) * 0 + S j - (0 + 2) * (0 + 1) / 2) with j
      by (change ((0 + 2) * (0 + 1) / 2) with 1; lia).
    rewrite lookup_app_l by (rewrite length_fmap; by eapply lookup_lt_Some).
    by rewrite list_lookup_fmap, Hq.
  - simpl in Hp. assert (Hi : i < length rest) by by eapply lookup_lt_Some.
    assert (Hj : j < length rest) by by eapply lookup_lt_Some.
    specialize (IH i j ltac:(lia) Hp Hq). unfold condensed_index in *.
    replace (S i + 2) with (i + 3) by lia. replace (S i + 1) with (i + 2) by lia.
    rewrite triangle_step. pose proof (triangle_le i).
    rewrite lookup_app_r by (rewrite length_fmap; nia).
    rewrite length_fmap. rewrite <- IH. f_equal. nia.
Qed.

Lemma length_separate (separate_hemis : bool) (xyz : list point) :
  length (separate separate_hemis xyz) = length xyz.
Proof. destruct separate_hemis; simpl; [by rewrite length_fmap|done]. Qed.

Lemma entry_squareform_pdist (xyz : list point) (i j : nat) :
  i < length xyz → j < length xyz →
  entry (squareform (pdist xyz)) i j
  = Some (if i =? j then 0%float
          else nth (condensed_index (length xyz) (i `min` j) (i `max` j))
                   (pdist xyz) 0%float).
Proof.
  intros Hi Hj. unfold entry, squareform.
  rewrite squareform_dim_pdist by (intros ->; simpl in Hi; lia).
  rewrite list_lookup_fmap, lookup_seq_lt by done. simpl.
  by rewrite list_lookup_fmap, lookup_seq_lt.
Qed.

Lemma entry_near_adj_matr (separate_hemis : bool) (d : float) (xyz : list point)
    (i j : nat) :
  entry (near_adj_matr separate_hemis d xyz) i j
  = (λ e, (e <? d)%float && (0 <? e)%float) <$> entry (elec_dists separate_hemis xyz) i j.
Proof.
  unfold entry, near_adj_matr. rewrite list_lookup_fmap.
  destruct (elec_dists separate_hemis xyz !! i) as [row|]; simpl; [|done].
  by rewrite list_lookup_fmap.
Qed.

(** C4, as amended: for distinct electrodes, the entry of the adjacency
    matrix is true exactly when the distance [e] that [pdist] computed for
    the pair satisfies [e < min_elec_dist] and [0 < e], where the distance
    is taken between the coordinates after the left hemisphere has been
    moved when [separate_hemis] is set; the matrix is symmetric and its
    diagonal is false. *)
Theorem near_adj_matr_entries (separate_hemis : bool) (d : float)
    (xyz : list point) (i j : nat) :
  i < length xyz → j < length xyz →
  let xyz' := separate separate_hemis xyz in
  let near := near_adj_matr separate_hemis d xyz in
  (i ≠ j → ∃ p q, xyz' !! (i `min` j) = Some p ∧ xyz' !! (i `max` j) = Some q ∧
     entry near i j = Some ((euclidean p q <? d)%float && (0 <? euclidean p q)%float))
  ∧ entry near i j = entry near j i
  ∧ entry near i i = Some false.
Proof.
  intros Hi Hj xyz' near. unfold near.
  rewrite !entry_near_adj_matr. unfold elec_dists. fold xyz'.
  assert (Hlen : length xyz' = length xyz) by apply length_separate.
  rewrite !entry_squareform_pdist by lia. split; [|split].
  - intros Hne.
    destruct (lookup_lt_is_Some_2 xyz' (i `min` j)) as [p Hp]; [lia|].
    destruct (lookup_lt_is_Some_2 xyz' (i `max` j)) as [q Hq]; [lia|].
    exists p, q. split; [exact Hp|]. split; [exact Hq|].
    rewrite (proj2 (Nat.eqb_neq i j) Hne). simpl.
    assert (Hlt : i `min` j < i `max` j) by lia.
    pose proof (lookup_pdist xyz' _ _ p q Hlt Hp Hq) as Hd.
    by rewrite (nth_lookup_Some _ _ 0%float _ Hd).
  - rewrite (Nat.eqb_sym j i), (Nat.min_comm j i), (Nat.max_comm j i). done.
  - rewrite Nat.eqb_refl. simpl. f_equal.
    change (0 <? 0)%float with false. apply andb_false_r.
Qed.

(** Two electrodes 2 mm apart, one on each side of the midline. *)
Definition across_midline : list point := [((-1)%float, 0%float, 0%float); (1%float, 0%float, 0%float)].

Lemma near_adj_matr_entries_witness :
  entry (near_adj_matr true 15%float across_midline) 0 1
  = entry (near_adj_matr true 15%float across_midline) 1 0
  ∧ entry (near_adj_matr true 15%float across_midline) 0 0 = Some false.
Proof.
  refine (proj2 (near_adj_matr_entries true 15%float across_midline 0 1 _ _));
    simpl; lia.
Defined.

Example across_midline_dists :
  elec_dists false across_midline = [[0; 2]; [2; 0]]%float
  ∧ elec_dists true across_midline = [[0; 102]; [102; 0]]%float.
Proof. split; reflexivity. Qed.

(** C4, as worded: the two electrodes of [across_midline] are 2 mm apart,
    which is more than 0 and less than 15, and with [separate_hemis] set
    (the default) their entry of the adjacency matrix is false. *)
Lemma near_adj_matr_not_distance_of_given_coordinates :
  ∃ p q, across_midline !! 0 = Some p ∧ across_midline !! 1 = Some q
    ∧ (0 <? euclidean p q)%float = true ∧ (euclidean p q <? 15)%float = true
    ∧ entry (near_adj_matr true 15%float across_midline) 0 1 = Some false.
Proof. eexists _, _. repeat split. Qed.

(** *** The shape of the adjacency matrix *)

(** For at least one electrode, [squareform] recovers the number of
    electrodes from the length of the condensed vector: the adjacency
    matrix is square, with one row and one column per electrode. *)
Theorem near_adj_matr_square (separate_hemis : bool) (d : float) (xyz : list point) :
  xyz ≠ [] →
  length (near_adj_matr separate_hemis d xyz) = length xyz
  ∧ Forall (λ row, length row = length xyz) (near_adj_matr separate_hemis d xyz).
Proof.
  intros Hne. unfold near_adj_matr, elec_dists, squareform.
  assert (Hdim : squareform_dim (length (pdist (separate separate_hemis xyz)))
                 = length xyz).
  { rewrite squareform_dim_pdist, length_separate; [done|].
    intros Hnil. apply (f_equal length) in Hnil. rewrite length_separate in Hnil.
    by destruct xyz. }
  rewrite Hdim. split.
  - by rewrite !length_fmap, length_seq.
  - apply Forall_fmap, Forall_fmap, Forall_forall. intros i _. simpl.
    by rewrite !length_fmap, length_seq.
Qed.

Lemma near_adj_matr_square_witness :
  length (near_adj_matr true 15%float across_midline) = 2
  ∧ Forall (λ row, length row = 2) (near_adj_matr true 15%float across_midline).
Proof. by apply (near_adj_matr_square true 15%float across_midline). Defined.

End Adjacency.

(** ** Cluster extraction *)

Module Cluster.

Local Open Scope nat_scope.

(** The value [all_clusters[k]]: the clusters found at one window centre,
    the frequency of every electrode of every cluster, and the mean of
    these per cluster. A mean of no value (numpy's NaN) is [None]. *)
Record cluster_entry := {
  elecs : list (list nat);
  mean_freqs : list (option Qc);
  elec_freqs : list (list (option Qc))
}.

Definition empty_entry : cluster_entry :=
  {| elecs := []; mean_freqs := []; elec_freqs := [] |}.

(** The attributes of the analysis object that the extraction reads. *)
Record settings := {
  freqs : list Qc;
  cluster_freq_range : Qc;
  min_num_elecs : Z
}.

(** [np.arange(start, stop, 1)] *)
Definition arange1 (start stop : Qc) : list Qc :=
  (λ k : nat, (start + Q2Qc (inject_Z (Z.of_nat k)))%Qc)
  <$> seq 0 (Z.to_nat (Qceiling (stop - start)%Qc)).

(** [np.mean] of a list of frequencies, and of a list of such means. *)
Definition mean_opt (a : list Qc) : option Qc :=
  match a with
  | [] => None
  | _ => Some (foldr Qcplus 0%Qc a / Q2Qc (inject_Z (Z.of_nat (length a))))%Qc
  end.

Definition mean_of_means (a : list (option Qc)) : option Qc :=
  mapM id a ≫= mean_opt.

(** [row.sum()] of a boolean row *)
Definition count_true (row : list bool) : nat := length (filter (λ b, b = true) row).

(** [np.where(row)[0]] *)
Fixpoint where_from (i : nat) (row : list bool) : list nat :=
  match row with
  | [] => []
  | b :: row' => if b then i :: where_from (S i) row' else where_from (S i) row'
  end.

Definition where_true (row : list bool) : list nat := where_from 0 row.

(** [m[~keep] = False] and [m[:, ~keep] = False] *)
Definition clear_rows (keep : list bool) (m : list (list bool)) : list (list bool) :=
  zip_with (λ (b : bool) (row : list bool), if b then row else (λ _, false) <$> row) keep m.

Definition clear_cols (keep : list bool) (m : list (list bool)) : list (list bool) :=
  (λ row : list bool, zip_with (λ (b v : bool), b && v) keep row) <$> m.

Section Extraction.

(** [tarjan.tarjan]: the strongly connected components of a graph given by
    the successors of every node. *)
Variable tarjan : list (list nat) → list (list nat).

(** [par_funcs.my_local_max], which is not among the source files: the
    positions of the local maxima of a curve. *)
Variable my_local_max : list nat → list nat.

Variable self : settings.

(** The window centres, the windows and the frequencies of every window. *)
Definition window_centers : option (list Qc) :=
  first ← head (freqs self);
  final ← last (freqs self);
  Some (arange1 first (final + Q2Qc (1 # 1000))%Qc).

Definition window_bin (x : Qc) : list bool :=
  let lo := (x - cluster_freq_range self / Q2Qc 2)%Qc in
  let hi := (x + cluster_freq_range self / Q2Qc 2)%Qc in
  (λ f, bool_decide (lo ≤ f)%Qc && bool_decide (f ≤ hi)%Qc) <$> freqs self.

(** [peaks[:, ~allowed_elecs] = False] *)
Definition allowed_peaks (peaks : list (list bool)) (allowed_elecs : list bool)
    : list (list bool) :=
  (λ row : list bool, zip_with andb row allowed_elecs) <$> peaks.

(** [binned_peaks]: per window, whether an electrode has a peak at some
    frequency of the window. *)
Definition binned_peaks (peaks : list (list bool)) (centers : list Qc)
    : list (list bool) :=
  (λ x, Np.any_axis0 (length (default [] (head peaks)))
                  (Np.getitem_mask peaks (window_bin x))) <$> centers.

Definition peak_freqs (binned : list (list bool)) : list nat :=
  my_local_max (count_true <$> binned).

(** The graph of one window and its components. *)
Definition graph_at (near_adj_matr : list (list bool)) (keep : list bool)
    : list (list nat) :=
  where_true <$> clear_cols keep (clear_rows keep near_adj_matr).

Definition enough (c : list nat) : Prop := (min_num_elecs self ≤ Z.of_nat (length c))%Z.

Definition good_clusters (near_adj_matr : list (list bool)) (keep : list bool)
    : list (list nat) :=
  filter enough (tarjan (graph_at near_adj_matr keep)).

(** The frequency of one electrode of a cluster: the mean of the
    frequencies of the window at which the electrode has a peak. *)
Definition elec_freq (peaks : list (list bool)) (wb : list bool) (elec : nat)
    : option Qc :=
  mean_opt (Np.getitem_mask (Np.getitem_mask (freqs self) wb)
              ((λ row : list bool, nth elec row false) <$> Np.getitem_mask peaks wb)).

(** The body of the loop over the clusters that are large enough. *)
Definition append_cluster (peaks : list (list bool)) (centers : list Qc)
    (this_peak_freq : nat) (all_clusters : gmap Qc cluster_entry)
    (cluster : list nat) : option (gmap Qc cluster_entry) :=
  center ← centers !! this_peak_freq;
  e ← all_clusters !! center;
  let fs := elec_freq peaks (window_bin center) <$> cluster in
  Some (<[center := {| elecs := elecs e ++ [cluster];
                       mean_freqs := mean_freqs e ++ [mean_of_means fs];
                       elec_freqs := elec_freqs e ++ [fs] |}]> all_clusters).

(** The body of the loop over the peak frequencies. *)
Definition cluster_step (peaks near_adj_matr : list (list bool))
    (centers : list Qc) (binned : list (list bool))
    (all_clusters : gmap Qc cluster_entry) (this_peak_freq : nat)
    : option (gmap Qc cluster_entry) :=
  keep ← binned !! this_peak_freq;
  Np.fold_opt (append_cluster peaks centers this_peak_freq) all_clusters
              (good_clusters near_adj_matr keep).

(** [find_clusters_from_peaks]. [None] stands for an exception: no
    frequencies, no window, or a position outside the windows. The arrays
    are taken to have the shapes that the docstring states. *)
Definition find_clusters_from_peaks (peaks near_adj_matr : list (list bool))
    (allowed_elecs : list bool) : option (gmap Qc cluster_entry) :=
  centers ← window_centers;
  guard (centers ≠ []);;
  let all_clusters : gmap Qc cluster_entry :=
    foldl (λ d k, <[k := empty_entry]> d) ∅ centers in
  let peaks := allowed_peaks peaks allowed_elecs in
  let binned := binned_peaks peaks centers in
  d ← Np.fold_opt (cluster_step peaks near_adj_matr centers binned)
                  all_clusters (peak_freqs binned);
  Some (filter (λ kv, elecs kv.2 ≠ []) d).

(** *** Facts about the extraction *)

(** The clusters that the step at position [pf] adds under the key [k]. *)
Definition found_at (near_adj_matr : list (list bool)) (centers : list Qc)
    (binned : list (list bool)) (k : Qc) (pf : nat) : list (list nat) :=
  if decide (centers !! pf = Some k)
  then match binned !! pf with
       | Some keep => good_clusters near_adj_matr keep
       | None => []
       end
  else [].

Lemma append_cluster_elecs peaks centers pf d c d' :
  append_cluster peaks centers pf d c = Some d' →
  ∃ center, centers !! pf = Some center ∧
    ∀ k, elecs <$> d' !! k
         = (λ l, l ++ (if decide (k = center) then [c] else [])) <$> (elecs <$> d !! k).
Proof.
  unfold append_cluster. intros Hd'.
  destruct (centers !! pf) as [center|]; [|done]. simpl in Hd'.
  destruct (d !! center) as [e|] eqn:He; [|done]. simpl in Hd'.
  injection Hd' as <-. exists center. split; [done|]. intros k.
  destruct (decide (k = center)) as [->|Hne].
  - by rewrite lookup_insert_eq, He.
  - rewrite lookup_insert_ne by done. destruct (d !! k); simpl; [|done].
    by rewrite app_nil_r.
Qed.

Lemma fold_append_cluster_elecs peaks centers pf good d d' :
  Np.fold_opt (append_cluster peaks centers pf) d good = Some d' →
  ∀ k, elecs <$> d' !! k
       = (λ l, l ++ (if decide (centers !! pf = Some k) then good else []))
         <$> (elecs <$> d !! k).
Proof.
  revert d. induction good as [|c good IH]; intros d Hd' k; simpl in Hd'.
  - injection Hd' as <-. destruct (d !! k); simpl; [|done].
    by destruct (decide _); rewrite app_nil_r.
  - destruct (append_cluster peaks centers pf d c) as [d1|] eqn:Hd1; [|done].
    simpl in Hd'. apply append_cluster_elecs in Hd1 as (center & Hc & Hd1).
    rewrite (IH _ Hd' k), Hd1. destruct (d !! k); simpl; [|done].
    rewrite Hc. destruct (decide (k = center)) as [->|Hne].
    + rewrite !decide_True by done. by rewrite <- app_assoc.
    + rewrite !decide_False by congruence. by rewrite !app_nil_r.
Qed.

Lemma cluster_step_elecs peaks near_adj_matr centers binned d pf d' :
  cluster_step peaks near_adj_matr centers binned d pf = Some d' →
  ∀ k, elecs <$> d' !! k
       = (λ l, l ++ found_at near_adj_matr centers binned k pf) <$> (elecs <$> d !! k).
Proof.
  unfold cluster_step, found_at. intros Hd' k.
  destruct (binned !! pf) as [keep|]; [|done]. simpl in Hd'.
  by rewrite (fold_append_cluster_elecs _ _ _ _ _ _ Hd' k).
Qed.

Lemma fold_cluster_step_elecs peaks near_adj_matr centers binned pfs d d' :
  Np.fold_opt (cluster_step peaks near_adj_matr centers binned) d pfs = Some d' →
  ∀ k, elecs <$> d' !! k
       = (λ l, l ++ concat (found_at near_adj_matr centers binned k <$> pfs))
         <$> (elecs <$> d !! k).
Proof.
  revert d. induction pfs as [|pf pfs IH]; intros d Hd' k; simpl in Hd'.
  - injection Hd' as <-. destruct (d !! k); simpl; [|done]. by rewrite app_nil_r.
  - destruct (cluster_step peaks near_adj_matr centers binned d pf) as [d1|] eqn:Hd1;
      [|done].
    simpl in Hd'. rewrite (IH _ Hd' k), (cluster_step_elecs _ _ _ _ _ _ _ Hd1 k).
    destruct (d !! k); simpl; [|done]. by rewrite <- app_assoc.
Qed.

Lemma elem_of_found_at near_adj_matr centers binned k pfs c :
  c ∈ concat (found_at near_adj_matr centers binned k <$> pfs) ↔
  ∃ pf keep, pf ∈ pfs ∧ centers !! pf = Some k ∧ binned !! pf = Some keep
           ∧ c ∈ tarjan (graph_at near_adj_matr keep) ∧ enough c.
Proof.
  rewrite Np.elem_of_concat. split.
  - intros (l & Hc & Hl). apply list_elem_of_fmap in Hl as (pf & -> & Hpf).
    unfold found_at in Hc. case_decide as Hk; [|by apply elem_of_nil in Hc].
    destruct (binned !! pf) as [keep|] eqn:Hb; [|by apply elem_of_nil in Hc].
    apply list_elem_of_filter in Hc as [Hen Hc]. by exists pf, keep.
  - intros (pf & keep & Hpf & Hk & Hb & Hc & Hen).
    exists (found_at near_adj_matr centers binned k pf). split.
    + unfold found_at. rewrite decide_True, Hb by done.
      apply list_elem_of_filter. done.
    + apply list_elem_of_fmap. by exists pf.
Qed.

Lemma lookup_initial_clusters (centers : list Qc) (k : Qc) :
  foldl (λ d k, <[k := empty_entry]> d) (∅ : gmap Qc cluster_entry) centers !! k
  = if decide (k ∈ centers) then Some empty_entry else None.
Proof. by rewrite (Np.lookup_foldl_insert (λ _, empty_entry)), lookup_empty. Qed.

(** The loops do not fail when every peak position is the position of a
    window. *)
Lemma append_cluster_is_Some peaks centers pf d c :
  pf < length centers → (∀ k, k ∈ centers → is_Some (d !! k)) →
  ∃ d', append_cluster peaks centers pf d c = Some d'
        ∧ ∀ k, k ∈ centers → is_Some (d' !! k).
Proof.
  intros Hpf Hdom. unfold append_cluster.
  destruct (lookup_lt_is_Some_2 centers pf Hpf) as [center Hc]. rewrite Hc. simpl.
  destruct (Hdom center) as [e He]; [by eapply list_elem_of_lookup_2|].
  rewrite He. simpl. eexists. split; [done|]. intros k Hk.
  destruct (decide (k = center)) as [->|Hne].
  - rewrite lookup_insert_eq. by eexists.
  - rewrite lookup_insert_ne by done. by apply Hdom.
Qed.

Lemma fold_append_cluster_is_Some peaks centers pf good d :
  pf < length centers → (∀ k, k ∈ centers → is_Some (d !! k)) →
  ∃ d', Np.fold_opt (append_cluster peaks centers pf) d good = Some d'
        ∧ ∀ k, k ∈ centers → is_Some (d' !! k).
Proof.
  intros Hpf. revert d. induction good as [|c good IH]; intros d Hdom; simpl.
  - by exists d.
  - destruct (append_cluster_is_Some peaks centers pf d c Hpf Hdom) as (d1 & -> & Hdom1).
    simpl. by apply IH.
Qed.

Lemma fold_cluster_step_is_Some peaks near_adj_matr centers binned pfs d :
  length binned = length centers →
  Forall (λ pf, pf < length centers) pfs →
  (∀ k, k ∈ centers → is_Some (d !! k)) →
  is_Some (Np.fold_opt (cluster_step peaks near_adj_matr centers binned) d pfs).
Proof.
  intros Hlen Hpfs. revert d.
  induction Hpfs as [|pf pfs Hpf _ IH]; intros d Hdom; cbn [Np.fold_opt].
  - by eexists.
  - destruct (lookup_lt_is_Some_2 binned pf) as [keep Hk]; [lia|].
    destruct (fold_append_cluster_is_Some peaks centers pf
                (good_clusters near_adj_matr keep) d Hpf Hdom) as (d1 & Hd1 & Hdom1).
    assert (cluster_step peaks near_adj_matr centers binned d pf = Some d1) as ->
      by (unfold cluster_step; by rewrite Hk).
    simpl. by apply IH.
Qed.

Lemma find_clusters_from_peaks_returns peaks near_adj_matr allowed_elecs centers :
  window_centers = Some centers → centers ≠ [] →
  Forall (λ pf, pf < length centers)
         (peak_freqs (binned_peaks (allowed_peaks peaks allowed_elecs) centers)) →
  is_Some (find_clusters_from_peaks peaks near_adj_matr allowed_elecs).
Proof.
  intros Hc Hne Hpfs. unfold find_clusters_from_peaks. rewrite Hc. simpl.
  case_guard; [|done]. simpl.
  destruct (fold_cluster_step_is_Some (allowed_peaks peaks allowed_elecs) near_adj_matr
              centers (binned_peaks (allowed_peaks peaks allowed_elecs) centers)
              (peak_freqs (binned_peaks (allowed_peaks peaks allowed_elecs) centers))
              (foldl (λ d k, <[k := empty_entry]> d) ∅ centers)) as [d Hd].
  - unfold binned_peaks. by rewrite length_fmap.
  - done.
  - intros k Hk. rewrite lookup_initial_clusters, decide_True by done. by eexists.
  - rewrite Hd. simpl. by eexists.
Qed.

(** C5: when the extraction returns a mapping, every entry of the mapping
    has at least one cluster, every cluster in it has at least
    [min_num_elecs] electrodes, and a window centre is a key exactly when
    at some peak position of that window the components of the graph
    include one with at least [min_num_elecs] electrodes. *)
Theorem find_clusters_from_peaks_keeps_large_clusters
    (peaks near_adj_matr : list (list bool)) (allowed_elecs : list bool)
    (m : gmap Qc cluster_entry) :
  find_clusters_from_peaks peaks near_adj_matr allowed_elecs = Some m →
  ∃ centers, window_centers = Some centers ∧
    let binned := binned_peaks (allowed_peaks peaks allowed_elecs) centers in
    (∀ k e, m !! k = Some e → elecs e ≠ [] ∧ Forall enough (elecs e))
    ∧ (∀ k, is_Some (m !! k) ↔
         ∃ pf keep c, pf ∈ peak_freqs binned ∧ centers !! pf = Some k
                    ∧ binned !! pf = Some keep
                    ∧ c ∈ tarjan (graph_at near_adj_matr keep) ∧ enough c).
Proof.
  unfold find_clusters_from_peaks. intros Hm.
  destruct window_centers as [centers|]; [|done]. simpl in Hm.
  case_guard; [|done]. simpl in Hm.
  set (peaks' := allowed_peaks peaks allowed_elecs) in *.
  set (binned := binned_peaks peaks' centers) in *.
  destruct (Np.fold_opt _ _ _) as [d|] eqn:Hd; [|done]. simpl in Hm.
  injection Hm as <-. exists centers. split; [done|]. simpl.
  pose proof (fold_cluster_step_elecs _ _ _ _ _ _ _ Hd) as Hel.
  assert (Hdk : ∀ k e, d !! k = Some e →
            k ∈ centers ∧
            elecs e = concat (found_at near_adj_matr centers binned k <$> peak_freqs binned)).
  { intros k e He. specialize (Hel k). rewrite He, lookup_initial_clusters in Hel.
    case_decide; [|done]. simpl in Hel. by injection Hel as ->. }
  split.
  - intros k e [He Hne]%map_lookup_filter_Some. simpl in Hne. split; [done|].
    destruct (Hdk k e He) as [_ ->]. apply Forall_forall. intros c Hc.
    apply elem_of_found_at in Hc as (pf & keep & _ & _ & _ & _ & Hen). done.
  - intros k. split.
    + intros [e [He Hne]%map_lookup_filter_Some]. simpl in Hne.
      destruct (Hdk k e He) as [_ Hek]. destruct (elecs e) as [|c l] eqn:Hl; [done|].
      assert (Hc : c ∈ concat (found_at near_adj_matr centers binned k
                                 <$> peak_freqs binned)).
      { rewrite <- Hek. apply list_elem_of_here. }
      apply elem_of_found_at in Hc as (pf & keep & ? & ? & ? & ? & ?).
      by exists pf, keep, c.
    + intros (pf & keep & c & Hpf & Hk & Hb & Hc & Hen).
      assert (Hin : c ∈ concat (found_at near_adj_matr centers binned k
                                  <$> peak_freqs binned)).
      { apply elem_of_found_at. by exists pf, keep. }
      specialize (Hel k). rewrite lookup_initial_clusters, decide_True in Hel
        by by eapply list_elem_of_lookup_2.
      simpl in Hel. destruct (d !! k) as [e|] eqn:He; [|done].
      simpl in Hel. injection Hel as Hel. exists e.
      apply map_lookup_filter_Some. split; [done|]. simpl. rewrite Hel.
      intros Hnil. rewrite Hnil in Hin. by apply elem_of_nil in Hin.
Qed.

(** *** The graph of a window *)

Lemma elem_of_where_from (i : nat) (row : list bool) (j : nat) :
  j ∈ where_from i row ↔ ∃ k, j = i + k ∧ row !! k = Some true.
Proof.
  revert i. induction row as [|b row IH]; intros i; cbn [where_from].
  - split; [intros H; by apply elem_of_nil in H|]. by intros (k & _ & Hk).
  - destruct b.
    + rewrite elem_of_cons, IH. split.
      * intros [->|(k & -> & Hk)]; [exists 0|exists (S k)]; (split; [lia|done]).
      * intros (k & -> & Hk). destruct k as [|k]; [left; lia|].
        right. exists k. split; [lia|done].
    + rewrite IH. split.
      * intros (k & -> & Hk). exists (S k). split; [lia|done].
      * intros (k & -> & Hk). destruct k as [|k]; [done|].
        exists k. split; [lia|done].
Qed.

Lemma elem_of_where_true (row : list bool) (j : nat) :
  j ∈ where_true row ↔ row !! j = Some true.
Proof.
  unfold where_true. rewrite elem_of_where_from. split.
  - by intros (k & -> & Hk).
  - intros Hj. by exists j.
Qed.

(** The graph that is handed to [tarjan] has an edge from electrode [i] to
    electrode [j] exactly when both have a peak in the window ([keep]) and
    they are near each other; an electrode without a peak in the window
    has no edge at all. *)
Theorem graph_at_edges (near_adj_matr : list (list bool)) (keep : list bool)
    (i j : nat) (succs : list nat) :
  graph_at near_adj_matr keep !! i = Some succs →
  j ∈ succs ↔ keep !! i = Some true ∧ keep !! j = Some true
              ∧ Adjacency.entry near_adj_matr i j = Some true.
Proof.
  unfold graph_at, clear_cols, clear_rows. rewrite !list_lookup_fmap. intros H.
  destruct (zip_with _ keep near_adj_matr !! i) as [row'|] eqn:Hrow; [|done].
  simpl in H. injection H as <-.
  apply lookup_zip_with_Some in Hrow as (b & row & -> & Hb & Hrow).
  rewrite elem_of_where_true, lookup_zip_with_Some. unfold Adjacency.entry.
  rewrite Hrow. cbn [mbind option_bind]. split.
  - intros (kb & v & Heq & Hkb & Hv). symmetry in Heq.
    apply andb_true_iff in Heq as [-> ->]. destruct b; [done|].
    rewrite list_lookup_fmap in Hv. by destruct (row !! j).
  - intros (Hi & Hj & Hr). rewrite Hb in Hi. injection Hi as ->. by exists true, true.
Qed.

(** *** The frequencies of the clusters *)

Lemma fold_opt_inv {A B} (f : A → B → option A) (P : A → Prop) (l : list B) (a a' : A) :
  P a → (∀ a x a', P a → f a x = Some a' → P a') →
  Np.fold_opt f a l = Some a' → P a'.
Proof.
  intros Ha Hstep. revert a Ha. induction l as [|x l IH]; intros a Ha Hrun; simpl in Hrun.
  - by injection Hrun as <-.
  - destruct (f a x) as [a1|] eqn:Hx; [|done]. simpl in Hrun.
    apply (IH a1); [by eapply Hstep|done].
Qed.

(** Every entry lists, per cluster, the frequency of each electrode of the
    cluster in the window of the key, and the mean of these. *)
Definition described (peaks : list (list bool)) (d : gmap Qc cluster_entry) : Prop :=
  ∀ k e, d !! k = Some e →
    elec_freqs e = (λ c : list nat, elec_freq peaks (window_bin k) <$> c) <$> elecs e
    ∧ mean_freqs e = mean_of_means <$> elec_freqs e.

Lemma append_cluster_described peaks centers pf d c d' :
  described peaks d → append_cluster peaks centers pf d c = Some d' → described peaks d'.
Proof.
  unfold append_cluster. intros Hd Hd'.
  destruct (centers !! pf) as [center|]; [|done]. simpl in Hd'.
  destruct (d !! center) as [e|] eqn:He; [|done]. simpl in Hd'.
  injection Hd' as <-. intros k e' Hk.
  destruct (decide (k = center)) as [->|Hne].
  - rewrite lookup_insert_eq in Hk. injection Hk as <-. cbn [elecs mean_freqs elec_freqs].
    destruct (Hd center e He) as [Hf Hm]. by rewrite !fmap_app, <- Hf, <- Hm.
  - rewrite lookup_insert_ne in Hk by done. by apply Hd.
Qed.

Lemma cluster_step_described peaks near_adj_matr centers binned d pf d' :
  described peaks d →
  cluster_step peaks near_adj_matr centers binned d pf = Some d' → described peaks d'.
Proof.
  unfold cluster_step. intros Hd Hd'.
  destruct (binned !! pf) as [keep|]; [|done]. simpl in Hd'.
  eapply (fold_opt_inv _ (described peaks)); [exact Hd| |exact Hd'].
  intros a x a' Ha. by apply append_cluster_described.
Qed.

(** When the extraction returns a mapping, the entry of every key holds,
    per cluster and in the order of the clusters, the frequency of every
    electrode of the cluster (the mean of the frequencies of the window of
    the key at which the electrode has a peak, among the peaks of the
    allowed electrodes) and the mean of these frequencies. *)
Theorem find_clusters_from_peaks_frequencies
    (peaks near_adj_matr : list (list bool)) (allowed_elecs : list bool)
    (m : gmap Qc cluster_entry) (k : Qc) (e : cluster_entry) :
  find_clusters_from_peaks peaks near_adj_matr allowed_elecs = Some m →
  m !! k = Some e →
  elec_freqs e
  = (λ c : list nat,
       elec_freq (allowed_peaks peaks allowed_elecs) (window_bin k) <$> c) <$> elecs e
  ∧ mean_freqs e = mean_of_means <$> elec_freqs e.
Proof.
  unfold find_clusters_from_peaks. intros Hm Hk.
  destruct window_centers as [centers|]; [|done]. simpl in Hm.
  case_guard; [|done]. simpl in Hm.
  destruct (Np.fold_opt _ _ _) as [d|] eqn:Hd; [|done]. simpl in Hm.
  injection Hm as <-. apply map_lookup_filter_Some in Hk as [Hk _].
  revert k e Hk.
  change (described (allowed_peaks peaks allowed_elecs) d).
  eapply (fold_opt_inv _ (described (allowed_peaks peaks allowed_elecs)));
    [| |exact Hd].
  - intros k e Hk. rewrite lookup_initial_clusters in Hk.
    case_decide; [|done]. by injection Hk as <-.
  - intros a x a' Ha. by apply cluster_step_described.
Qed.

(** *** The frequency of an electrode lies in the window *)

Lemma Q2Qc_succ (n : nat) :
  Q2Qc (inject_Z (Z.of_nat (S n))) = (Q2Qc (inject_Z (Z.of_nat n)) + 1)%Qc.
Proof.
  apply Qc_is_canon. unfold Qcplus, Q2Qc. cbn [this].
  rewrite !Qred_correct, Nat2Z.inj_succ, <- Z.add_1_r, inject_Z_plus. reflexivity.
Qed.

Lemma Q2Qc_length_pos {A} (a : list A) :
  a ≠ [] → (Q2Qc 0 < Q2Qc (inject_Z (Z.of_nat (length a))))%Qc.
Proof.
  intros Hne. unfold Qclt, Q2Qc. cbn [this]. rewrite !Qred_correct.
  change 0%Q with (inject_Z 0). rewrite <- Zlt_Qlt. destruct a; [done|]. simpl. lia.
Qed.

Lemma sum_bounds (a : list Qc) (lo hi : Qc) :
  Forall (λ v, lo ≤ v ∧ v ≤ hi)%Qc a →
  (lo * Q2Qc (inject_Z (Z.of_nat (length a))) ≤ foldr Qcplus 0 a
   ∧ foldr Qcplus 0 a ≤ hi * Q2Qc (inject_Z (Z.of_nat (length a))))%Qc.
Proof.
  induction 1 as [|v a [Hlo Hhi] _ [IHlo IHhi]].
  - cbn [length foldr]. change (Q2Qc (inject_Z (Z.of_nat 0))) with 0%Qc. split.
    + replace (lo * 0)%Qc with 0%Qc by ring. apply Qcle_refl.
    + replace (hi * 0)%Qc with 0%Qc by ring. apply Qcle_refl.
  - cbn [length foldr]. rewrite Q2Qc_succ. split.
    + replace (lo * (Q2Qc (inject_Z (Z.of_nat (length a))) + 1))%Qc
        with (lo + lo * Q2Qc (inject_Z (Z.of_nat (length a))))%Qc by ring.
      by apply Qcplus_le_compat.
    + replace (hi * (Q2Qc (inject_Z (Z.of_nat (length a))) + 1))%Qc
        with (hi + hi * Q2Qc (inject_Z (Z.of_nat (length a))))%Qc by ring.
      by apply Qcplus_le_compat.
Qed.

Lemma mean_opt_bounds (a : list Qc) (lo hi f : Qc) :
  Forall (λ v, lo ≤ v ∧ v ≤ hi)%Qc a → mean_opt a = Some f → (lo ≤ f ∧ f ≤ hi)%Qc.
Proof.
  intros Ha Hf. destruct (decide (a = [])) as [->|Hne]; [done|].
  assert (f = foldr Qcplus 0 a / Q2Qc (inject_Z (Z.of_nat (length a))))%Qc as ->
    by (destruct a; [done|by injection Hf]).
  pose proof (Q2Qc_length_pos a Hne) as Hn.
  destruct (sum_bounds a lo hi Ha) as [Hlo Hhi].
  set (n := Q2Qc (inject_Z (Z.of_nat (length a)))) in *.
  assert (Hn0 : n ≠ Q2Qc 0).
  { intros Hz. rewrite Hz in Hn. by apply Qclt_not_eq in Hn. }
  assert (Hs : (foldr Qcplus 0 a / n * n = foldr Qcplus 0 a)%Qc) by (field; exact Hn0).
  split; apply (Qcmult_lt_0_le_reg_r _ _ n Hn); by rewrite Hs.
Qed.

(** A frequency that [elec_freq] computes for the window of centre [x]
    lies between [x - cluster_freq_range / 2] and [x + cluster_freq_range / 2]. *)
Theorem elec_freq_in_window (peaks : list (list bool)) (x : Qc) (elec : nat) (f : Qc) :
  elec_freq peaks (window_bin x) elec = Some f →
  (x - cluster_freq_range self / Q2Qc 2 ≤ f
   ∧ f ≤ x + cluster_freq_range self / Q2Qc 2)%Qc.
Proof.
  unfold elec_freq. apply mean_opt_bounds. apply Forall_forall. intros v Hv.
  apply Np.elem_of_getitem_mask in Hv. unfold window_bin in Hv.
  rewrite Np.getitem_mask_fmap in Hv. apply list_elem_of_filter in Hv as [Hv _].
  apply andb_true_iff in Hv as [Hlo Hhi].
  by apply bool_decide_eq_true in Hlo, Hhi.
Qed.

End Extraction.

(** *** Example: four electrodes in two pairs *)

(** Electrodes 0 and 1 are near each other, and so are 2 and 3; only 0 and
    1 have a peak, at 3 Hz. *)
Definition pairs_settings : settings :=
  {| freqs := [Q2Qc 2; Q2Qc 3; Q2Qc 4]; cluster_freq_range := Q2Qc 2; min_num_elecs := 2 |}.

Definition pairs_near : list (list bool) :=
  [[false; true; false; false]; [true; false; false; false];
   [false; false; false; true]; [false; false; true; false]].

Definition pairs_peaks : list (list bool) :=
  [replicate 4 false; [true; true; false; false]; replicate 4 false].

(** The components of the graph of the example, and one peak position. *)
Definition pairs_components (graph : list (list nat)) : list (list nat) := [[1; 0]; [2]; [3]].
Definition middle_window (counts : list nat) : list nat := [1].

Example pairs_graph :
  graph_at pairs_near [true; true; false; false] = [[1]; [0]; []; []].
Proof. reflexivity. Qed.

Example pairs_clusters :
  elecs <$> (find_clusters_from_peaks pairs_components middle_window pairs_settings
               pairs_peaks pairs_near (replicate 4 true) ≫= (.!! Q2Qc 3))
  = Some [[1; 0]].
Proof. by vm_compute. Qed.

Lemma find_clusters_from_peaks_keeps_large_clusters_witness :
  ∃ m, find_clusters_from_peaks pairs_components middle_window pairs_settings
         pairs_peaks pairs_near (replicate 4 true) = Some m
     ∧ ∀ k e, m !! k = Some e →
         elecs e ≠ [] ∧ Forall (enough pairs_settings) (elecs e).
Proof.
  destruct (find_clusters_from_peaks pairs_components middle_window pairs_settings
              pairs_peaks pairs_near (replicate 4 true)) as [m|] eqn:Hm;
    [|by vm_compute in Hm].
  exists m. split; [done|].
  destruct (find_clusters_from_peaks_keeps_large_clusters pairs_components
              middle_window pairs_settings pairs_peaks pairs_near (replicate 4 true)
              m Hm) as (centers & _ & Hsizes & _).
  exact Hsizes.
Defined.

Lemma graph_at_edges_witness :
  1 ∈ [1] ↔ [true; true; false; false] !! 0 = Some true
            ∧ [true; true; false; false] !! 1 = Some true
            ∧ Adjacency.entry pairs_near 0 1 = Some true.
Proof.
  apply (graph_at_edges pairs_near [true; true; false; false] 0 1 [1]). reflexivity.
Defined.

Lemma find_clusters_from_peaks_frequencies_witness :
  ∃ m e,
    find_clusters_from_peaks pairs_components middle_window pairs_settings
      pairs_peaks pairs_near (replicate 4 true) = Some m
    ∧ m !! Q2Qc 3 = Some e
    ∧ elec_freqs e
      = (λ c : list nat,
           elec_freq pairs_settings (allowed_peaks pairs_peaks (replicate 4 true))
             (window_bin pairs_settings (Q2Qc 3)) <$> c) <$> elecs e
    ∧ mean_freqs e = mean_of_means <$> elec_freqs e.
Proof.
  pose proof pairs_clusters as Hex.
  destruct (find_clusters_from_peaks pairs_components middle_window pairs_settings
              pairs_peaks pairs_near (replicate 4 true)) as [m|] eqn:Hm; [|done].
  cbn [mbind option_bind] in Hex.
  destruct (m !! Q2Qc 3) as [e|] eqn:He; [|done].
  exists m, e. split; [done|]. split; [done|].
  exact (find_clusters_from_peaks_frequencies pairs_components middle_window
           pairs_settings pairs_peaks pairs_near (replicate 4 true) m (Q2Qc 3) e Hm He).
Defined.

Lemma elec_freq_in_window_witness :
  ∃ f, elec_freq pairs_settings pairs_peaks (window_bin pairs_settings (Q2Qc 3)) 0 = Some f
    ∧ (Q2Qc 3 - cluster_freq_range pairs_settings / Q2Qc 2 ≤ f
       ∧ f ≤ Q2Qc 3 + cluster_freq_range pairs_settings / Q2Qc 2)%Qc.
Proof.
  destruct (elec_freq pairs_settings pairs_peaks (window_bin pairs_settings (Q2Qc 3)) 0)
    as [f|] eqn:Hf; [|by vm_compute in Hf].
  exists f. split; [done|].
  exact (elec_freq_in_window pairs_settings pairs_peaks (Q2Qc 3) 0 f Hf).
Defined.

End Cluster.

(** ** Arrays that are updated in place *)

Module Arrays.

Import NpQ.
Local Open Scope nat_scope.

(** The exceptions that the modelled operations raise. *)
Inductive error := IndexError | ValueError | NameError | AttributeError.

Definition result (A : Type) : Type := error + A.

#[global] Instance result_ret : MRet result := λ A a, inr a.
#[global] Instance result_bind : MBind result :=
  λ A B f m, match m with inl e => inl e | inr a => f a end.

(** *** Indexing of array values *)

(** [m[mask]]: a new array with the selected rows. *)
Definition getitem_rows (m : matrix) (mask : list bool) : result matrix :=
  if decide (length mask = length m) then inr (Np.getitem_mask m mask)
  else inl IndexError.

(** The rows of [m] at the true positions of [mask] replaced, in order, by
    the rows of [v]. *)
Fixpoint put_rows (m : matrix) (mask : list bool) (v : matrix) : matrix :=
  match m, mask with
  | row :: m', b :: mask' =>
      if b then
        match v with
        | r :: v' => r :: put_rows m' mask' v'
        | [] => row :: put_rows m' mask' []
        end
      else row :: put_rows m' mask' v
  | _, _ => m
  end.

Definition count_true (mask : list bool) : nat := length (filter (λ b, b = true) mask).

(** The right-hand side of an assignment to [k] selected places: as many
    values, or one value that is repeated. *)
Definition broadcast {A} (k : nat) (v : list A) : result (list A) :=
  if decide (length v = k) then inr v
  else match v with
       | [x] => inr (replicate k x)
       | _ => inl ValueError
       end.

(** [m[mask] = v]. The rows of [v] are taken to have as many columns as
    those of [m]. *)
Definition setitem_rows (m : matrix) (mask : list bool) (v : matrix) : result matrix :=
  if decide (length mask = length m) then
    v' ← broadcast (count_true mask) v; mret (put_rows m mask v')
  else inl IndexError.

(** [m[mask, j] = v] and [m[mask, j]] *)
Fixpoint put_col (m : matrix) (mask : list bool) (j : nat) (v : list Q) : matrix :=
  match m, mask with
  | row :: m', b :: mask' =>
      if b then
        match v with
        | x :: v' => <[j := x]> row :: put_col m' mask' j v'
        | [] => row :: put_col m' mask' j []
        end
      else row :: put_col m' mask' j v
  | _, _ => m
  end.

Definition setitem_rows_col (m : matrix) (mask : list bool) (j : nat) (v : list Q)
    : result matrix :=
  if decide (length mask = length m ∧ Forall (λ row, j < length row) m) then
    v' ← broadcast (count_true mask) v; mret (put_col m mask j v')
  else inl IndexError.

Definition getitem_rows_col (m : matrix) (mask : list bool) (j : nat) : result (list Q) :=
  if decide (length mask = length m ∧ Forall (λ row, j < length row) m) then
    inr (column j (Np.getitem_mask m mask))
  else inl IndexError.

(** [m[i, j] = x] *)
Definition setitem_cell (m : matrix) (i j : nat) (x : Q) : result matrix :=
  match m !! i with
  | Some row =>
      if decide (j < length row) then inr (<[i := <[j := x]> row]> m)
      else inl IndexError
  | None => inl IndexError
  end.

(** *** The store *)

(** An array object is a cell of the store; a variable that names an array
    holds the position of its cell. *)
Abbreviation heap := (list matrix) (only parsing).

(** A computation that reads and updates the store and may raise; the
    store at the moment of the exception is kept. *)
Definition M (A : Type) : Type := heap → result A * heap.

#[global] Instance M_ret : MRet M := λ A a h, (inr a, h).
#[global] Instance M_bind : MBind M :=
  λ A B f m h, match m h with (inl e, h') => (inl e, h') | (inr a, h') => f a h' end.

Definition lift {A} (r : result A) : M A := λ h, (r, h).
Definition alloc (m : matrix) : M nat := λ h, (inr (length h), h ++ [m]).
Definition load (r : nat) : M matrix :=
  λ h, (match h !! r with Some m => inr m | None => inl NameError end, h).
Definition store (r : nat) (m : matrix) : M unit :=
  λ h, if decide (r < length h) then (inr (), <[r := m]> h) else (inl NameError, h).

(** [for x in l: body(x)] *)
Fixpoint for_each {B} (l : list B) (body : B → M unit) : M unit :=
  match l with
  | [] => mret ()
  | x :: l' => body x;; for_each l' body
  end.

(** A loop that updates local variables [a]. *)
Fixpoint fold_m {A B} (f : A → B → M A) (a : A) (l : list B) : M A :=
  match l with
  | [] => mret a
  | x :: l' => a' ← f a x; fold_m f a' l'
  end.

(** [enumerate(l)] *)
Definition enumerate {B} (l : list B) : list (nat * B) := zip (seq 0 (length l)) l.

(** Operations on array objects. Indexing with a mask makes a new array;
    an assignment to an index updates the object in place. *)
Definition getitem_rows_at (r : nat) (mask : list bool) : M matrix :=
  m ← load r; lift (getitem_rows m mask).

Definition update_at (r : nat) (g : matrix → result matrix) : M unit :=
  m ← load r; m' ← lift (g m); store r m'.

Definition setitem_rows_at (r : nat) (mask : list bool) (v : matrix) : M unit :=
  update_at r (λ m, setitem_rows m mask v).

Definition setitem_rows_col_at (r : nat) (mask : list bool) (j : nat) (v : list Q) : M unit :=
  update_at r (λ m, setitem_rows_col m mask j v).

Definition setitem_cell_at (r : nat) (i j : nat) (x : Q) : M unit :=
  update_at r (λ m, setitem_cell m i j x).

(** [np.empty(shape=(rows, cols))]; the content of such an array is
    arbitrary, here every entry is [fill]. *)
Definition np_empty (fill : Q) (rows cols : nat) : M nat :=
  alloc (replicate rows (replicate cols fill)).

(** [np.empty(shape=a.shape)] *)
Definition np_empty_like (fill : Q) (r : nat) : M nat :=
  m ← load r; np_empty fill (length m) (ncols m).

(** *** Reasoning about computations *)

(** [wp c Φ Ψ h]: started in [h], the computation [c] ends with a value and
    a store that satisfy [Φ], or raises in a store that satisfies [Ψ]. *)
Definition wp {A} (c : M A) (Φ : A → heap → Prop) (Ψ : heap → Prop) (h : heap) : Prop :=
  match c h with
  | (inr a, h') => Φ a h'
  | (inl _, h') => Ψ h'
  end.

Lemma wp_ret {A} (a : A) Φ Ψ h : Φ a h → wp (mret a) Φ Ψ h.
Proof. done. Qed.

Lemma wp_bind {A B} (c : M A) (k : A → M B) Φ Ψ h :
  wp c (λ a h', wp (k a) Φ Ψ h') Ψ h → wp (c ≫= k) Φ Ψ h.
Proof.
  unfold wp, mbind, M_bind. destruct (c h) as [[e|a] h']; done.
Qed.

Lemma wp_mono {A} (c : M A) (Φ Φ' : A → heap → Prop) (Ψ Ψ' : heap → Prop) h :
  wp c Φ Ψ h → (∀ a h', Φ a h' → Φ' a h') → (∀ h', Ψ h' → Ψ' h') → wp c Φ' Ψ' h.
Proof.
  unfold wp. destruct (c h) as [[e|a] h']; eauto.
Qed.

Lemma wp_lift {A} (r : result A) Φ Ψ h :
  match r with inr a => Φ a h | inl _ => Ψ h end → wp (lift r) Φ Ψ h.
Proof. unfold wp, lift. by destruct r. Qed.

Lemma wp_alloc (m : matrix) Φ Ψ h : Φ (length h) (h ++ [m]) → wp (alloc m) Φ Ψ h.
Proof. done. Qed.

Lemma wp_load (r : nat) Φ Ψ h :
  match h !! r with Some m => Φ m h | None => Ψ h end → wp (load r) Φ Ψ h.
Proof. unfold wp, load. by destruct (h !! r). Qed.

Lemma wp_store (r : nat) (m : matrix) Φ Ψ h :
  (r < length h → Φ () (<[r := m]> h)) → (length h ≤ r → Ψ h) → wp (store r m) Φ Ψ h.
Proof. unfold wp, store. intros H1 H2. case_decide; [by apply H1|apply H2; lia]. Qed.

(** A loop keeps what every turn keeps. *)
Lemma wp_for_each {B} (l : list B) (body : B → M unit) (I Ψ : heap → Prop) h :
  I h → (∀ x h', x ∈ l → I h' → wp (body x) (λ _, I) Ψ h') →
  wp (for_each l body) (λ _, I) Ψ h.
Proof.
  revert h. induction l as [|x l IH]; intros h Hh Hbody; simpl.
  - by apply wp_ret.
  - apply wp_bind. eapply wp_mono; [apply Hbody; [apply list_elem_of_here|done]| |done].
    intros [] h' Hh'. simpl in *. apply IH; [done|].
    intros y h'' Hy. apply Hbody. by apply list_elem_of_further.
Qed.

(** *** What the operations do to the store *)

Lemma bind_run {A B} (c : M A) (k : A → M B) (h : heap) :
  (c ≫= k) h = match c h with (inl e, h') => (inl e, h') | (inr a, h') => k a h' end.
Proof. done. Qed.

Lemma bind_inr {A B} (c : M A) (k : A → M B) (h h' : heap) (b : B) :
  (c ≫= k) h = (inr b, h') → ∃ a h1, c h = (inr a, h1) ∧ k a h1 = (inr b, h').
Proof. rewrite bind_run. destruct (c h) as [[e|a] h1]; [done|]. eauto. Qed.

Lemma getitem_rows_at_run (r : nat) (mask : list bool) (h : heap) :
  getitem_rows_at r mask h
  = (match h !! r with Some m => getitem_rows m mask | None => inl NameError end, h).
Proof.
  unfold getitem_rows_at. rewrite bind_run. unfold load, lift.
  by destruct (h !! r) as [m|]; [destruct (getitem_rows m mask)|].
Qed.

Lemma update_at_run (r : nat) (g : matrix → result matrix) (h : heap) :
  update_at r g h
  = match h !! r with
    | Some m => match g m with
                | inr m' => (inr (), <[r := m']> h)
                | inl e => (inl e, h)
                end
    | None => (inl NameError, h)
    end.
Proof.
  unfold update_at. rewrite bind_run. unfold load.
  destruct (h !! r) as [m|] eqn:Hr; [|done]. rewrite bind_run. unfold lift.
  destruct (g m) as [e|m']; [done|]. unfold store.
  rewrite decide_True; [done|]. by eapply lookup_lt_Some.
Qed.

Lemma np_empty_like_run (fill : Q) (r : nat) (h : heap) :
  np_empty_like fill r h
  = match h !! r with
    | Some m => (inr (length h), h ++ [replicate (length m) (replicate (ncols m) fill)])
    | None => (inl NameError, h)
    end.
Proof.
  unfold np_empty_like. rewrite bind_run. unfold load. by destruct (h !! r).
Qed.

(** A loop that ends without an exception, read turn by turn. *)
Lemma for_each_inr {B} (body : B → M unit) (I : list B → heap → Prop)
    (l : list B) (h h' : heap) :
  for_each l body h = (inr (), h') →
  I [] h →
  (∀ past x h1 h2, I past h1 → body x h1 = (inr (), h2) → I (past ++ [x]) h2) →
  I l h'.
Proof.
  intros Hrun H0 Hstep.
  enough (Hgen : ∀ past rest h1, for_each rest body h1 = (inr (), h') →
            I past h1 → I (past ++ rest) h') by exact (Hgen [] l h Hrun H0).
  intros past rest. revert past. induction rest as [|x rest IH]; intros past h1 Hr Hp.
  - simpl in Hr. injection Hr as <-. by rewrite app_nil_r.
  - simpl in Hr. apply bind_inr in Hr as ([] & h2 & Hx & Hr).
    rewrite (assoc_L (++) past [x] rest : past ++ x :: rest = (past ++ [x]) ++ rest).
    apply (IH _ h2 Hr). by eapply Hstep.
Qed.

Lemma fold_m_inr {A B} (f : A → B → M A) (I : list B → A → heap → Prop)
    (l : list B) (a a' : A) (h h' : heap) :
  fold_m f a l h = (inr a', h') →
  I [] a h →
  (∀ past x a1 a2 h1 h2, I past a1 h1 → f a1 x h1 = (inr a2, h2) → I (past ++ [x]) a2 h2) →
  I l a' h'.
Proof.
  intros Hrun H0 Hstep.
  enough (Hgen : ∀ past rest a1 h1, fold_m f a1 rest h1 = (inr a', h') →
            I past a1 h1 → I (past ++ rest) a' h') by exact (Hgen [] l a h Hrun H0).
  intros past rest. revert past. induction rest as [|x rest IH]; intros past a1 h1 Hr Hp.
  - simpl in Hr. injection Hr as <- <-. by rewrite app_nil_r.
  - simpl in Hr. apply bind_inr in Hr as (a2 & h2 & Hx & Hr).
    rewrite (assoc_L (++) past [x] rest : past ++ x :: rest = (past ++ [x]) ++ rest).
    apply (IH _ a2 h2 Hr). by eapply Hstep.
Qed.

Lemma lift_inr {A} (r : result A) (a : A) (h h' : heap) :
  lift r h = (inr a, h') → r = inr a ∧ h' = h.
Proof. unfold lift. by intros [= -> ->]. Qed.

Lemma load_inr (r : nat) (m : matrix) (h h' : heap) :
  load r h = (inr m, h') → h !! r = Some m ∧ h' = h.
Proof. unfold load. destruct (h !! r); by intros [= -> ->]. Qed.

Lemma ret_inr {A} (a a' : A) (h h' : heap) :
  (mret a : M A) h = (inr a', h') → a' = a ∧ h' = h.
Proof. by intros [= -> ->]. Qed.

(** A loop over [enumerate(l)] that ends without an exception, read turn
    by turn. *)
Lemma for_each_enumerate_inr {B} (body : nat * B → M unit) (I : nat → heap → Prop)
    (l : list B) (h h' : heap) :
  for_each (enumerate l) body h = (inr (), h') →
  I 0 h →
  (∀ n x h1 h2, l !! n = Some x → I n h1 → body (n, x) h1 = (inr (), h2) → I (S n) h2) →
  I (length l) h'.
Proof.
  unfold enumerate.
  enough (Hgen : ∀ k h, for_each (zip (seq k (length l)) l) body h = (inr (), h') →
            I k h →
            (∀ n x h1 h2, l !! n = Some x → I (k + n) h1 →
               body (k + n, x) h1 = (inr (), h2) → I (S (k + n)) h2) →
            I (k + length l) h').
  { intros Hrun H0 Hstep. apply (Hgen 0 h Hrun H0). intros n x. apply Hstep. }
  induction l as [|x l IH]; intros k h0 Hrun H0 Hstep.
  - simpl in Hrun. injection Hrun as <-. by rewrite Nat.add_0_r.
  - simpl in Hrun. apply bind_inr in Hrun as ([] & h1 & Hx & Hrun).
    replace (k + length (x :: l)) with (S k + length l) by (simpl; lia).
    apply (IH (S k) h1 Hrun).
    + specialize (Hstep 0 x h0 h1 eq_refl). rewrite Nat.add_0_r in Hstep. by apply Hstep.
    + intros n y h2 h3 Hy. specialize (Hstep (S n) y h2 h3 Hy).
      by replace (k + S n) with (S k + n) in Hstep by lia.
Qed.

Lemma fold_m_enumerate_inr {A B} (g : A → nat * B → M A) (I : nat → A → heap → Prop)
    (l : list B) (a a' : A) (h h' : heap) :
  fold_m g a (enumerate l) h = (inr a', h') →
  I 0 a h →
  (∀ n x a1 a2 h1 h2, l !! n = Some x → I n a1 h1 →
     g a1 (n, x) h1 = (inr a2, h2) → I (S n) a2 h2) →
  I (length l) a' h'.
Proof.
  unfold enumerate.
  enough (Hgen : ∀ k a0 h, fold_m g a0 (zip (seq k (length l)) l) h = (inr a', h') →
            I k a0 h →
            (∀ n x a1 a2 h1 h2, l !! n = Some x → I (k + n) a1 h1 →
               g a1 (k + n, x) h1 = (inr a2, h2) → I (S (k + n)) a2 h2) →
            I (k + length l) a' h').
  { intros Hrun H0 Hstep. apply (Hgen 0 a h Hrun H0). intros n x. apply Hstep. }
  induction l as [|x l IH]; intros k a0 h0 Hrun H0 Hstep.
  - simpl in Hrun. injection Hrun as <- <-. by rewrite Nat.add_0_r.
  - simpl in Hrun. apply bind_inr in Hrun as (a1 & h1 & Hx & Hrun).
    replace (k + length (x :: l)) with (S k + length l) by (simpl; lia).
    apply (IH (S k) a1 h1 Hrun).
    + specialize (Hstep 0 x a0 a1 h0 h1 eq_refl). rewrite Nat.add_0_r in Hstep.
      by apply Hstep.
    + intros n y b1 b2 h2 h3 Hy. specialize (Hstep (S n) y b1 b2 h2 h3 Hy).
      by replace (k + S n) with (S k + n) in Hstep by lia.
Qed.

(** Entry [(i, j)] of an array, and what an assignment to one entry does. *)
Definition cell (m : matrix) (i j : nat) : option Q := m !! i ≫= λ row, row !! j.

Lemma setitem_cell_inr (m m' : matrix) (i j : nat) (x : Q) :
  setitem_cell m i j x = inr m' →
  cell m' i j = Some x
  ∧ (∀ i' j', (i', j') ≠ (i, j) → cell m' i' j' = cell m i' j')
  ∧ length m' = length m
  ∧ ∀ n, rectangular m n → rectangular m' n.
Proof.
  unfold setitem_cell. destruct (m !! i) as [row|] eqn:Hrow; [|done].
  case_decide as Hj; [|done]. intros [= <-].
  pose proof (lookup_lt_Some _ _ _ Hrow) as Hi. split; [|split; [|split]].
  - unfold cell. rewrite list_lookup_insert_eq by done. simpl.
    by rewrite list_lookup_insert_eq.
  - intros i' j' Hne. unfold cell. destruct (decide (i' = i)) as [->|Hi'].
    + rewrite list_lookup_insert_eq, Hrow by done. simpl.
      rewrite list_lookup_insert_ne; [done|]. congruence.
    + by rewrite list_lookup_insert_ne.
  - by rewrite length_insert.
  - intros n Hr. unfold rectangular in *. apply Forall_insert; [done|].
    rewrite length_insert. by eapply Forall_lookup_1 in Hr.
Qed.

Lemma result_bind_inr {A B} (a : A) (k : A → result B) : (inr a ≫= k) = k a.
Proof. done. Qed.

Lemma alloc_inr (m : matrix) (r : nat) (h h' : heap) :
  alloc m h = (inr r, h') → r = length h ∧ h' = h ++ [m].
Proof. by intros [= <- <-]. Qed.

Lemma np_empty_like_inr (fill : Q) (r r' : nat) (m : matrix) (h h' : heap) :
  h !! r = Some m → np_empty_like fill r h = (inr r', h') →
  r' = length h ∧ h' = h ++ [replicate (length m) (replicate (ncols m) fill)].
Proof. intros Hr. rewrite np_empty_like_run, Hr. by intros [= <- <-]. Qed.

Lemma lookup_snoc_lt {A} (l : list A) (x : A) (r : nat) :
  r < length l → (l ++ [x]) !! r = l !! r.
Proof. intros. by rewrite lookup_app_l. Qed.

Lemma lookup_snoc_eq {A} (l : list A) (x : A) (r : nat) :
  r = length l → (l ++ [x]) !! r = Some x.
Proof. intros ->. by apply list_lookup_middle. Qed.

(** *** Cells that a computation leaves alone *)

Section Keeps.

Variable f : nat.
Variable X : matrix.

Definition holds (h : heap) : Prop := h !! f = Some X.

Lemma keeps_bind {A B} (c : M A) (k : A → M B) (Φ' : A → heap → Prop) Φ h :
  wp c Φ' holds h → (∀ a h', Φ' a h' → wp (k a) Φ holds h') → wp (c ≫= k) Φ holds h.
Proof.
  intros Hc Hk. apply wp_bind. eapply wp_mono; [exact Hc| |done]. exact Hk.
Qed.

Lemma keeps_getitem_rows_at (r : nat) (mask : list bool) h :
  holds h → wp (getitem_rows_at r mask) (λ _, holds) holds h.
Proof.
  intros Hh. unfold wp. rewrite getitem_rows_at_run.
  by destruct (h !! r) as [m|]; [destruct (getitem_rows m mask)|].
Qed.

Lemma keeps_load (r : nat) h : holds h → wp (load r) (λ _, holds) holds h.
Proof. intros Hh. apply wp_load. by destruct (h !! r). Qed.

Lemma keeps_lift {A} (r : result A) h : holds h → wp (lift r) (λ _, holds) holds h.
Proof. intros Hh. apply wp_lift. by destruct r. Qed.

(** A new array is never the cell [f]. *)
Lemma keeps_alloc (m : matrix) h :
  holds h → wp (alloc m) (λ r h', holds h' ∧ r ≠ f) holds h.
Proof.
  intros Hh. apply wp_alloc. pose proof (lookup_lt_Some _ _ _ Hh) as Hlt.
  split; [|lia]. unfold holds in *. cbv beta. by rewrite lookup_app_l.
Qed.

Lemma keeps_np_empty_like (fill : Q) (r : nat) h :
  holds h → wp (np_empty_like fill r) (λ r' h', holds h' ∧ r' ≠ f) holds h.
Proof.
  intros Hh. unfold wp. rewrite np_empty_like_run. destruct (h !! r); [|done].
  by apply (keeps_alloc _ h).
Qed.

(** An update of another array leaves the cell [f] alone. *)
Lemma keeps_update_at (r : nat) (g : matrix → result matrix) h :
  r ≠ f → holds h → wp (update_at r g) (λ _, holds) holds h.
Proof.
  intros Hr Hh. unfold wp. rewrite update_at_run.
  destruct (h !! r) as [m|]; [|done]. destruct (g m); [done|].
  unfold holds. by rewrite list_lookup_insert_ne.
Qed.

Lemma keeps_for_each {B} (l : list B) (body : B → M unit) h :
  holds h → (∀ x h', holds h' → wp (body x) (λ _, holds) holds h') →
  wp (for_each l body) (λ _, holds) holds h.
Proof. intros Hh Hbody. apply wp_for_each; [done|]. intros x h' _. apply Hbody. Qed.

Lemma keeps_fold_m {A B} (g : A → B → M A) (a : A) (l : list B) h :
  holds h → (∀ a x h', holds h' → wp (g a x) (λ _, holds) holds h') →
  wp (fold_m g a l) (λ _, holds) holds h.
Proof.
  intros Hh Hg. revert a h Hh. induction l as [|x l IH]; intros a h Hh; simpl.
  - by apply wp_ret.
  - eapply keeps_bind; [by apply Hg|]. intros a' h' Hh'. by apply IH.
Qed.

(** What [wp] with [holds] says about a run. *)
Lemma keeps_run {A} (c : M A) h :
  wp c (λ _, holds) holds h → (c h).2 !! f = Some X.
Proof. unfold wp. by destruct (c h) as [[e|a] h']. Qed.

End Keeps.

End Arrays.

(** ** The classifier *)

Module Classifier.

Import NpQ Arrays.
Local Open Scope nat_scope.

(** [ClassifyTH.default_C = [7.2e-4]] *)
Definition default_C : list Q := [9 # 12500]%Q.

(** The attributes of a [ClassifyTH] object that [compute_classifier] reads. *)
Record ClassifyTH := {
  train_phase : list string;
  test_phase : list string;
  do_rand : bool;
  feat_type : string;
  C : list Q;
  norm : string;
  scale_enc : option Q
}.

(** The entries of [subj_res] that [compute_classifier] fills before the
    forward model; the terciles are left out. *)
Record subj_res {model : Type} := {
  auc : Q;
  lr_classifier : model;
  probs : list Q;
  classes : list bool;
  res_sessions : list Z;
  res_cv_sel : list Z;
  res_task_phase : list string;
  cv_type : string
}.
Arguments subj_res : clear implicits.

(** The attributes of a [SubjectClassifier] that [classify] reads besides
    those of the planner; [data] is the array [self.subject_data.data]. *)
Record SubjectClassifier := {
  base : CrossVal.SubjectClassifier;
  sc_C : list Q;
  sc_norm : string;
  sc_scale_enc : option Q;
  sc_feat_type : string;
  data : nat
}.

(** What [classify] leaves behind: a printed message when it returns
    early, else the value of its local variable [auc], if bound. *)
Definition classify_outcome : Type := string + option Q.

Section Externals.

(** [scipy.stats.mstats.zscore(a, axis=0)] and [zmap(scores, compare, axis=0)] *)
Variable zscore : matrix → matrix.
Variable zmap : matrix → matrix → matrix.

(** [sklearn.metrics.roc_auc_score(y_true, y_score)] *)
Variable roc_auc_score : list bool → list Q → Q.

(** [LogisticRegression(C=c, penalty=norm, solver='liblinear')
      .fit(x, y, sample_weight=w)] and [.predict_proba(x)[:, 1]] *)
Variable lr_model : Type.
Variable lr_fit : Q → string → matrix → list bool → option (list Q) → lr_model.
Variable predict_proba : lr_model → matrix → list Q.

(** [np.random.rand(rows, cols)] and the content of [np.empty] arrays *)
Variable np_random_rand : nat → nat → matrix.
Variable uninitialised : Q.

(** *** [ClassifyTH.compute_classifier] *)

(** The loops that normalise the training and the test rows of one fold. *)
Definition th_normalize_train (train_phase : list string)
    (task_phase_train : list string) (feats_train x_train : nat) : M unit :=
  for_each train_phase (λ phase,
    let mask := Np.str_eq_mask task_phase_train phase in
    sel ← getitem_rows_at feats_train mask;
    setitem_rows_at x_train mask (zscore sel)).

Definition th_normalize_test (train_phase test_phase : list string)
    (task_phase_train task_phase_test : list string)
    (feats_train feats_test x_test : nat) : M unit :=
  for_each test_phase (λ phase,
    let mask_train := Np.str_eq_mask task_phase_train phase in
    let mask_test := Np.str_eq_mask task_phase_test phase in
    if bool_decide (phase ∈ train_phase) then
      te ← getitem_rows_at feats_test mask_test;
      tr ← getitem_rows_at feats_train mask_train;
      setitem_rows_at x_test mask_train (zmap te tr)
    else
      te ← getitem_rows_at feats_test mask_test;
      setitem_rows_at x_test mask_train (zscore te)).

(** The body of the loop over the folds. *)
Definition th_fold (self : ClassifyTH) (recalls : list bool) (cv_sel : list Z)
    (task_phase : list string) (feat_mat fold_aucs probs : nat) (loso : bool)
    (c_num : nat) (c : Q) (cv_num : nat) (cv : Z) : M unit :=
  let train_phase' := CrossVal.th_phases (train_phase self) in
  let test_phase' := CrossVal.th_phases (test_phase self) in
  let mask_train := CrossVal.th_mask_train (train_phase self) cv_sel task_phase cv in
  ft ← getitem_rows_at feat_mat mask_train;
  feats_train ← alloc ft;
  let task_phase_train := Np.getitem_mask task_phase mask_train in
  let rec_train := Np.getitem_mask recalls mask_train in
  let mask_test := CrossVal.th_mask_test (test_phase self) cv_sel task_phase cv in
  let task_phase_test := Np.getitem_mask task_phase mask_test in
  fte ← getitem_rows_at feat_mat mask_test;
  feats_test ← alloc fte;
  x_train ← np_empty_like uninitialised feats_train;
  th_normalize_train train_phase' task_phase_train feats_train x_train;;
  x_test ← np_empty_like uninitialised feats_test;
  th_normalize_test train_phase' test_phase' task_phase_train task_phase_test
                    feats_train feats_test x_test;;
  let weights :=
    Weights.weights (train_phase self) (scale_enc self) rec_train task_phase_train in
  xtr ← load x_train;
  xte ← load x_test;
  let test_probs := predict_proba (lr_fit c (norm self) xtr rec_train (Some weights)) xte in
  setitem_rows_col_at probs mask_test c_num test_probs;;
  if loso then
    setitem_cell_at fold_aucs cv_num c_num
      (roc_auc_score (Np.getitem_mask recalls mask_test) test_probs)
  else mret ().

(** The normalisation by session, in place on [feat_mat]. The phases are
    visited in the order of their first occurrence. *)
Definition th_normalize_sessions (self : ClassifyTH) (sessions : list Z)
    (task_phase : list string) (feat_mat : nat) : M unit :=
  if bool_decide (feat_type self = "power"%string) then
    for_each (Np.unique sessions) (λ sess,
      for_each (remove_dups (CrossVal.th_phases (train_phase self)
                             ++ CrossVal.th_phases (test_phase self))) (λ phase,
        let mask := Np.and_mask (Np.eq_mask sessions sess)
                                (Np.str_eq_mask task_phase phase) in
        sel ← getitem_rows_at feat_mat mask;
        setitem_rows_at feat_mat mask (zscore sel)))
  else mret ().

(** [loso] and [Cs] *)
Definition is_loso (sessions : list Z) : bool :=
  negb (bool_decide (length (Np.unique sessions) = 1)).

Definition candidates (C : list Q) (sessions : list Z) : list Q :=
  if is_loso sessions then C else default_C.

(** The body of the loop over the candidate values; the local variables
    [auc] and [aucs] are threaded through. *)
Definition th_candidate (self : ClassifyTH) (recalls : list bool)
    (sessions cv_sel : list Z) (task_phase : list string)
    (feat_mat fold_aucs probs : nat)
    (locals : option Q * list Q) (cc : nat * Q) : M (option Q * list Q) :=
  let loso := is_loso sessions in
  for_each (enumerate (Np.unique cv_sel)) (λ cvv,
    th_fold self recalls cv_sel task_phase feat_mat fold_aucs probs loso
            cc.1 cc.2 cvv.1 cvv.2);;
  if loso then
    T ← load fold_aucs;
    mret (Some (Selection.loso_auc T), Selection.aucs T)
  else
    P ← load probs;
    let test_bool := Np.isin (CrossVal.th_phases (test_phase self)) task_phase in
    col ← lift (getitem_rows_col P test_bool cc.1);
    mret (Some (roc_auc_score (Np.getitem_mask recalls test_bool) col), locals.2).

(** [compute_classifier], up to the entry [cv_type] of its result. *)
Definition compute_classifier (self : ClassifyTH) (recalls : list bool)
    (sessions cv_sel : list Z) (feat_mat : nat) (task_phase : list string)
    : M (subj_res lr_model) :=
  let test_bool := Np.isin (CrossVal.th_phases (test_phase self)) task_phase in
  feat_mat ← (if do_rand self
              then m ← load feat_mat; alloc (np_random_rand (length m) (ncols m))
              else mret feat_mat);
  th_normalize_sessions self sessions task_phase feat_mat;;
  fold_aucs ← np_empty uninitialised (length (Np.unique cv_sel)) (length (C self));
  probs ← np_empty uninitialised (length recalls) (length (C self));
  locals ← fold_m (th_candidate self recalls sessions cv_sel task_phase
                                feat_mat fold_aucs probs)
                  (None, replicate (length (C self)) 0%Q)
                  (enumerate (candidates (C self) sessions));
  auc ← lift (from_option inr (inl NameError) locals.1);
  best ← lift (if decide (locals.2 = []) then inl ValueError else inr (argmax locals.2));
  c_best ← lift (from_option inr (inl IndexError) (C self !! best));
  X ← load feat_mat;
  P ← load probs;
  p ← lift (getitem_rows_col P test_bool best);
  mret {| auc := auc;
          lr_classifier := lr_fit c_best (norm self) X recalls None;
          probs := p;
          classes := Np.getitem_mask recalls test_bool;
          res_sessions := sessions;
          res_cv_sel := cv_sel;
          res_task_phase := task_phase;
          cv_type := if bool_decide (1 < length (Np.unique sessions))
                     then "loso"%string else "lolo"%string |}.

(** *** [SubjectClassifier.classify] *)

(** [self.recall_filter_func(self.task, events, self.rec_thresh)], a
    function of [ram_data_helpers] *)
Variable recall_filter_func : string → list CrossVal.event → list bool.

(** The loops that normalise the training and the test rows of one fold;
    both work on the arrays [x_train] and [x_test] themselves. *)
Definition sc_normalize_train (train_phase : list string)
    (task_train : list string) (x_train : nat) : M unit :=
  for_each train_phase (λ phase,
    let mask := Np.str_eq_mask task_train phase in
    sel ← getitem_rows_at x_train mask;
    setitem_rows_at x_train mask (zscore sel)).

Definition sc_normalize_test (train_phase test_phase : list string)
    (task_train task_test : list string) (x_train x_test : nat) : M unit :=
  for_each test_phase (λ phase,
    let mask_train := Np.str_eq_mask task_train phase in
    let mask_test := Np.str_eq_mask task_test phase in
    if bool_decide (phase ∈ train_phase) then
      te ← getitem_rows_at x_test mask_test;
      tr ← getitem_rows_at x_train mask_train;
      setitem_rows_at x_test mask_test (zmap te tr)
    else
      te ← getitem_rows_at x_test mask_test;
      setitem_rows_at x_test mask_test (zscore te)).

(** The body of the loop over the folds. *)
Definition sc_fold (self : SubjectClassifier) (Y : list bool)
    (X fold_aucs probs : nat) (loso : bool)
    (c_num : nat) (c : Q) (cv_num : nat) (f : CrossVal.fold) : M unit :=
  xtr0 ← getitem_rows_at X (CrossVal.train_bool f);
  x_train ← alloc xtr0;
  let task_train := CrossVal.fold_train_phase f in
  let y_train := Np.getitem_mask Y (CrossVal.train_bool f) in
  xte0 ← getitem_rows_at X (CrossVal.test_bool f);
  x_test ← alloc xte0;
  let task_test := CrossVal.fold_test_phase f in
  let y_test := Np.getitem_mask Y (CrossVal.test_bool f) in
  sc_normalize_train (CrossVal.train_phase (base self)) task_train x_train;;
  sc_normalize_test (CrossVal.train_phase (base self)) (CrossVal.test_phase (base self))
                    task_train task_test x_train x_test;;
  let weights :=
    Weights.weights (CrossVal.train_phase (base self)) (sc_scale_enc self)
                    y_train task_train in
  xtr ← load x_train;
  xte ← load x_test;
  let test_probs := predict_proba (lr_fit c (sc_norm self) xtr y_train (Some weights)) xte in
  setitem_rows_col_at probs (CrossVal.test_bool f) c_num test_probs;;
  if loso then setitem_cell_at fold_aucs cv_num c_num (roc_auc_score y_test test_probs)
  else mret ().

(** [_normalize_power], in place on [X]. *)
Definition sc_normalize_power (self : SubjectClassifier) (sessions : list Z)
    (X : nat) : M unit :=
  for_each (Np.unique sessions) (λ sess,
    for_each (remove_dups (CrossVal.train_phase (base self)
                           ++ CrossVal.test_phase (base self))) (λ phase,
      let task_mask :=
        match CrossVal.task_phase (base self) with
        | Some tp => Np.str_eq_mask tp phase
        | None => replicate (length sessions) false
        end in
      let mask := Np.and_mask (Np.eq_mask sessions sess) task_mask in
      sel ← getitem_rows_at X mask;
      setitem_rows_at X mask (zscore sel))).

(** The body of the loop over the candidate values; the local variable
    [auc] is threaded through. *)
Definition sc_candidate (self : SubjectClassifier) (Y : list bool)
    (sessions : list Z) (X fold_aucs probs : nat)
    (auc : option Q) (cc : nat * Q) : M (option Q) :=
  let loso := is_loso sessions in
  let folds := map_to_list (CrossVal.cross_val_dict (base self)) in
  for_each (enumerate folds) (λ cvv,
    sc_fold self Y X fold_aucs probs loso cc.1 cc.2 cvv.1 cvv.2.2);;
  if loso then
    T ← load fold_aucs;
    mret (Some (Selection.loso_auc T))
  else
    let test_bool :=
      Np.any_axis0 (length Y) ((λ kf, CrossVal.test_bool kf.2) <$> folds) in
    P ← load probs;
    col ← lift (getitem_rows_col P test_bool 0);
    mret (Some (roc_auc_score (Np.getitem_mask Y test_bool) col)).

Definition msg_no_labels : string :=
  "Cross validation labels must be computed before running classifier. Use .make_cross_val_labels()".
Definition msg_multiple_C : string :=
  "Multiple C values cannot be tested for a subject with only one session of data.".

(** [classify]. The method returns nothing; the model returns the message
    it printed before an early return, or the last value of [auc]. *)
Definition classify (self : SubjectClassifier) : M classify_outcome :=
  if decide (CrossVal.cross_val_dict (base self) = ∅) then mret (inl msg_no_labels)
  else
    evs ← lift (from_option inr (inl AttributeError) (CrossVal.subject_data (base self)));
    let sessions := CrossVal.ev_session <$> evs in
    if bool_decide (length (Np.unique sessions) = 1) && bool_decide (1 < length (sc_C self))
    then mret (inl msg_multiple_C)
    else
      let Y := recall_filter_func (CrossVal.task (base self)) evs in
      let X := data self in
      (if bool_decide (sc_feat_type self = "power"%string)
       then sc_normalize_power self sessions X else mret ());;
      let Cs := candidates (sc_C self) sessions in
      fold_aucs ← np_empty uninitialised
                    (length (map_to_list (CrossVal.cross_val_dict (base self))))
                    (length (sc_C self));
      probs ← np_empty uninitialised (length Y) (length Cs);
      auc ← fold_m (sc_candidate self Y sessions X fold_aucs probs) None (enumerate Cs);
      mret (inr auc).

(** *** The values that a fold of [compute_classifier] computes *)

(** The content of [x_train] and of [x_test] after the two loops, as a
    function of the training and test rows of the fold. *)
Fixpoint th_norm_train_rows (train_phase : list string) (task_phase_train : list string)
    (ft x : matrix) : result matrix :=
  match train_phase with
  | [] => inr x
  | phase :: rest =>
      let mask := Np.str_eq_mask task_phase_train phase in
      sel ← getitem_rows ft mask;
      x' ← setitem_rows x mask (zscore sel);
      th_norm_train_rows rest task_phase_train ft x'
  end.

Definition th_test_rows (train_phase : list string)
    (task_phase_train task_phase_test : list string) (ft fte : matrix)
    (phase : string) : result matrix :=
  if bool_decide (phase ∈ train_phase) then
    te ← getitem_rows fte (Np.str_eq_mask task_phase_test phase);
    tr ← getitem_rows ft (Np.str_eq_mask task_phase_train phase);
    mret (zmap te tr)
  else
    te ← getitem_rows fte (Np.str_eq_mask task_phase_test phase);
    mret (zscore te).

Fixpoint th_norm_test_rows (train_phase test_phase : list string)
    (task_phase_train task_phase_test : list string) (ft fte x : matrix)
    : result matrix :=
  match test_phase with
  | [] => inr x
  | phase :: rest =>
      v ← th_test_rows train_phase task_phase_train task_phase_test ft fte phase;
      x' ← setitem_rows x (Np.str_eq_mask task_phase_train phase) v;
      th_norm_test_rows train_phase rest task_phase_train task_phase_test ft fte x'
  end.

Definition empty_like (m : matrix) : matrix :=
  replicate (length m) (replicate (ncols m) uninitialised).

(** The probabilities that the fold that holds out [cv] predicts for its
    test events with the candidate value [c], from the feature matrix [X]. *)
Definition th_fold_probs (self : ClassifyTH) (recalls : list bool) (cv_sel : list Z)
    (task_phase : list string) (X : matrix) (c : Q) (cv : Z) : result (list Q) :=
  let train_phase' := CrossVal.th_phases (train_phase self) in
  let test_phase' := CrossVal.th_phases (test_phase self) in
  let mask_train := CrossVal.th_mask_train (train_phase self) cv_sel task_phase cv in
  let mask_test := CrossVal.th_mask_test (test_phase self) cv_sel task_phase cv in
  let task_phase_train := Np.getitem_mask task_phase mask_train in
  let task_phase_test := Np.getitem_mask task_phase mask_test in
  let rec_train := Np.getitem_mask recalls mask_train in
  ft ← getitem_rows X mask_train;
  fte ← getitem_rows X mask_test;
  xtr ← th_norm_train_rows train_phase' task_phase_train ft (empty_like ft);
  xte ← th_norm_test_rows train_phase' test_phase' task_phase_train task_phase_test
                          ft fte (empty_like fte);
  let weights :=
    Weights.weights (train_phase self) (scale_enc self) rec_train task_phase_train in
  mret (predict_proba (lr_fit c (norm self) xtr rec_train (Some weights)) xte).

(** The AUC of that fold. *)
Definition th_fold_auc (self : ClassifyTH) (recalls : list bool) (cv_sel : list Z)
    (task_phase : list string) (X : matrix) (c : Q) (cv : Z) : result Q :=
  tp ← th_fold_probs self recalls cv_sel task_phase X c cv;
  mret (roc_auc_score
          (Np.getitem_mask recalls
             (CrossVal.th_mask_test (test_phase self) cv_sel task_phase cv)) tp).

Lemma getitem_rows_at_inr (r : nat) (mask : list bool) (m sel : matrix) (h h' : heap) :
  h !! r = Some m → getitem_rows_at r mask h = (inr sel, h') →
  getitem_rows m mask = inr sel ∧ h' = h.
Proof. intros Hr. rewrite getitem_rows_at_run, Hr. by intros [= -> ->]. Qed.

Lemma update_at_inr (r : nat) (g : matrix → result matrix) (m : matrix) (h h' : heap) :
  h !! r = Some m → update_at r g h = (inr (), h') →
  ∃ m', g m = inr m' ∧ h' = <[r := m']> h.
Proof.
  intros Hr. rewrite update_at_run, Hr. destruct (g m) as [e|m']; [done|].
  intros [= <-]. eauto.
Qed.

Lemma th_normalize_train_inr (phases task_phase_train : list string) (a b : nat)
    (ft x : matrix) (h h' : heap) :
  h !! a = Some ft → h !! b = Some x → a ≠ b →
  th_normalize_train phases task_phase_train a b h = (inr (), h') →
  ∃ x', th_norm_train_rows phases task_phase_train ft x = inr x' ∧ h' = <[b := x']> h.
Proof.
  intros Ha Hb Hab. unfold th_normalize_train.
  revert x h Ha Hb. induction phases as [|phase rest IH]; intros x h Ha Hb Hrun.
  - apply ret_inr in Hrun as [_ ->]. exists x. split; [done|]. by rewrite list_insert_id.
  - cbn [for_each] in Hrun. apply bind_inr in Hrun as ([] & h1 & Hbody & Hrun).
    apply bind_inr in Hbody as (sel & h0 & Hsel & Hset).
    apply (getitem_rows_at_inr _ _ ft) in Hsel as [Hsel ->]; [|done].
    apply (update_at_inr _ _ x) in Hset as (x1 & Hx1 & ->); [|done].
    pose proof (lookup_lt_Some _ _ _ Hb) as Hlt.
    apply (IH x1) in Hrun as (x' & Hx' & ->).
    + exists x'. split; [|by rewrite list_insert_insert_eq].
      cbn [th_norm_train_rows]. rewrite Hsel. cbn. rewrite Hx1. by cbn.
    + by rewrite list_lookup_insert_ne.
    + by rewrite list_lookup_insert_eq.
Qed.

Lemma th_normalize_test_inr (train_phase phases : list string)
    (task_phase_train task_phase_test : list string) (a a2 b : nat)
    (ft fte x : matrix) (h h' : heap) :
  h !! a = Some ft → h !! a2 = Some fte → h !! b = Some x → a ≠ b → a2 ≠ b →
  th_normalize_test train_phase phases task_phase_train task_phase_test a a2 b h
  = (inr (), h') →
  ∃ x', th_norm_test_rows train_phase phases task_phase_train task_phase_test ft fte x
        = inr x' ∧ h' = <[b := x']> h.
Proof.
  intros Ha Ha2 Hb Hab Ha2b. unfold th_normalize_test.
  revert x h Ha Ha2 Hb. induction phases as [|phase rest IH]; intros x h Ha Ha2 Hb Hrun.
  - apply ret_inr in Hrun as [_ ->]. exists x. split; [done|]. by rewrite list_insert_id.
  - cbn [for_each] in Hrun. apply bind_inr in Hrun as ([] & h1 & Hbody & Hrun).
    pose proof (lookup_lt_Some _ _ _ Hb) as Hlt.
    assert (∃ v x1, th_test_rows train_phase task_phase_train task_phase_test ft fte phase
                    = inr v
                    ∧ setitem_rows x (Np.str_eq_mask task_phase_train phase) v = inr x1
                    ∧ h1 = <[b := x1]> h) as (v & x1 & Hv & Hx1 & ->).
    { unfold th_test_rows. case_bool_decide.
      - apply bind_inr in Hbody as (te & h0 & Hte & Hbody).
        apply (getitem_rows_at_inr _ _ fte) in Hte as [Hte ->]; [|done].
        apply bind_inr in Hbody as (tr & h0 & Htr & Hset).
        apply (getitem_rows_at_inr _ _ ft) in Htr as [Htr ->]; [|done].
        apply (update_at_inr _ _ x) in Hset as (x1 & Hx1 & ->); [|done].
        exists (zmap te tr), x1. rewrite Hte. cbn. rewrite Htr. by cbn.
      - apply bind_inr in Hbody as (te & h0 & Hte & Hset).
        apply (getitem_rows_at_inr _ _ fte) in Hte as [Hte ->]; [|done].
        apply (update_at_inr _ _ x) in Hset as (x1 & Hx1 & ->); [|done].
        exists (zscore te), x1. rewrite Hte. by cbn. }
    apply (IH x1) in Hrun as (x' & Hx' & ->).
    + exists x'. split; [|by rewrite list_insert_insert_eq].
      cbn [th_norm_test_rows]. rewrite Hv. cbn. rewrite Hx1. by cbn.
    + by rewrite list_lookup_insert_ne.
    + by rewrite list_lookup_insert_ne.
    + by rewrite list_lookup_insert_eq.
Qed.

(** *** The folds leave the feature matrix alone *)

Section Frame.

Variable f : nat.
Variable X : matrix.

Local Ltac keeps_read :=
  first [ apply keeps_getitem_rows_at | apply keeps_load | apply keeps_lift ]; done.

Lemma normalize_step_keeps (src dst : nat) (mask mask' : list bool)
    (g : matrix → matrix) h :
  dst ≠ f → holds f X h →
  wp (sel ← getitem_rows_at src mask; setitem_rows_at dst mask' (g sel))
     (λ _, holds f X) (holds f X) h.
Proof.
  intros Hd Hh. eapply keeps_bind; [keeps_read|].
  intros sel h' Hh'. by apply keeps_update_at.
Qed.

Lemma zmap_step_keeps (src1 src2 dst : nat) (mask1 mask2 mask' : list bool) h :
  dst ≠ f → holds f X h →
  wp (te ← getitem_rows_at src1 mask1; tr ← getitem_rows_at src2 mask2;
      setitem_rows_at dst mask' (zmap te tr))
     (λ _, holds f X) (holds f X) h.
Proof.
  intros Hd Hh. eapply keeps_bind; [keeps_read|].
  intros te h' Hh'. eapply keeps_bind; [keeps_read|].
  intros tr h'' Hh''. by apply keeps_update_at.
Qed.

Lemma th_normalize_train_keeps train_phase task_phase_train feats_train x_train h :
  x_train ≠ f → holds f X h →
  wp (th_normalize_train train_phase task_phase_train feats_train x_train)
     (λ _, holds f X) (holds f X) h.
Proof.
  intros Hx Hh. apply keeps_for_each; [done|]. intros phase h' Hh'.
  by apply normalize_step_keeps.
Qed.

Lemma th_normalize_test_keeps train_phase test_phase task_phase_train task_phase_test
    feats_train feats_test x_test h :
  x_test ≠ f → holds f X h →
  wp (th_normalize_test train_phase test_phase task_phase_train task_phase_test
        feats_train feats_test x_test)
     (λ _, holds f X) (holds f X) h.
Proof.
  intros Hx Hh. apply keeps_for_each; [done|]. intros phase h' Hh'.
  case_bool_decide; [by apply zmap_step_keeps|by apply normalize_step_keeps].
Qed.

Lemma sc_normalize_train_keeps train_phase task_train x_train h :
  x_train ≠ f → holds f X h →
  wp (sc_normalize_train train_phase task_train x_train) (λ _, holds f X) (holds f X) h.
Proof.
  intros Hx Hh. apply keeps_for_each; [done|]. intros phase h' Hh'.
  by apply normalize_step_keeps.
Qed.

Lemma sc_normalize_test_keeps train_phase test_phase task_train task_test
    x_train x_test h :
  x_test ≠ f → holds f X h →
  wp (sc_normalize_test train_phase test_phase task_train task_test x_train x_test)
     (λ _, holds f X) (holds f X) h.
Proof.
  intros Hx Hh. apply keeps_for_each; [done|]. intros phase h' Hh'.
  case_bool_decide; [by apply zmap_step_keeps|by apply normalize_step_keeps].
Qed.

(** The end of both fold bodies: the fit, and the two assignments. *)
Lemma fold_tail_keeps (x_train x_test fold_aucs probs : nat) (loso : bool)
    (k : matrix → matrix → list Q) (mask : list bool) (c_num cv_num : nat)
    (score : list Q → Q) h :
  fold_aucs ≠ f → probs ≠ f → holds f X h →
  wp (xtr ← load x_train; xte ← load x_test;
      setitem_rows_col_at probs mask c_num (k xtr xte);;
      if loso then setitem_cell_at fold_aucs cv_num c_num (score (k xtr xte))
      else mret ())
     (λ _, holds f X) (holds f X) h.
Proof.
  intros Hfa Hp Hh. eapply keeps_bind; [keeps_read|].
  intros xtr h1 Hh1. eapply keeps_bind; [keeps_read|].
  intros xte h2 Hh2. eapply keeps_bind; [by apply keeps_update_at|].
  intros [] h3 Hh3. destruct loso; [by apply keeps_update_at|by apply wp_ret].
Qed.

Lemma th_fold_keeps self recalls cv_sel task_phase feat_mat fold_aucs probs loso
    c_num c cv_num cv h :
  fold_aucs ≠ f → probs ≠ f → holds f X h →
  wp (th_fold self recalls cv_sel task_phase feat_mat fold_aucs probs loso
        c_num c cv_num cv)
     (λ _, holds f X) (holds f X) h.
Proof.
  intros Hfa Hp Hh. unfold th_fold.
  eapply keeps_bind; [keeps_read|]. intros ft h1 Hh1.
  eapply keeps_bind; [by apply keeps_alloc|]. intros feats_train h2 [Hh2 _].
  eapply keeps_bind; [keeps_read|]. intros fte h3 Hh3.
  eapply keeps_bind; [by apply keeps_alloc|]. intros feats_test h4 [Hh4 _].
  eapply keeps_bind; [by apply keeps_np_empty_like|]. intros x_train h5 [Hh5 Hxtr].
  eapply keeps_bind; [by apply th_normalize_train_keeps|]. intros [] h6 Hh6.
  eapply keeps_bind; [by apply keeps_np_empty_like|]. intros x_test h7 [Hh7 Hxte].
  eapply keeps_bind; [by apply th_normalize_test_keeps|]. intros [] h8 Hh8.
  by apply (fold_tail_keeps x_train x_test fold_aucs probs loso
              (λ xtr xte, predict_proba (lr_fit c (norm self) xtr _ _) xte)).
Qed.

Lemma sc_fold_keeps self Y Xr fold_aucs probs loso c_num c cv_num fd h :
  fold_aucs ≠ f → probs ≠ f → holds f X h →
  wp (sc_fold self Y Xr fold_aucs probs loso c_num c cv_num fd)
     (λ _, holds f X) (holds f X) h.
Proof.
  intros Hfa Hp Hh. unfold sc_fold.
  eapply keeps_bind; [keeps_read|]. intros xtr0 h1 Hh1.
  eapply keeps_bind; [by apply keeps_alloc|]. intros x_train h2 [Hh2 Hxtr].
  eapply keeps_bind; [keeps_read|]. intros xte0 h3 Hh3.
  eapply keeps_bind; [by apply keeps_alloc|]. intros x_test h4 [Hh4 Hxte].
  eapply keeps_bind; [by apply sc_normalize_train_keeps|]. intros [] h5 Hh5.
  eapply keeps_bind; [by apply sc_normalize_test_keeps|]. intros [] h6 Hh6.
  by apply (fold_tail_keeps x_train x_test fold_aucs probs loso
              (λ xtr xte, predict_proba (lr_fit c (sc_norm self) xtr _ _) xte)).
Qed.

Lemma th_candidate_keeps self recalls sessions cv_sel task_phase feat_mat
    fold_aucs probs locals cc h :
  fold_aucs ≠ f → probs ≠ f → holds f X h →
  wp (th_candidate self recalls sessions cv_sel task_phase feat_mat fold_aucs probs
        locals cc)
     (λ _, holds f X) (holds f X) h.
Proof.
  intros Hfa Hp Hh. unfold th_candidate.
  eapply keeps_bind.
  { apply keeps_for_each; [done|]. intros cvv h' Hh'. by apply th_fold_keeps. }
  intros [] h1 Hh1. destruct (is_loso sessions).
  - eapply keeps_bind; [keeps_read|]. intros T h2 Hh2. by apply wp_ret.
  - eapply keeps_bind; [keeps_read|]. intros P h2 Hh2.
    eapply keeps_bind; [keeps_read|]. intros col h3 Hh3. by apply wp_ret.
Qed.

Lemma sc_candidate_keeps self Y sessions Xr fold_aucs probs auc0 cc h :
  fold_aucs ≠ f → probs ≠ f → holds f X h →
  wp (sc_candidate self Y sessions Xr fold_aucs probs auc0 cc)
     (λ _, holds f X) (holds f X) h.
Proof.
  intros Hfa Hp Hh. unfold sc_candidate.
  eapply keeps_bind.
  { apply keeps_for_each; [done|]. intros cvv h' Hh'. by apply sc_fold_keeps. }
  intros [] h1 Hh1. destruct (is_loso sessions).
  - eapply keeps_bind; [keeps_read|]. intros T h2 Hh2. by apply wp_ret.
  - eapply keeps_bind; [keeps_read|]. intros P h2 Hh2.
    eapply keeps_bind; [keeps_read|]. intros col h3 Hh3. by apply wp_ret.
Qed.

End Frame.

(** A turn of the fold loop that ends without an exception has computed
    [th_fold_probs], stored the probabilities in [probs] and, in
    leave-one-session-out mode, the AUC in [fold_aucs]. *)
Local Ltac heap_len :=
  repeat first [rewrite length_insert | rewrite length_app]; simpl; lia.

Lemma th_fold_inr self recalls cv_sel task_phase feat fa pr loso c_num c cv_num cv
    (X P T : matrix) (h h' : heap) :
  h !! feat = Some X → h !! pr = Some P → h !! fa = Some T →
  fa ≠ feat → pr ≠ feat → fa ≠ pr →
  th_fold self recalls cv_sel task_phase feat fa pr loso c_num c cv_num cv h
  = (inr (), h') →
  ∃ tp P' T',
    th_fold_probs self recalls cv_sel task_phase X c cv = inr tp
    ∧ h' !! feat = Some X ∧ h' !! pr = Some P' ∧ h' !! fa = Some T'
    ∧ (if loso
       then setitem_cell T cv_num c_num
              (roc_auc_score
                 (Np.getitem_mask recalls
                    (CrossVal.th_mask_test (test_phase self) cv_sel task_phase cv)) tp)
            = inr T'
       else T' = T).
Proof.
  intros HX HP HT Hfa Hpr Hfp Hrun.
  pose proof (lookup_lt_Some _ _ _ HX) as LX.
  pose proof (lookup_lt_Some _ _ _ HP) as LP.
  pose proof (lookup_lt_Some _ _ _ HT) as LT.
  pose proof (keeps_run feat X _ h
                (th_fold_keeps feat X self recalls cv_sel task_phase feat fa pr loso
                   c_num c cv_num cv h Hfa Hpr HX)) as Hkeep.
  rewrite Hrun in Hkeep. simpl in Hkeep.
  unfold th_fold in Hrun.
  apply bind_inr in Hrun as (ft & h0 & Hft & Hrun).
  apply (getitem_rows_at_inr _ _ X) in Hft as [Hft ->]; [|done].
  apply bind_inr in Hrun as (feats_train & h1 & [-> ->]%alloc_inr & Hrun).
  apply bind_inr in Hrun as (fte & h0 & Hfte & Hrun).
  apply (getitem_rows_at_inr _ _ X) in Hfte as [Hfte ->];
    [|by rewrite lookup_snoc_lt].
  apply bind_inr in Hrun as (feats_test & h2 & [-> ->]%alloc_inr & Hrun).
  apply bind_inr in Hrun as (x_train & h3 & Hxtr & Hrun).
  apply (np_empty_like_inr _ _ _ ft) in Hxtr as [-> ->];
    [|rewrite lookup_snoc_lt by heap_len;
      by rewrite lookup_snoc_eq].
  apply bind_inr in Hrun as ([] & h4 & Hntr & Hrun).
  apply (th_normalize_train_inr _ _ _ _ ft (empty_like ft)) in Hntr as (xtr & Hxtr & ->).
  2: { rewrite !lookup_snoc_lt by heap_len.
       by rewrite lookup_snoc_eq. }
  2: { by rewrite lookup_snoc_eq. }
  2: { heap_len. }
  apply bind_inr in Hrun as (x_test & h5 & Hxte & Hrun).
  apply (np_empty_like_inr _ _ _ fte) in Hxte as [-> ->].
  2: { rewrite list_lookup_insert_ne by heap_len.
       rewrite lookup_snoc_lt by heap_len.
       by rewrite lookup_snoc_eq. }
  apply bind_inr in Hrun as ([] & h6 & Hnte & Hrun).
  apply (th_normalize_test_inr _ _ _ _ _ _ _ ft fte (empty_like fte)) in Hnte
    as (xte & Hxte & ->).
  2: { rewrite lookup_snoc_lt by heap_len.
       rewrite list_lookup_insert_ne by heap_len.
       rewrite !lookup_snoc_lt by heap_len.
       by rewrite lookup_snoc_eq. }
  2: { rewrite lookup_snoc_lt by heap_len.
       rewrite list_lookup_insert_ne by heap_len.
       rewrite lookup_snoc_lt by heap_len.
       by rewrite lookup_snoc_eq. }
  2: { by rewrite lookup_snoc_eq. }
  2: { heap_len. }
  2: { heap_len. }
  apply bind_inr in Hrun as (xtr' & h0 & [Hxtr' ->]%load_inr & Hrun).
  rewrite list_lookup_insert_ne in Hxtr'
    by heap_len.
  rewrite lookup_snoc_lt in Hxtr' by heap_len.
  rewrite list_lookup_insert_eq in Hxtr' by heap_len.
  injection Hxtr' as <-.
  apply bind_inr in Hrun as (xte' & h0 & [Hxte' ->]%load_inr & Hrun).
  rewrite list_lookup_insert_eq in Hxte' by heap_len.
  injection Hxte' as <-.
  set (h6 := <[_ := xte]> _) in *.
  assert (Hlow : ∀ r, r < length h → h6 !! r = h !! r).
  { intros r Hr. unfold h6.
    rewrite list_lookup_insert_ne by heap_len.
    rewrite lookup_snoc_lt by heap_len.
    rewrite list_lookup_insert_ne by heap_len.
    by rewrite !lookup_snoc_lt by heap_len. }
  apply bind_inr in Hrun as ([] & h7 & Hsetp & Hrun).
  apply (update_at_inr _ _ P) in Hsetp as (P' & HP' & ->); [|by rewrite Hlow].
  assert (Htp : th_fold_probs self recalls cv_sel task_phase X c cv
                = inr (predict_proba
                         (lr_fit c (norm self) xtr
                            (Np.getitem_mask recalls
                               (CrossVal.th_mask_train (train_phase self) cv_sel
                                  task_phase cv))
                            (Some (Weights.weights (train_phase self) (scale_enc self)
                                     (Np.getitem_mask recalls
                                        (CrossVal.th_mask_train (train_phase self)
                                           cv_sel task_phase cv))
                                     (Np.getitem_mask task_phase
                                        (CrossVal.th_mask_train (train_phase self)
                                           cv_sel task_phase cv))))) xte)).
  { unfold th_fold_probs. rewrite Hft, result_bind_inr, Hfte, result_bind_inr.
    by rewrite Hxtr, result_bind_inr, Hxte, result_bind_inr. }
  assert (Hlen6 : length h ≤ length h6).
  { unfold h6. heap_len. }
  destruct loso.
  - apply (update_at_inr _ _ T) in Hrun as (T' & HT' & ->).
    2: { rewrite list_lookup_insert_ne by done. by rewrite Hlow. }
    eexists _, P', T'. split; [exact Htp|]. split; [exact Hkeep|].
    split; [|split; [|exact HT']].
    + rewrite list_lookup_insert_ne by done.
      rewrite list_lookup_insert_eq; [done|lia].
    + rewrite list_lookup_insert_eq; [done|]. rewrite length_insert. lia.
  - apply ret_inr in Hrun as [_ ->].
    eexists _, P', T. split; [exact Htp|]. split; [exact Hkeep|].
    split; [|split; [|done]].
    + rewrite list_lookup_insert_eq; [done|lia].
    + rewrite list_lookup_insert_ne by done. by rewrite Hlow.
Qed.

(** C10: a turn of the fold loop of [compute_classifier] or of [classify],
    and so the whole loop over the candidate values, leaves the feature
    matrix as it was, whatever array objects [fold_aucs] and [probs] are,
    provided they are not the feature matrix itself; this also holds when
    the turn raises. The rows to normalise are copied out of the matrix
    and every assignment goes to a copy or to a new array. *)
Theorem folds_leave_feature_matrix_unchanged
    (th : ClassifyTH) (sc : SubjectClassifier) (recalls Y : list bool)
    (sessions cv_sel : list Z) (task_phase : list string)
    (feat_mat fold_aucs probs : nat) (X : matrix) (h : heap) :
  h !! feat_mat = Some X → fold_aucs ≠ feat_mat → probs ≠ feat_mat →
  (∀ loso c_num c cv_num cv,
     (th_fold th recalls cv_sel task_phase feat_mat fold_aucs probs loso
        c_num c cv_num cv h).2 !! feat_mat = Some X)
  ∧ (∀ loso c_num c cv_num fd,
       (sc_fold sc Y feat_mat fold_aucs probs loso c_num c cv_num fd h).2 !! feat_mat
       = Some X)
  ∧ (∀ locals Cs,
       (fold_m (th_candidate th recalls sessions cv_sel task_phase
                  feat_mat fold_aucs probs) locals Cs h).2 !! feat_mat = Some X)
  ∧ (∀ auc0 Cs,
       (fold_m (sc_candidate sc Y sessions feat_mat fold_aucs probs) auc0 Cs h).2
       !! feat_mat = Some X).
Proof.
  intros Hh Hfa Hp. repeat split; intros; apply keeps_run.
  - by apply th_fold_keeps.
  - by apply sc_fold_keeps.
  - apply keeps_fold_m; [done|]. intros. by apply th_candidate_keeps.
  - apply keeps_fold_m; [done|]. intros. by apply sc_candidate_keeps.
Qed.

(** *** The table of fold AUCs *)

(** Entry [(i, j)] of [T] is the AUC of the fold that holds out [cv] with
    the candidate value [c]. *)
Definition cell_is_auc (self : ClassifyTH) (recalls : list bool) (cv_sel : list Z)
    (task_phase : list string) (X T : matrix) (i j : nat) (c : Q) (cv : Z) : Prop :=
  ∃ a, th_fold_auc self recalls cv_sel task_phase X c cv = inr a ∧ cell T i j = Some a.

(** The loop over the folds fills one column of [fold_aucs]. *)
Lemma th_folds_inr self recalls cv_sel task_phase feat fa pr c_num c
    (X P T : matrix) (h h' : heap) :
  h !! feat = Some X → h !! pr = Some P → h !! fa = Some T →
  fa ≠ feat → pr ≠ feat → fa ≠ pr →
  for_each (enumerate (Np.unique cv_sel))
    (λ cvv, th_fold self recalls cv_sel task_phase feat fa pr true c_num c cvv.1 cvv.2) h
  = (inr (), h') →
  ∃ P' T',
    h' !! feat = Some X ∧ h' !! pr = Some P' ∧ h' !! fa = Some T'
    ∧ length T' = length T
    ∧ (∀ n, rectangular T n → rectangular T' n)
    ∧ (∀ i cv, Np.unique cv_sel !! i = Some cv →
         cell_is_auc self recalls cv_sel task_phase X T' i c_num c cv)
    ∧ (∀ i j, j ≠ c_num → cell T' i j = cell T i j).
Proof.
  intros HX HP HT Hfa Hpr Hfp Hrun.
  pose (I := λ (n : nat) (h1 : heap), ∃ P1 T1,
    h1 !! feat = Some X ∧ h1 !! pr = Some P1 ∧ h1 !! fa = Some T1
    ∧ length T1 = length T
    ∧ (∀ k, rectangular T k → rectangular T1 k)
    ∧ (∀ i cv, i < n → Np.unique cv_sel !! i = Some cv →
         cell_is_auc self recalls cv_sel task_phase X T1 i c_num c cv)
    ∧ (∀ i j, j ≠ c_num → cell T1 i j = cell T i j)).
  assert (Hend : I (length (Np.unique cv_sel)) h').
  { eapply (for_each_enumerate_inr _ I); [exact Hrun| |].
    - exists P, T. repeat split; try done. intros i cv Hi. lia.
    - clear Hrun. intros n cv h1 h2 Hn (P1 & T1 & HX1 & HP1 & HT1 & Hlen & Hrect & Hcol & Hoth) Hbody.
      simpl in Hbody.
      apply (th_fold_inr _ _ _ _ _ _ _ _ _ _ _ _ X P1 T1) in Hbody
        as (tp & P2 & T2 & Htp & HX2 & HP2 & HT2 & Hset); try done.
      apply setitem_cell_inr in Hset as (Hnew & Hold & Hlen2 & Hrect2).
      exists P2, T2. repeat split; try done.
      + congruence.
      + intros k Hk. by apply Hrect2, Hrect.
      + intros i cv' Hi Hcv'. destruct (decide (i = n)) as [->|Hne].
        * rewrite Hn in Hcv'. injection Hcv' as <-. eexists. split; [|exact Hnew].
          unfold th_fold_auc. by rewrite Htp, result_bind_inr.
        * destruct (Hcol i cv') as (a & Ha & Hcell); [lia|done|].
          exists a. split; [done|]. rewrite Hold; [done|]. congruence.
      + intros i j Hj. rewrite Hold; [by apply Hoth|]. congruence. }
  destruct Hend as (P' & T' & HX' & HP' & HT' & Hlen & Hrect & Hcol & Hoth).
  exists P', T'. repeat split; try done.
  intros i cv Hi. apply Hcol; [|done]. by eapply lookup_lt_Some.
Qed.

(** The loop over the candidate values fills the table column by column
    and leaves in [auc] the value computed from the whole table. *)
Lemma th_candidates_inr self recalls sessions cv_sel task_phase feat fa pr
    (Cs : list Q) (locals0 locals : option Q * list Q) (X P T : matrix) (h h' : heap) :
  h !! feat = Some X → h !! pr = Some P → h !! fa = Some T →
  fa ≠ feat → pr ≠ feat → fa ≠ pr →
  is_loso sessions = true →
  fold_m (th_candidate self recalls sessions cv_sel task_phase feat fa pr)
    locals0 (enumerate Cs) h = (inr locals, h') →
  ∃ T',
    h' !! feat = Some X ∧ h' !! fa = Some T'
    ∧ length T' = length T
    ∧ (∀ n, rectangular T n → rectangular T' n)
    ∧ (∀ i j cv c, Np.unique cv_sel !! i = Some cv → Cs !! j = Some c →
         cell_is_auc self recalls cv_sel task_phase X T' i j c cv)
    ∧ (Cs ≠ [] → locals = (Some (Selection.loso_auc T'), Selection.aucs T')).
Proof.
  intros HX HP HT Hfa Hpr Hfp Hloso Hrun.
  pose (J := λ (n : nat) (loc : option Q * list Q) (h1 : heap), ∃ P1 T1,
    h1 !! feat = Some X ∧ h1 !! pr = Some P1 ∧ h1 !! fa = Some T1
    ∧ length T1 = length T
    ∧ (∀ k, rectangular T k → rectangular T1 k)
    ∧ (∀ i j cv c, j < n → Np.unique cv_sel !! i = Some cv → Cs !! j = Some c →
         cell_is_auc self recalls cv_sel task_phase X T1 i j c cv)
    ∧ (0 < n → loc = (Some (Selection.loso_auc T1), Selection.aucs T1))).
  assert (Hend : J (length Cs) locals h').
  { eapply (fold_m_enumerate_inr _ J); [exact Hrun| |].
    - exists P, T. repeat split; try done; intros; lia.
    - clear Hrun. intros n c loc1 loc2 h1 h2 Hn
        (P1 & T1 & HX1 & HP1 & HT1 & Hlen & Hrect & Hcells & _) Hstep.
      unfold th_candidate in Hstep. rewrite Hloso in Hstep. cbn [fst snd] in Hstep.
      apply bind_inr in Hstep as ([] & h3 & Hfolds & Hstep).
      apply (th_folds_inr _ _ _ _ _ _ _ _ _ X P1 T1) in Hfolds
        as (P2 & T2 & HX2 & HP2 & HT2 & Hlen2 & Hrect2 & Hcol & Hoth); try done.
      apply bind_inr in Hstep as (T2' & h4 & [HT2' ->]%load_inr & Hstep).
      rewrite HT2 in HT2'. injection HT2' as <-.
      apply ret_inr in Hstep as [-> ->].
      exists P2, T2. repeat split; try done.
      + congruence.
      + intros k Hk. by apply Hrect2, Hrect.
      + intros i j cv c' Hj Hcv Hc'. destruct (decide (j = n)) as [->|Hne].
        * rewrite Hn in Hc'. injection Hc' as <-. by apply Hcol.
        * destruct (Hcells i j cv c') as (a & Ha & Hcell); [lia|done|done|].
          exists a. split; [done|]. by rewrite Hoth. }
  destruct Hend as (P' & T' & HX' & HP' & HT' & Hlen & Hrect & Hcells & Hloc).
  exists T'. repeat split; try done.
  - intros i j cv c Hcv Hc. apply Hcells; [|done|done]. by eapply lookup_lt_Some.
  - intros Hne. apply Hloc. destruct Cs; [done|]. simpl. lia.
Qed.

(** The normalisation by session keeps the number of arrays. *)
Lemma th_normalize_sessions_length self sessions task_phase feat (h h' : heap) :
  th_normalize_sessions self sessions task_phase feat h = (inr (), h') →
  length h' = length h.
Proof.
  intros Hrun.
  assert (Hwp : wp (th_normalize_sessions self sessions task_phase feat)
                  (λ _ h1, length h1 = length h) (λ _, True) h).
  { unfold th_normalize_sessions. case_bool_decide; [|by apply wp_ret].
    apply wp_for_each; [done|]. intros sess h1 _ Hh1.
    apply wp_for_each; [done|]. intros phase h2 _ Hh2.
    apply wp_bind. unfold wp at 1. rewrite getitem_rows_at_run.
    destruct (h2 !! feat) as [m|] eqn:Hm; [|done].
    destruct (getitem_rows m _) as [e|sel]; [done|].
    unfold wp, setitem_rows_at. rewrite update_at_run, Hm.
    destruct (setitem_rows m _ _); [done|]. by rewrite length_insert. }
  unfold wp in Hwp. by rewrite Hrun in Hwp.
Qed.

(** C2, as amended: in leave-one-session-out mode, when
    [compute_classifier] returns, there is a table [T] with one row per
    fold and one column per candidate value whose entry [(i, j)] is the AUC
    of fold [i] with candidate [j], and the reported AUC is the largest
    fold-mean AUC minus the bias, where the bias is the mean over the folds
    of: the largest AUC of the fold minus the AUC of the fold at the
    candidate with the largest fold-mean AUC. [X] is the feature matrix
    that the folds read. *)
Theorem compute_classifier_loso_auc (self : ClassifyTH) (recalls : list bool)
    (sessions cv_sel : list Z) (feat_mat : nat) (task_phase : list string)
    (h h' : heap) (res : subj_res lr_model) :
  is_Some (h !! feat_mat) →
  is_loso sessions = true →
  compute_classifier self recalls sessions cv_sel feat_mat task_phase h = (inr res, h') →
  ∃ X T,
    h' !! (if do_rand self then length h else feat_mat) = Some X
    ∧ length T = length (Np.unique cv_sel)
    ∧ rectangular T (length (C self))
    ∧ (∀ i j cv c, Np.unique cv_sel !! i = Some cv → C self !! j = Some c →
         ∃ a, th_fold_auc self recalls cv_sel task_phase X c cv = inr a
              ∧ cell T i j = Some a)
    ∧ Selection.bias T
      = mean (sub (max_axis1 T) (column (argmax (mean_axis0 T)) T))
    ∧ auc res = (amax (mean_axis0 T) - Selection.bias T)%Q.
Proof.
  intros [X0 HX0] Hloso Hrun. unfold compute_classifier in Hrun.
  apply bind_inr in Hrun as (fm & h1 & Hfm & Hrun).
  assert (Hfm' : fm = (if do_rand self then length h else feat_mat) ∧ fm < length h1).
  { destruct (do_rand self).
    - apply bind_inr in Hfm as (m & h0 & [_ ->]%load_inr & [-> ->]%alloc_inr).
      split; [done|]. rewrite length_app. simpl. lia.
    - apply ret_inr in Hfm as [-> ->]. split; [done|]. by eapply lookup_lt_Some. }
  destruct Hfm' as [Hfmeq Hfmlt]. rewrite <- Hfmeq. clear Hfm Hfmeq.
  apply bind_inr in Hrun as ([] & h2 & Hnorm & Hrun).
  apply th_normalize_sessions_length in Hnorm.
  destruct (lookup_lt_is_Some_2 h2 fm) as [X HX]; [lia|].
  apply bind_inr in Hrun as (fa & h3 & [-> ->]%alloc_inr & Hrun).
  apply bind_inr in Hrun as (pr & h4 & [-> ->]%alloc_inr & Hrun).
  apply bind_inr in Hrun as (locals & h5 & Hloop & Hrun).
  unfold candidates in Hloop. rewrite Hloso in Hloop.
  assert (HC : C self ≠ []).
  { intros HC. rewrite HC in Hloop. apply ret_inr in Hloop as [-> ->].
    by apply bind_inr in Hrun as (a & h6 & [Ha _]%lift_inr & _). }
  eapply (th_candidates_inr _ _ _ _ _ _ _ _ _ _ _ X) in Hloop
    as (T & HX5 & HT5 & Hlen & Hrect & Hcells & Hloc); try done.
  2: { rewrite !lookup_snoc_lt by (rewrite ?length_app; simpl; lia). exact HX. }
  2: { by rewrite lookup_snoc_eq. }
  2: { rewrite lookup_snoc_lt by (rewrite length_app; simpl; lia).
       by rewrite lookup_snoc_eq. }
  2: { lia. }
  2: { rewrite length_app. simpl. lia. }
  2: { rewrite length_app. simpl. lia. }
  rewrite (Hloc HC) in Hrun. cbn [fst snd] in Hrun.
  apply bind_inr in Hrun as (a & h6 & [Ha ->]%lift_inr & Hrun).
  injection Ha as <-.
  apply bind_inr in Hrun as (best & h6 & [_ ->]%lift_inr & Hrun).
  apply bind_inr in Hrun as (c_best & h6 & [_ ->]%lift_inr & Hrun).
  apply bind_inr in Hrun as (Xm & h6 & [_ ->]%load_inr & Hrun).
  apply bind_inr in Hrun as (Pm & h6 & [_ ->]%load_inr & Hrun).
  apply bind_inr in Hrun as (p & h6 & [_ ->]%lift_inr & Hrun).
  apply ret_inr in Hrun as [-> ->].
  exists X, T. split; [exact HX5|]. split.
  { rewrite Hlen. by rewrite length_replicate. }
  split.
  { apply Hrect. apply Forall_replicate. by rewrite length_replicate. }
  split; [exact Hcells|]. split; reflexivity.
Qed.


(** *** One session only *)

Lemma is_loso_single (sessions : list Z) :
  length (Np.unique sessions) = 1 → is_loso sessions = false.
Proof. intros Hs. unfold is_loso. by rewrite bool_decide_eq_true_2. Qed.

Lemma candidates_single (Cs : list Q) (sessions : list Z) :
  length (Np.unique sessions) = 1 → candidates Cs sessions = default_C.
Proof. intros Hs. unfold candidates. by rewrite is_loso_single. Qed.

(** With one session and more than one candidate value, [classify] prints
    a message and returns; the store is as it was. *)
Lemma classify_rejects (self : SubjectClassifier) (evs : list CrossVal.event) (h : heap) :
  CrossVal.cross_val_dict (base self) ≠ ∅ →
  CrossVal.subject_data (base self) = Some evs →
  length (Np.unique (CrossVal.ev_session <$> evs)) = 1 →
  1 < length (sc_C self) →
  classify self h = (inr (inl msg_multiple_C), h).
Proof.
  intros Hcv Hd Hs HC. unfold classify. rewrite decide_False by done.
  rewrite bind_run, Hd. simpl.
  by rewrite (bool_decide_eq_true_2 _ Hs), (bool_decide_eq_true_2 _ HC).
Qed.

(** With one session, [compute_classifier] runs with the default value,
    whatever [self.C] holds, and its AUC is the score of the pooled
    held-out probabilities. *)
Lemma compute_classifier_single_session (self : ClassifyTH) (recalls : list bool)
    (sessions cv_sel : list Z) (feat_mat : nat) (task_phase : list string)
    (h h' : heap) (res : subj_res lr_model) :
  length (Np.unique sessions) = 1 →
  compute_classifier self recalls sessions cv_sel feat_mat task_phase h = (inr res, h') →
  candidates (C self) sessions = default_C
  ∧ auc res = roc_auc_score (classes res) (probs res)
  ∧ cv_type res = "lolo"%string.
Proof.
  intros Hs Hrun. split; [by apply candidates_single|].
  unfold compute_classifier in Hrun.
  apply bind_inr in Hrun as (fm & h1 & _ & Hrun).
  apply bind_inr in Hrun as ([] & h2 & _ & Hrun).
  apply bind_inr in Hrun as (fa & h3 & _ & Hrun).
  apply bind_inr in Hrun as (pr & h4 & _ & Hrun).
  apply bind_inr in Hrun as (locals & h5 & Hloop & Hrun).
  rewrite candidates_single in Hloop by done. cbn [enumerate default_C length seq zip zip_with fold_m] in Hloop.
  apply bind_inr in Hloop as (locals' & h5' & Hcand & Hret).
  apply ret_inr in Hret as [-> ->].
  unfold th_candidate in Hcand. rewrite is_loso_single in Hcand by done.
  apply bind_inr in Hcand as ([] & h6 & _ & Hcand).
  apply bind_inr in Hcand as (P & h7 & [HP ->]%load_inr & Hcand).
  apply bind_inr in Hcand as (col & h8 & [Hcol ->]%lift_inr & Hcand).
  apply ret_inr in Hcand as [-> ->]. simpl in Hrun, Hcol.
  apply bind_inr in Hrun as (a & h9 & [Ha ->]%lift_inr & Hrun).
  injection Ha as <-.
  apply bind_inr in Hrun as (best & h10 & [Hbest ->]%lift_inr & Hrun).
  case_decide as HC; [done|]. injection Hbest as <-.
  rewrite argmax_replicate in Hrun.
  apply bind_inr in Hrun as (c_best & h11 & [_ ->]%lift_inr & Hrun).
  apply bind_inr in Hrun as (Xm & h12 & [_ ->]%load_inr & Hrun).
  apply bind_inr in Hrun as (P' & h13 & [HP' ->]%load_inr & Hrun).
  rewrite HP in HP'. injection HP' as <-.
  apply bind_inr in Hrun as (p & h14 & [Hp ->]%lift_inr & Hrun).
  rewrite Hcol in Hp. injection Hp as <-.
  apply ret_inr in Hrun as [-> _]. simpl. split; [done|].
  rewrite bool_decide_eq_false_2; [done|]. lia.
Qed.

(** With one session, a run of [classify] that is not turned away uses
    the default value, and its AUC is the score of the pooled held-out
    probabilities. *)
Lemma classify_single_session (self : SubjectClassifier) (evs : list CrossVal.event)
    (h h' : heap) (auc0 : option Q) :
  CrossVal.subject_data (base self) = Some evs →
  length (Np.unique (CrossVal.ev_session <$> evs)) = 1 →
  classify self h = (inr (inr auc0), h') →
  let Y := recall_filter_func (CrossVal.task (base self)) evs in
  let test_bool :=
    Np.any_axis0 (length Y)
      ((λ kf, CrossVal.test_bool kf.2)
       <$> map_to_list (CrossVal.cross_val_dict (base self))) in
  candidates (sc_C self) (CrossVal.ev_session <$> evs) = default_C
  ∧ length (sc_C self) ≤ 1
  ∧ ∃ r P col, h' !! r = Some P ∧ getitem_rows_col P test_bool 0 = inr col
      ∧ auc0 = Some (roc_auc_score (Np.getitem_mask Y test_bool) col).
Proof.
  intros Hd Hs Hrun Y test_bool. split; [by apply candidates_single|].
  unfold classify in Hrun. case_decide as Hcv; [by apply ret_inr in Hrun as [? _]|].
  rewrite bind_run, Hd in Hrun. cbn [lift from_option] in Hrun.
  rewrite (bool_decide_eq_true_2 _ Hs) in Hrun. cbn [andb] in Hrun.
  case_bool_decide as HC; [by apply ret_inr in Hrun as [? _]|].
  split; [lia|].
  apply bind_inr in Hrun as ([] & h1 & _ & Hrun).
  apply bind_inr in Hrun as (fa & h2 & _ & Hrun).
  apply bind_inr in Hrun as (pr & h3 & _ & Hrun).
  apply bind_inr in Hrun as (a & h4 & Hloop & Hrun).
  apply ret_inr in Hrun as [[= <-] ->].
  rewrite candidates_single in Hloop by done.
  cbn [enumerate default_C length seq zip zip_with fold_m] in Hloop.
  apply bind_inr in Hloop as (a' & h5 & Hcand & Hret).
  apply ret_inr in Hret as [-> ->].
  unfold sc_candidate in Hcand. rewrite is_loso_single in Hcand by done.
  apply bind_inr in Hcand as ([] & h6 & _ & Hcand).
  apply bind_inr in Hcand as (P & h7 & [HP ->]%load_inr & Hcand).
  apply bind_inr in Hcand as (col & h8 & [Hcol ->]%lift_inr & Hcand).
  apply ret_inr in Hcand as [-> ->]. by exists pr, P, col.
Qed.

(** C7, as amended: with one session and several candidate values,
    [classify] prints a message and returns with the store untouched,
    while [compute_classifier] is not turned away; every single-session
    run of either goes through the default value only and takes as AUC the
    score of the pooled held-out probabilities, with no bias term. *)
Theorem single_session_runs :
  (∀ (sc : SubjectClassifier) evs h,
     CrossVal.cross_val_dict (base sc) ≠ ∅ →
     CrossVal.subject_data (base sc) = Some evs →
     length (Np.unique (CrossVal.ev_session <$> evs)) = 1 →
     1 < length (sc_C sc) →
     classify sc h = (inr (inl msg_multiple_C), h))
  ∧ (∀ (sc : SubjectClassifier) evs h h' auc0,
       CrossVal.subject_data (base sc) = Some evs →
       length (Np.unique (CrossVal.ev_session <$> evs)) = 1 →
       classify sc h = (inr (inr auc0), h') →
       let Y := recall_filter_func (CrossVal.task (base sc)) evs in
       let test_bool :=
         Np.any_axis0 (length Y)
           ((λ kf, CrossVal.test_bool kf.2)
            <$> map_to_list (CrossVal.cross_val_dict (base sc))) in
       candidates (sc_C sc) (CrossVal.ev_session <$> evs) = default_C
       ∧ length (sc_C sc) ≤ 1
       ∧ ∃ r P col, h' !! r = Some P ∧ getitem_rows_col P test_bool 0 = inr col
           ∧ auc0 = Some (roc_auc_score (Np.getitem_mask Y test_bool) col))
  ∧ (∀ (th : ClassifyTH) recalls sessions cv_sel feat_mat task_phase h h' res,
       length (Np.unique sessions) = 1 →
       compute_classifier th recalls sessions cv_sel feat_mat task_phase h
       = (inr res, h') →
       candidates (C th) sessions = default_C
       ∧ auc res = roc_auc_score (classes res) (probs res)
       ∧ cv_type res = "lolo"%string).
Proof.
  split; [|split].
  - apply classify_rejects.
  - apply classify_single_session.
  - apply compute_classifier_single_session.
Qed.

(** *** Random features *)

Lemma th_normalize_sessions_keeps (f : nat) (X : matrix) self sessions task_phase fm h :
  fm ≠ f → holds f X h →
  wp (th_normalize_sessions self sessions task_phase fm) (λ _, holds f X) (holds f X) h.
Proof.
  intros Hfm Hh. unfold th_normalize_sessions. case_bool_decide; [|by apply wp_ret].
  apply keeps_for_each; [done|]. intros sess h1 Hh1.
  apply keeps_for_each; [done|]. intros phase h2 Hh2.
  by apply normalize_step_keeps.
Qed.

(** With [do_rand] set, [compute_classifier] works on a new array of random
    features: the array that the caller passed as [feat_mat] is left as it
    was, also when the method raises. *)
Theorem do_rand_leaves_feature_matrix (self : ClassifyTH) (recalls : list bool)
    (sessions cv_sel : list Z) (feat_mat : nat) (task_phase : list string)
    (X : matrix) (h : heap) :
  do_rand self = true → h !! feat_mat = Some X →
  (compute_classifier self recalls sessions cv_sel feat_mat task_phase h).2 !! feat_mat
  = Some X.
Proof.
  intros Hrand Hh. apply keeps_run. unfold compute_classifier. rewrite Hrand.
  eapply keeps_bind.
  { eapply keeps_bind; [by apply keeps_load|]. intros m h1 Hh1. by apply keeps_alloc. }
  intros fm h1 [Hh1 Hfm].
  eapply keeps_bind; [by apply th_normalize_sessions_keeps|]. intros [] h2 Hh2.
  eapply keeps_bind; [by apply keeps_alloc|]. intros fa h3 [Hh3 Hfa].
  eapply keeps_bind; [by apply keeps_alloc|]. intros pr h4 [Hh4 Hpr].
  eapply keeps_bind.
  { apply keeps_fold_m; [done|]. intros locals cc h5 Hh5. by apply th_candidate_keeps. }
  intros locals h5 Hh5.
  eapply keeps_bind; [by apply keeps_lift|]. intros a h6 Hh6.
  eapply keeps_bind; [by apply keeps_lift|]. intros best h7 Hh7.
  eapply keeps_bind; [by apply keeps_lift|]. intros c_best h8 Hh8.
  eapply keeps_bind; [by apply keeps_load|]. intros Xm h9 Hh9.
  eapply keeps_bind; [by apply keeps_load|]. intros Pm h10 Hh10.
  eapply keeps_bind; [by apply keeps_lift|]. intros p h11 Hh11.
  by apply wp_ret.
Qed.

(** *** An empty list of candidate values *)

(** With an empty [self.C], [compute_classifier] never returns a result:
    with several sessions no candidate is tried and [auc] is unbound; with
    one session the default value is tried, but [aucs] has no entry and
    [np.argmax] raises (if nothing raised before). *)
Theorem compute_classifier_empty_C (self : ClassifyTH) (recalls : list bool)
    (sessions cv_sel : list Z) (feat_mat : nat) (task_phase : list string) (h : heap) :
  C self = [] →
  ∃ e h', compute_classifier self recalls sessions cv_sel feat_mat task_phase h
          = (inl e, h').
Proof.
  intros HC.
  destruct (compute_classifier self recalls sessions cv_sel feat_mat task_phase h)
    as [[e|res] h'] eqn:Hrun; [by eauto|]. exfalso.
  unfold compute_classifier in Hrun.
  apply bind_inr in Hrun as (fm & h1 & _ & Hrun).
  apply bind_inr in Hrun as ([] & h2 & _ & Hrun).
  apply bind_inr in Hrun as (fa & h3 & _ & Hrun).
  apply bind_inr in Hrun as (pr & h4 & _ & Hrun).
  apply bind_inr in Hrun as (locals & h5 & Hloop & Hrun).
  rewrite HC in Hloop. unfold candidates in Hloop.
  destruct (is_loso sessions) eqn:Hloso.
  - apply ret_inr in Hloop as [-> ->].
    by apply bind_inr in Hrun as (a & h6 & [Ha _]%lift_inr & _).
  - cbn [enumerate default_C length seq zip zip_with fold_m] in Hloop.
    apply bind_inr in Hloop as (locals' & h5' & Hcand & Hret).
    apply ret_inr in Hret as [-> ->].
    unfold th_candidate in Hcand. rewrite Hloso in Hcand.
    apply bind_inr in Hcand as ([] & h6 & _ & Hcand).
    apply bind_inr in Hcand as (P & h7 & _ & Hcand).
    apply bind_inr in Hcand as (col & h8 & _ & Hcand).
    apply ret_inr in Hcand as [-> ->]. cbn [fst snd replicate length] in Hrun.
    apply bind_inr in Hrun as (a & h9 & _ & Hrun).
    by apply bind_inr in Hrun as (best & h10 & [Hbest _]%lift_inr & _).
Qed.

(** *** The result and the sizes of the folds *)

Lemma result_bind_inv {A B} (m : result A) (k : A → result B) (b : B) :
  (m ≫= k) = inr b → ∃ a, m = inr a ∧ k a = inr b.
Proof. destruct m as [e|a]; [done|]. intros Hk. by exists a. Qed.

Lemma length_getitem_mask {A} (a : list A) (mask : list bool) :
  length mask ≤ length a → length (Np.getitem_mask a mask) = count_true mask.
Proof.
  revert mask. induction a as [|x a IH]; intros [|b mask] Hlen; simpl in *; try done; try lia.
  unfold count_true. rewrite filter_cons. destruct b.
  - rewrite decide_True by done. simpl. f_equal. apply IH. lia.
  - rewrite decide_False by done. apply IH. lia.
Qed.

Lemma getitem_rows_inr (m sel : matrix) (mask : list bool) :
  getitem_rows m mask = inr sel → length mask = length m ∧ sel = Np.getitem_mask m mask.
Proof. unfold getitem_rows. case_decide; [|done]. by intros [= <-]. Qed.

(** The entries [probs] and [classes] of a result have one value per event
    of a test phase, in the same order. *)
Theorem compute_classifier_probs_aligned (self : ClassifyTH) (recalls : list bool)
    (sessions cv_sel : list Z) (feat_mat : nat) (task_phase : list string)
    (h h' : heap) (res : subj_res lr_model) :
  length recalls = length task_phase →
  compute_classifier self recalls sessions cv_sel feat_mat task_phase h = (inr res, h') →
  let test_bool := Np.isin (CrossVal.th_phases (test_phase self)) task_phase in
  classes res = Np.getitem_mask recalls test_bool
  ∧ length (classes res) = count_true test_bool
  ∧ length (probs res) = count_true test_bool.
Proof.
  intros Hlen Hrun test_bool. unfold compute_classifier in Hrun.
  apply bind_inr in Hrun as (fm & h1 & _ & Hrun).
  apply bind_inr in Hrun as ([] & h2 & _ & Hrun).
  apply bind_inr in Hrun as (fa & h3 & _ & Hrun).
  apply bind_inr in Hrun as (pr & h4 & _ & Hrun).
  apply bind_inr in Hrun as (locals & h5 & _ & Hrun).
  apply bind_inr in Hrun as (a & h6 & _ & Hrun).
  apply bind_inr in Hrun as (best & h7 & _ & Hrun).
  apply bind_inr in Hrun as (c_best & h8 & _ & Hrun).
  apply bind_inr in Hrun as (Xm & h9 & _ & Hrun).
  apply bind_inr in Hrun as (Pm & h10 & _ & Hrun).
  apply bind_inr in Hrun as (p & h11 & [Hp _]%lift_inr & Hrun).
  apply ret_inr in Hrun as [-> _]. cbn [classes probs]. fold test_bool in Hp |- *.
  assert (Htb : length test_bool = length task_phase)
    by (unfold test_bool, Np.isin; by rewrite length_fmap).
  split; [done|]. split.
  - apply length_getitem_mask. lia.
  - unfold getitem_rows_col in Hp. case_decide as Hshape; [|done]. injection Hp as <-.
    unfold column. rewrite length_fmap. apply length_getitem_mask.
    destruct Hshape as [Hshape _]. lia.
Qed.

(** A loop over the folds that ends without an exception has computed the
    probabilities of every fold. *)
Lemma th_folds_probs_inr self recalls cv_sel task_phase feat fa pr loso c_num c
    (X : matrix) (h h' : heap) :
  h !! feat = Some X → is_Some (h !! pr) → is_Some (h !! fa) →
  fa ≠ feat → pr ≠ feat → fa ≠ pr →
  for_each (enumerate (Np.unique cv_sel))
    (λ cvv, th_fold self recalls cv_sel task_phase feat fa pr loso c_num c cvv.1 cvv.2) h
  = (inr (), h') →
  ∀ cv, cv ∈ Np.unique cv_sel →
    ∃ tp, th_fold_probs self recalls cv_sel task_phase X c cv = inr tp.
Proof.
  intros HX HP HT Hfa Hpr Hfp Hrun.
  pose (I := λ (n : nat) (h1 : heap),
    h1 !! feat = Some X ∧ is_Some (h1 !! pr) ∧ is_Some (h1 !! fa)
    ∧ ∀ i cv, i < n → Np.unique cv_sel !! i = Some cv →
        ∃ tp, th_fold_probs self recalls cv_sel task_phase X c cv = inr tp).
  assert (Hend : I (length (Np.unique cv_sel)) h').
  { eapply (for_each_enumerate_inr _ I); [exact Hrun| |].
    - split; [done|]. split; [done|]. split; [done|]. intros i cv Hi. lia.
    - clear Hrun. intros n cv h1 h2 Hn (HX1 & [P1 HP1] & [T1 HT1] & Hdone) Hbody.
      simpl in Hbody.
      apply (th_fold_inr _ _ _ _ _ _ _ _ _ _ _ _ X P1 T1) in Hbody
        as (tp & P2 & T2 & Htp & HX2 & HP2 & HT2 & _); try done.
      split; [done|]. split; [by eexists|]. split; [by eexists|].
      intros i cv' Hi Hcv'. destruct (decide (i = n)) as [->|Hne].
      + rewrite Hn in Hcv'. injection Hcv' as <-. by exists tp.
      + apply (Hdone i); [lia|done]. }
  destruct Hend as (_ & _ & _ & Hall). intros cv Hcv.
  apply list_elem_of_lookup in Hcv as [i Hi].
  apply (Hall i); [by eapply lookup_lt_Some|done].
Qed.

(** A fold whose probabilities are computed has as many training events
    as test events: the rows of [x_test] are assigned through a mask over
    the training events. *)
Lemma th_fold_probs_sizes self recalls cv_sel task_phase (X : matrix) c cv tp :
  test_phase self ≠ [] →
  th_fold_probs self recalls cv_sel task_phase X c cv = inr tp →
  count_true (CrossVal.th_mask_train (train_phase self) cv_sel task_phase cv)
  = count_true (CrossVal.th_mask_test (test_phase self) cv_sel task_phase cv).
Proof.
  intros Hne Htp. unfold th_fold_probs in Htp.
  apply result_bind_inv in Htp as (ft & Hft & Htp).
  apply result_bind_inv in Htp as (fte & Hfte & Htp).
  apply result_bind_inv in Htp as (xtr & _ & Htp).
  apply result_bind_inv in Htp as (xte & Hxte & _).
  apply getitem_rows_inr in Hft as [Hlt ->]. apply getitem_rows_inr in Hfte as [Hle ->].
  destruct (test_phase self) as [|ph rest]; [done|].
  cbn [CrossVal.th_phases fmap list_fmap th_norm_test_rows] in Hxte.
  apply result_bind_inv in Hxte as (v & _ & Hxte).
  apply result_bind_inv in Hxte as (x' & Hset & _).
  unfold setitem_rows in Hset. case_decide as Hl; [|done].
  unfold Np.str_eq_mask, empty_like in Hl. rewrite length_fmap, length_replicate in Hl.
  rewrite !length_getitem_mask in Hl; [done|lia|].
  unfold CrossVal.th_mask_train, Np.and_mask, Np.isin.
  rewrite length_zip_with, !length_fmap. lia.
Qed.

(** [compute_classifier] returns a result only if every fold has as many
    training events as test events. *)
Theorem compute_classifier_needs_equal_fold_sizes (self : ClassifyTH)
    (recalls : list bool) (sessions cv_sel : list Z) (feat_mat : nat)
    (task_phase : list string) (h h' : heap) (res : subj_res lr_model) :
  is_Some (h !! feat_mat) → test_phase self ≠ [] →
  compute_classifier self recalls sessions cv_sel feat_mat task_phase h = (inr res, h') →
  ∀ cv, cv ∈ cv_sel →
    count_true (CrossVal.th_mask_train (train_phase self) cv_sel task_phase cv)
    = count_true (CrossVal.th_mask_test (test_phase self) cv_sel task_phase cv).
Proof.
  intros [X0 HX0] Hne Hrun cv Hcv. unfold compute_classifier in Hrun.
  apply bind_inr in Hrun as (fm & h1 & Hfm & Hrun).
  assert (Hfmlt : fm < length h1).
  { destruct (do_rand self).
    - apply bind_inr in Hfm as (m & h0 & [_ ->]%load_inr & [-> ->]%alloc_inr).
      rewrite length_app. simpl. lia.
    - apply ret_inr in Hfm as [-> ->]. by eapply lookup_lt_Some. }
  apply bind_inr in Hrun as ([] & h2 & Hnorm & Hrun).
  apply th_normalize_sessions_length in Hnorm.
  destruct (lookup_lt_is_Some_2 h2 fm) as [X HX]; [lia|].
  apply bind_inr in Hrun as (fa & h3 & [-> ->]%alloc_inr & Hrun).
  apply bind_inr in Hrun as (pr & h4 & [-> ->]%alloc_inr & Hrun).
  apply bind_inr in Hrun as (locals & h5 & Hloop & Hrun).
  destruct (candidates (C self) sessions) as [|c0 Cs] eqn:HCs.
  { apply ret_inr in Hloop as [-> ->].
    by apply bind_inr in Hrun as (a & h6 & [Ha _]%lift_inr & _). }
  cbn [enumerate length seq zip zip_with fold_m] in Hloop.
  apply bind_inr in Hloop as (loc1 & h6 & Hcand & _).
  unfold th_candidate in Hcand. cbn [fst snd] in Hcand.
  apply bind_inr in Hcand as ([] & h7 & Hfolds & _).
  eapply (th_folds_probs_inr _ _ _ _ _ _ _ _ _ _ X) in Hfolds as [tp Htp].
  - by eapply th_fold_probs_sizes.
  - rewrite !lookup_snoc_lt by (rewrite ?length_app; simpl; lia). exact HX.
  - rewrite lookup_snoc_eq; [by eexists|done].
  - rewrite lookup_snoc_lt by (rewrite length_app; simpl; lia).
    rewrite lookup_snoc_eq; [by eexists|done].
  - lia.
  - rewrite length_app. simpl. lia.
  - rewrite length_app. simpl. lia.
  - by apply Np.elem_of_unique.
Qed.

(** *** The classifier of the result *)

Lemma is_loso_false (sessions : list Z) :
  is_loso sessions = false ↔ length (Np.unique sessions) = 1.
Proof.
  unfold is_loso. rewrite negb_false_iff. apply bool_decide_eq_true.
Qed.

(** The classifier that is stored in the result is fit to the whole
    feature matrix (as the normalisation by session left it) and all
    labels, without observation weights, with the value [self.C[argmax(aucs)]]:
    in leave-one-session-out mode this is the candidate with the largest
    fold-mean AUC in the table [T] of fold AUCs; with one session [aucs]
    is all zero, so it is the first entry of [self.C], although the folds
    were run with the default value. *)
Theorem compute_classifier_final_fit (self : ClassifyTH) (recalls : list bool)
    (sessions cv_sel : list Z) (feat_mat : nat) (task_phase : list string)
    (h h' : heap) (res : subj_res lr_model) :
  is_Some (h !! feat_mat) →
  compute_classifier self recalls sessions cv_sel feat_mat task_phase h = (inr res, h') →
  ∃ X c,
    h' !! (if do_rand self then length h else feat_mat) = Some X
    ∧ lr_classifier res = lr_fit c (norm self) X recalls None
    ∧ (length (Np.unique sessions) = 1 → C self !! 0 = Some c)
    ∧ (is_loso sessions = true →
         ∃ T, length T = length (Np.unique cv_sel)
           ∧ rectangular T (length (C self))
           ∧ (∀ i j cv c', Np.unique cv_sel !! i = Some cv → C self !! j = Some c' →
                cell_is_auc self recalls cv_sel task_phase X T i j c' cv)
           ∧ C self !! argmax (mean_axis0 T) = Some c).
Proof.
  intros [X0 HX0] Hrun. unfold compute_classifier in Hrun.
  apply bind_inr in Hrun as (fm & h1 & Hfm & Hrun).
  assert (Hfm' : fm = (if do_rand self then length h else feat_mat) ∧ fm < length h1).
  { destruct (do_rand self).
    - apply bind_inr in Hfm as (m & h0 & [_ ->]%load_inr & [-> ->]%alloc_inr).
      split; [done|]. rewrite length_app. simpl. lia.
    - apply ret_inr in Hfm as [-> ->]. split; [done|]. by eapply lookup_lt_Some. }
  destruct Hfm' as [Hfmeq Hfmlt]. rewrite <- Hfmeq. clear Hfm Hfmeq.
  apply bind_inr in Hrun as ([] & h2 & Hnorm & Hrun).
  apply th_normalize_sessions_length in Hnorm.
  destruct (lookup_lt_is_Some_2 h2 fm) as [X HX]; [lia|].
  apply bind_inr in Hrun as (fa & h3 & [-> ->]%alloc_inr & Hrun).
  apply bind_inr in Hrun as (pr & h4 & [-> ->]%alloc_inr & Hrun).
  apply bind_inr in Hrun as (locals & h5 & Hloop & Hrun).
  destruct (is_loso sessions) eqn:Hloso.
  - unfold candidates in Hloop. rewrite Hloso in Hloop.
    assert (HC : C self ≠ []).
    { intros HC. rewrite HC in Hloop. apply ret_inr in Hloop as [-> ->].
      by apply bind_inr in Hrun as (a & h6 & [Ha _]%lift_inr & _). }
    eapply (th_candidates_inr _ _ _ _ _ _ _ _ _ _ _ X) in Hloop
      as (T & HX5 & HT5 & Hlen & Hrect & Hcells & Hloc); try done.
    2: { rewrite !lookup_snoc_lt by (rewrite ?length_app; simpl; lia). exact HX. }
    2: { by rewrite lookup_snoc_eq. }
    2: { rewrite lookup_snoc_lt by (rewrite length_app; simpl; lia).
         by rewrite lookup_snoc_eq. }
    2: { lia. }
    2: { rewrite length_app. simpl. lia. }
    2: { rewrite length_app. simpl. lia. }
    rewrite (Hloc HC) in Hrun. cbn [fst snd] in Hrun.
    apply bind_inr in Hrun as (a & h6 & [_ ->]%lift_inr & Hrun).
    apply bind_inr in Hrun as (best & h6 & [Hbest ->]%lift_inr & Hrun).
    case_decide as Hnil; [done|]. injection Hbest as <-.
    apply bind_inr in Hrun as (c_best & h6 & [Hc ->]%lift_inr & Hrun).
    apply bind_inr in Hrun as (Xm & h6 & [HXm ->]%load_inr & Hrun).
    apply bind_inr in Hrun as (Pm & h6 & [_ ->]%load_inr & Hrun).
    apply bind_inr in Hrun as (p & h6 & [_ ->]%lift_inr & Hrun).
    apply ret_inr in Hrun as [-> ->]. rewrite HX5 in HXm. injection HXm as <-.
    exists X, c_best. split; [done|]. split; [done|]. split.
    { intros Hone. apply is_loso_false in Hone. congruence. }
    intros _. exists T. split; [by rewrite Hlen, length_replicate|]. split.
    { apply Hrect. apply Forall_replicate. by rewrite length_replicate. }
    split; [exact Hcells|].
    unfold Selection.aucs in Hc.
    destruct (C self !! argmax (mean_axis0 T)); simpl in Hc; congruence.
  - apply is_loso_false in Hloso as Hone.
    rewrite candidates_single in Hloop by done.
    cbn [enumerate default_C length seq zip zip_with fold_m] in Hloop.
    apply bind_inr in Hloop as (locals' & h5' & Hcand & Hret).
    apply ret_inr in Hret as [-> ->].
    unfold th_candidate in Hcand. rewrite Hloso in Hcand.
    apply bind_inr in Hcand as ([] & h6 & _ & Hcand).
    apply bind_inr in Hcand as (P & h7 & _ & Hcand).
    apply bind_inr in Hcand as (col & h8 & _ & Hcand).
    apply ret_inr in Hcand as [-> _]. cbn [fst snd] in Hrun.
    apply bind_inr in Hrun as (a & h9 & _ & Hrun).
    apply bind_inr in Hrun as (best & h10 & [Hbest _]%lift_inr & Hrun).
    case_decide as HC; [done|]. injection Hbest as <-.
    rewrite argmax_replicate in Hrun.
    apply bind_inr in Hrun as (c_best & h11 & [Hc _]%lift_inr & Hrun).
    apply bind_inr in Hrun as (Xm & h12 & [HXm ->]%load_inr & Hrun).
    apply bind_inr in Hrun as (P' & h13 & [_ ->]%load_inr & Hrun).
    apply bind_inr in Hrun as (p & h14 & [_ ->]%lift_inr & Hrun).
    apply ret_inr in Hrun as [-> ->].
    exists Xm, c_best. split; [done|]. split; [done|]. split; [|done].
    intros _. destruct (C self !! 0); simpl in Hc; congruence.
Qed.

(** *** [classify] on the plan of [make_cross_val_labels] *)

(** Rules for the operations on arrays when the shapes fit. *)
Lemma wp_getitem_rows_at (r : nat) (mask : list bool) (m : matrix) Φ Ψ (h : heap) :
  h !! r = Some m → length mask = length m →
  Φ (Np.getitem_mask m mask) h → wp (getitem_rows_at r mask) Φ Ψ h.
Proof.
  intros Hr Hl HΦ. unfold wp. rewrite getitem_rows_at_run, Hr. unfold getitem_rows.
  by rewrite decide_True.
Qed.

Lemma wp_update_at (r : nat) (g : matrix → result matrix) (m m' : matrix) Φ Ψ (h : heap) :
  h !! r = Some m → g m = inr m' → Φ () (<[r := m']> h) → wp (update_at r g) Φ Ψ h.
Proof. intros Hr Hg HΦ. unfold wp. by rewrite update_at_run, Hr, Hg. Qed.

Lemma setitem_rows_ok (m : matrix) (mask : list bool) (v : matrix) :
  length mask = length m → length v = count_true mask →
  setitem_rows m mask v = inr (put_rows m mask v).
Proof.
  intros Hl Hv. unfold setitem_rows, broadcast. by rewrite !decide_True.
Qed.

Lemma length_put_rows (m : matrix) (mask : list bool) (v : matrix) :
  length (put_rows m mask v) = length m.
Proof.
  revert mask v. induction m as [|row m IH]; intros mask v; [by destruct mask|].
  destruct mask as [|b mask]; [done|]. simpl.
  destruct b; [destruct v|]; simpl; by rewrite IH.
Qed.

Lemma length_put_col (m : matrix) (mask : list bool) (j : nat) (v : list Q) :
  length (put_col m mask j v) = length m.
Proof.
  revert mask v. induction m as [|row m IH]; intros mask v; [by destruct mask|].
  destruct mask as [|b mask]; [done|]. simpl.
  destruct b; [destruct v|]; simpl; by rewrite IH.
Qed.

Lemma put_col_rectangular (m : matrix) (mask : list bool) (j : nat) (v : list Q) (k : nat) :
  rectangular m k → rectangular (put_col m mask j v) k.
Proof.
  unfold rectangular. intros Hm. revert mask v.
  induction Hm as [|row m Hrow Hm IH]; intros mask v; [by destruct mask|].
  destruct mask as [|b mask]; [by constructor|]. simpl.
  destruct b; [destruct v|]; constructor; try done; try apply IH.
  by rewrite length_insert.
Qed.

Lemma setitem_rows_col_ok (m : matrix) (mask : list bool) (j : nat) (v : list Q) (k : nat) :
  length mask = length m → rectangular m k → j < k → length v = count_true mask →
  setitem_rows_col m mask j v = inr (put_col m mask j v).
Proof.
  intros Hl Hr Hj Hv. unfold setitem_rows_col, broadcast.
  rewrite decide_True; [by rewrite decide_True|]. split; [done|].
  eapply Forall_impl; [exact Hr|]. simpl. intros row ->. done.
Qed.

Lemma setitem_cell_ok (m : matrix) (i j : nat) (x : Q) (k : nat) :
  i < length m → rectangular m k → j < k →
  ∃ m', setitem_cell m i j x = inr m' ∧ length m' = length m ∧ rectangular m' k.
Proof.
  intros Hi Hr Hj. destruct (lookup_lt_is_Some_2 m i Hi) as [row Hrow].
  assert (Hlen : length row = k) by by eapply Forall_lookup_1 in Hr.
  unfold setitem_cell. rewrite Hrow, decide_True by lia. eexists. split; [done|].
  split; [by rewrite length_insert|]. apply Forall_insert; [done|].
  by rewrite length_insert.
Qed.

Lemma length_any_axis0 (n : nat) (rows : list (list bool)) :
  Forall (λ row, length row = n) rows → length (Np.any_axis0 n rows) = n.
Proof.
  unfold Np.any_axis0. induction 1 as [|row rows Hrow _ IH]; simpl.
  - by rewrite length_replicate.
  - rewrite length_zip_with, IH, Hrow. lia.
Qed.

Lemma wp_fold_m {A B} (g : A → B → M A) (l : list B) (I : A → heap → Prop)
    (Ψ : heap → Prop) (a : A) (h : heap) :
  I a h → (∀ a x h', x ∈ l → I a h' → wp (g a x) I Ψ h') → wp (fold_m g a l) I Ψ h.
Proof.
  revert a h. induction l as [|x l IH]; intros a h Ha Hg; simpl.
  - by apply wp_ret.
  - apply wp_bind. eapply wp_mono; [apply Hg; [apply list_elem_of_here|done]| |done].
    intros a' h' Ha'. simpl. apply IH; [done|].
    intros a'' y h'' Hy. apply Hg. by apply list_elem_of_further.
Qed.

Lemma elem_of_enumerate {B} (l : list B) (i : nat) (x : B) :
  (i, x) ∈ enumerate l → l !! i = Some x.
Proof.
  unfold enumerate. intros Hin. apply list_elem_of_lookup in Hin as [k Hk].
  apply lookup_zip_with_Some in Hk as (i' & x' & [= -> ->] & Hi & Hx).
  apply lookup_seq in Hi as [-> _]. done.
Qed.

Section Shapes.

Hypothesis zscore_length : ∀ a, length (zscore a) = length a.
Hypothesis zmap_length : ∀ a b, length (zmap a b) = length a.
Hypothesis predict_proba_length : ∀ m x, length (predict_proba m x) = length x.
Hypothesis recall_filter_length : ∀ t e, length (recall_filter_func t e) = length e.

(** One turn of a loop that normalises rows of the array [x] in place. *)
Lemma wp_normalize_in_place (x : nat) (mask : list bool) (m : matrix) Φ Ψ (h : heap) :
  h !! x = Some m → length mask = length m →
  (∀ m', length m' = length m → Φ () (<[x := m']> h)) →
  wp (sel ← getitem_rows_at x mask; setitem_rows_at x mask (zscore sel)) Φ Ψ h.
Proof.
  intros Hx Hl HΦ. apply wp_bind, (wp_getitem_rows_at _ _ m); [done|done|].
  eapply (wp_update_at _ _ m); [done| |].
  - apply setitem_rows_ok; [done|].
    rewrite zscore_length. apply length_getitem_mask. lia.
  - apply HΦ. apply length_put_rows.
Qed.

(** A loop that normalises rows of [x] in place, whatever the masks, keeps
    the other arrays and the number of rows of [x]. *)
Lemma wp_normalize_loop {B} (l : list B) (mask_of : B → list bool) (x : nat)
    (m : matrix) Ψ (h : heap) :
  h !! x = Some m → (∀ b, b ∈ l → length (mask_of b) = length m) →
  wp (for_each l (λ b, sel ← getitem_rows_at x (mask_of b);
                       setitem_rows_at x (mask_of b) (zscore sel)))
     (λ _ h', ∃ m', h' = <[x := m']> h ∧ length m' = length m) Ψ h.
Proof.
  intros Hx Hmask.
  apply (wp_for_each _ _ (λ h', ∃ m', h' = <[x := m']> h ∧ length m' = length m)).
  - exists m. split; [by rewrite list_insert_id|done].
  - intros b h1 Hb (m1 & -> & Hm1).
    pose proof (lookup_lt_Some _ _ _ Hx) as Hlt.
    apply (wp_normalize_in_place _ _ m1).
    + by rewrite list_lookup_insert_eq.
    + rewrite Hm1. by apply Hmask.
    + intros m' Hm'. exists m'. split; [by rewrite list_insert_insert_eq|congruence].
Qed.

Lemma sc_normalize_train_ok (phases task_train : list string) (x : nat) (m : matrix)
    Ψ (h : heap) :
  h !! x = Some m → length task_train = length m →
  wp (sc_normalize_train phases task_train x)
     (λ _ h', ∃ m', h' = <[x := m']> h ∧ length m' = length m) Ψ h.
Proof.
  intros Hx Hl. apply (wp_normalize_loop phases (Np.str_eq_mask task_train) x m); [done|].
  intros phase _. unfold Np.str_eq_mask. by rewrite length_fmap.
Qed.

Lemma sc_normalize_test_ok (train_phase phases task_train task_test : list string)
    (x_train x_test : nat) (mtr mte : matrix) Ψ (h : heap) :
  h !! x_train = Some mtr → h !! x_test = Some mte → x_train ≠ x_test →
  length task_train = length mtr → length task_test = length mte →
  wp (sc_normalize_test train_phase phases task_train task_test x_train x_test)
     (λ _ h', ∃ m', h' = <[x_test := m']> h ∧ length m' = length mte) Ψ h.
Proof.
  intros Htr Hte Hne Hltr Hlte.
  pose proof (lookup_lt_Some _ _ _ Hte) as Hlt.
  apply (wp_for_each _ _ (λ h', ∃ m', h' = <[x_test := m']> h ∧ length m' = length mte)).
  - exists mte. split; [by rewrite list_insert_id|done].
  - intros phase h1 _ (m1 & -> & Hm1).
    assert (Hmask : length (Np.str_eq_mask task_test phase) = length m1)
      by (unfold Np.str_eq_mask; rewrite length_fmap; congruence).
    case_bool_decide.
    + apply wp_bind, (wp_getitem_rows_at _ _ m1);
        [by rewrite list_lookup_insert_eq|done|].
      apply wp_bind, (wp_getitem_rows_at _ _ mtr);
        [by rewrite list_lookup_insert_ne|unfold Np.str_eq_mask; by rewrite length_fmap|].
      eapply (wp_update_at _ _ m1); [by rewrite list_lookup_insert_eq| |].
      * apply setitem_rows_ok; [done|].
        rewrite zmap_length. apply length_getitem_mask. lia.
      * eexists. split; [by rewrite list_insert_insert_eq|].
        rewrite length_put_rows. done.
    + apply (wp_normalize_in_place _ _ m1); [by rewrite list_lookup_insert_eq|done|].
      intros m' Hm'. exists m'. split; [by rewrite list_insert_insert_eq|congruence].
Qed.

Lemma sc_normalize_power_ok (self : SubjectClassifier) (sessions : list Z) (X : nat)
    (m : matrix) Ψ (h : heap) :
  h !! X = Some m → length sessions = length m →
  (∀ tp, CrossVal.task_phase (base self) = Some tp → length tp = length m) →
  wp (sc_normalize_power self sessions X)
     (λ _ h', ∃ m', h' = <[X := m']> h ∧ length m' = length m) Ψ h.
Proof.
  intros HX Hs Htp. pose proof (lookup_lt_Some _ _ _ HX) as Hlt.
  apply (wp_for_each _ _ (λ h', ∃ m', h' = <[X := m']> h ∧ length m' = length m)).
  - exists m. split; [by rewrite list_insert_id|done].
  - intros sess h1 _ (m1 & -> & Hm1).
    eapply wp_mono;
      [apply (wp_normalize_loop _
                (λ phase, Np.and_mask (Np.eq_mask sessions sess)
                            match CrossVal.task_phase (base self) with
                            | Some tp => Np.str_eq_mask tp phase
                            | None => replicate (length sessions) false
                            end) X m1)| |done].
    + by rewrite list_lookup_insert_eq.
    + intros phase _. unfold Np.and_mask, Np.eq_mask.
      rewrite length_zip_with, length_fmap.
      destruct (CrossVal.task_phase (base self)) as [tp|] eqn:Htpe.
      * unfold Np.str_eq_mask. rewrite length_fmap, (Htp tp eq_refl). lia.
      * rewrite length_replicate. lia.
    + intros [] h2 (m2 & -> & Hm2). exists m2.
      split; [by rewrite list_insert_insert_eq|congruence].
Qed.

(** A fold whose masks have one entry per event and whose phase lists have
    one entry per selected event. *)
Definition fold_fits (n : nat) (f : CrossVal.fold) : Prop :=
  length (CrossVal.train_bool f) = n ∧ length (CrossVal.test_bool f) = n ∧
  length (CrossVal.fold_train_phase f) = count_true (CrossVal.train_bool f) ∧
  length (CrossVal.fold_test_phase f) = count_true (CrossVal.test_bool f).

(** The arrays [probs] ([n] by [kp]) and [fold_aucs] ([nf] by [kc]). *)
Definition tables (fold_aucs probs : nat) (n kp nf kc : nat) (h : heap) : Prop :=
  ∃ P T, h !! probs = Some P ∧ length P = n ∧ rectangular P kp ∧
         h !! fold_aucs = Some T ∧ length T = nf ∧ rectangular T kc.

Lemma sc_fold_ok (self : SubjectClassifier) (Y : list bool) (X fold_aucs probs : nat)
    (loso : bool) (c_num : nat) (c : Q) (cv_num : nat) (f : CrossVal.fold)
    (Xm : matrix) (n kp nf kc : nat) Ψ (h : heap) :
  h !! X = Some Xm → length Xm = n → tables fold_aucs probs n kp nf kc h →
  X ≠ probs → X ≠ fold_aucs → probs ≠ fold_aucs → fold_fits n f → c_num < kp →
  (loso = true → cv_num < nf ∧ c_num < kc) →
  wp (sc_fold self Y X fold_aucs probs loso c_num c cv_num f)
     (λ _ h', h' !! X = Some Xm ∧ tables fold_aucs probs n kp nf kc h') Ψ h.
Proof.
  intros HX Hn (P & T & HP & HPn & HPr & HT & HTn & HTr) HXP HXT Hne
         (Htr & Hte & Htrp & Htep) Hc Hloso.
  pose proof (lookup_lt_Some _ _ _ HX) as HXlt.
  pose proof (lookup_lt_Some _ _ _ HP) as HPlt.
  pose proof (lookup_lt_Some _ _ _ HT) as HTlt.
  unfold sc_fold.
  apply wp_bind, (wp_getitem_rows_at _ _ Xm); [done|congruence|].
  apply wp_bind, wp_alloc.
  apply wp_bind, (wp_getitem_rows_at _ _ Xm); [by rewrite lookup_app_l|congruence|].
  apply wp_bind, wp_alloc.
  set (xtr0 := Np.getitem_mask Xm (CrossVal.train_bool f)).
  set (xte0 := Np.getitem_mask Xm (CrossVal.test_bool f)).
  set (h2 := (h ++ [xtr0]) ++ [xte0]).
  assert (Hxtr : h2 !! length h = Some xtr0).
  { unfold h2. rewrite lookup_app_l by (rewrite length_app; simpl; lia).
    by apply list_lookup_middle. }
  assert (Hxte : h2 !! length (h ++ [xtr0]) = Some xte0)
    by (unfold h2; by apply list_lookup_middle).
  assert (Hold : ∀ i, i < length h → h2 !! i = h !! i).
  { intros i Hi. unfold h2. rewrite !lookup_app_l; [done|lia|rewrite length_app; lia]. }
  assert (Hh2 : length h2 = S (S (length h)))
    by (unfold h2; rewrite !length_app; simpl; lia).
  assert (Hxtr0 : length xtr0 = count_true (CrossVal.train_bool f))
    by (apply length_getitem_mask; lia).
  assert (Hxte0 : length xte0 = count_true (CrossVal.test_bool f))
    by (apply length_getitem_mask; lia).
  assert (Hxx : length h ≠ length (h ++ [xtr0])) by (rewrite length_app; simpl; lia).
  apply wp_bind. eapply wp_mono;
    [apply (sc_normalize_train_ok _ _ _ xtr0); [exact Hxtr|congruence]| |done].
  intros [] h3 (m1 & -> & Hm1). cbn beta.
  apply wp_bind. eapply wp_mono;
    [apply (sc_normalize_test_ok _ _ _ _ _ _ m1 xte0)| |done].
  - rewrite list_lookup_insert_eq; [done|lia].
  - by rewrite list_lookup_insert_ne.
  - done.
  - congruence.
  - congruence.
  - intros [] h4 (m2 & -> & Hm2). cbn beta.
    apply wp_bind, wp_load.
    rewrite list_lookup_insert_ne, list_lookup_insert_eq by (done || lia).
    apply wp_bind, wp_load.
    rewrite list_lookup_insert_eq by (rewrite length_insert; rewrite length_app; simpl; lia).
    set (test_probs := predict_proba _ m2).
    assert (HP' : <[length (h ++ [xtr0]) := m2]> (<[length h := m1]> h2) !! probs = Some P).
    { rewrite !list_lookup_insert_ne by (rewrite ?length_app; simpl; lia).
      by rewrite Hold. }
    assert (Hput : setitem_rows_col P (CrossVal.test_bool f) c_num test_probs
                   = inr (put_col P (CrossVal.test_bool f) c_num test_probs)).
    { apply (setitem_rows_col_ok _ _ _ _ kp); [congruence|done|done|].
      unfold test_probs. rewrite predict_proba_length. congruence. }
    apply wp_bind. eapply (wp_update_at _ _ P); [exact HP'|exact Hput|].
    set (h4 := <[length (h ++ [xtr0]) := m2]> (<[length h := m1]> h2)) in *.
    assert (Hold4 : ∀ i, i < length h → h4 !! i = h !! i).
    { intros i Hi. unfold h4.
      rewrite !list_lookup_insert_ne by (rewrite ?length_app; simpl; lia).
      by apply Hold. }
    assert (Hh4 : probs < length h4) by (unfold h4; rewrite !length_insert; lia).
    set (P' := put_col P (CrossVal.test_bool f) c_num test_probs).
    assert (HP'n : length P' = n) by (unfold P'; by rewrite length_put_col).
    assert (HP'r : rectangular P' kp) by by apply put_col_rectangular.
    destruct loso.
    + destruct (Hloso eq_refl) as [Hcv Hck].
      destruct (setitem_cell_ok T cv_num c_num
                  (roc_auc_score (Np.getitem_mask Y (CrossVal.test_bool f)) test_probs) kc)
        as (T' & HT' & HT'n & HT'r); [lia|done|done|].
      eapply (wp_update_at _ _ T); [|exact HT'|].
      * rewrite list_lookup_insert_ne by done. by rewrite Hold4.
      * split.
        -- rewrite !list_lookup_insert_ne by done. by rewrite Hold4.
        -- exists P', T'. split_and!; try done.
           ++ rewrite list_lookup_insert_ne by done.
              by rewrite list_lookup_insert_eq.
           ++ rewrite list_lookup_insert_eq; [done|]. rewrite length_insert.
              unfold h4. rewrite !length_insert. lia.
           ++ congruence.
    + apply wp_ret. split.
      * rewrite list_lookup_insert_ne by done. by rewrite Hold4.
      * exists P', T. split_and!; try done.
        -- by rewrite list_lookup_insert_eq.
        -- rewrite list_lookup_insert_ne by done. by rewrite Hold4.
Qed.

Lemma make_fold_fits (folds : list Z) (tp : list string) (vt ve : list bool) (k : Z)
    (n : nat) :
  length folds = n → length tp = n → length vt = n → length ve = n →
  fold_fits n (CrossVal.make_fold folds tp vt ve k).
Proof.
  intros Hf Htp Hvt Hve. unfold fold_fits, CrossVal.make_fold. cbn.
  assert (Htr : length (Np.and_mask (Np.ne_mask folds k) vt) = n)
    by (unfold Np.and_mask, Np.ne_mask; rewrite length_zip_with, length_fmap; lia).
  assert (Hte : length (Np.and_mask (Np.eq_mask folds k) ve) = n)
    by (unfold Np.and_mask, Np.eq_mask; rewrite length_zip_with, length_fmap; lia).
  split_and!; try done; apply length_getitem_mask; lia.
Qed.

Lemma sc_candidate_ok (self : SubjectClassifier) (Y : list bool) (sessions : list Z)
    (X fold_aucs probs : nat) (auc : option Q) (cc : nat * Q)
    (Xm : matrix) (kp nf kc : nat) Ψ (h : heap) :
  h !! X = Some Xm → length Xm = length Y →
  tables fold_aucs probs (length Y) kp nf kc h →
  X ≠ probs → X ≠ fold_aucs → probs ≠ fold_aucs →
  (∀ kf, kf ∈ map_to_list (CrossVal.cross_val_dict (base self)) →
         fold_fits (length Y) kf.2) →
  cc.1 < kp →
  (is_loso sessions = true →
   length (map_to_list (CrossVal.cross_val_dict (base self))) ≤ nf ∧ cc.1 < kc) →
  wp (sc_candidate self Y sessions X fold_aucs probs auc cc)
     (λ _ h', h' !! X = Some Xm ∧ tables fold_aucs probs (length Y) kp nf kc h') Ψ h.
Proof.
  intros HX Hn Ht HXP HXT Hne Hfits Hc Hloso. unfold sc_candidate.
  apply wp_bind. eapply wp_mono;
    [apply (wp_for_each _ _
              (λ h', h' !! X = Some Xm
                     ∧ tables fold_aucs probs (length Y) kp nf kc h'))| |done].
  - done.
  - intros [cv_num kf] h1 Hin [HX1 Ht1]. cbn [fst snd].
    apply elem_of_enumerate in Hin.
    apply (sc_fold_ok _ _ _ _ _ _ _ _ _ _ Xm (length Y) kp nf kc); try done.
    + apply Hfits. by eapply list_elem_of_lookup_2.
    + intros Hl. destruct (Hloso Hl) as [Hnf Hkc]. split; [|done].
      apply lookup_lt_Some in Hin. lia.
  - intros [] h1 [HX1 Ht1]. cbn beta.
    pose proof Ht1 as (P & T & HP & HPn & HPr & HT & HTn & HTr).
    destruct (is_loso sessions).
    + apply wp_bind, wp_load. rewrite HT. by apply wp_ret.
    + apply wp_bind, wp_load. rewrite HP. apply wp_bind, wp_lift.
      unfold getitem_rows_col. rewrite decide_True; [by apply wp_ret|].
      split.
      * rewrite length_any_axis0; [done|].
        apply Forall_fmap, Forall_forall. intros kf Hkf. by apply Hfits.
      * eapply Forall_impl; [exact HPr|]. cbn beta. intros row ->. lia.
Qed.

Lemma wp_returns {A} (c : M A) (Φ : A → heap → Prop) (h : heap) :
  wp c Φ (λ _, False) h → ∃ a h', c h = (inr a, h') ∧ Φ a h'.
Proof. unfold wp. destruct (c h) as [[e|a] h']; [done|eauto]. Qed.

(** Run on the plan that [make_cross_val_labels] has stored, with a feature
    array of one row per event, [classify] raises no exception: every mask
    fits the array that it indexes and every assignment fits its target.
    The feature array keeps its number of rows. *)
Theorem classify_completes_on_plan (b : CrossVal.SubjectClassifier)
    (self : SubjectClassifier) (evs : list CrossVal.event) (Xm : matrix) (h : heap) :
  CrossVal.subject_data b = Some evs →
  CrossVal.make_cross_val_labels b = inr (base self) →
  h !! data self = Some Xm → length Xm = length evs →
  ∃ out h' Xm', classify self h = (inr out, h')
                ∧ h' !! data self = Some Xm' ∧ length Xm' = length Xm.
Proof.
  intros Hd Hmk HX Hn. unfold CrossVal.make_cross_val_labels in Hmk.
  rewrite Hd in Hmk. injection Hmk as Hb.
  set (tp := CrossVal.rename_phases (CrossVal.task b) evs) in Hb.
  assert (Htpl : length tp = length evs) by apply CrossVal.length_rename_phases.
  assert (Hsd : ∃ evs', CrossVal.subject_data (base self) = Some evs'
                        ∧ length evs' = length evs).
  { rewrite <- Hb. cbn. eexists. split; [done|]. rewrite length_zip_with. lia. }
  destruct Hsd as (evs' & Hsd & Hevs').
  assert (Htp : CrossVal.task_phase (base self) = Some tp) by by rewrite <- Hb.
  assert (Hfits : ∀ kf, kf ∈ map_to_list (CrossVal.cross_val_dict (base self)) →
                        fold_fits (length evs) kf.2).
  { intros [k f] Hkf. apply elem_of_map_to_list in Hkf. rewrite <- Hb in Hkf.
    cbn in Hkf. rewrite CrossVal.lookup_make_cv_dict in Hkf.
    case_decide; [|done]. injection Hkf as <-. cbn [snd].
    apply make_fold_fits; [apply CrossVal.length_folds_of|done| |];
      unfold CrossVal.valid_train_inds, CrossVal.valid_test_inds, Np.isin;
      by rewrite length_fmap. }
  clear Hb Hd.
  pose proof (lookup_lt_Some _ _ _ HX) as HXlt.
  cut (wp (classify self)
          (λ _ h', ∃ Xm', h' !! data self = Some Xm' ∧ length Xm' = length Xm)
          (λ _, False) h).
  { intros (out & h' & Hrun & Xm' & HX' & Hl)%wp_returns. by exists out, h', Xm'. }
  unfold classify. case_decide; [apply wp_ret; eauto|].
  apply wp_bind, wp_lift. rewrite Hsd. cbn [from_option].
  set (sessions := CrossVal.ev_session <$> evs').
  destruct (bool_decide (length (Np.unique sessions) = 1)
            && bool_decide (1 < length (sc_C self))) eqn:Hearly;
    [apply wp_ret; eauto|].
  set (Y := recall_filter_func (CrossVal.task (base self)) evs').
  assert (HY : length Y = length evs) by (unfold Y; by rewrite recall_filter_length).
  apply wp_bind.
  eapply (wp_mono _ (λ _ h1, ∃ Xm1, h1 = <[data self := Xm1]> h
                                   ∧ length Xm1 = length Xm) _ (λ _, False));
    [| |done].
  { destruct (bool_decide (sc_feat_type self = "power"%string)).
    - apply (sc_normalize_power_ok _ _ _ Xm); [done| |].
      + unfold sessions. rewrite length_fmap. lia.
      + intros tp' Htp'. rewrite Htp in Htp'. injection Htp' as <-. lia.
    - apply wp_ret. exists Xm. split; [by rewrite list_insert_id|done]. }
  intros [] h1 (Xm1 & -> & HXm1). cbn beta.
  set (h1 := <[data self := Xm1]> h).
  assert (Hh1 : length h1 = length h) by (unfold h1; by rewrite length_insert).
  assert (HX1 : h1 !! data self = Some Xm1)
    by (unfold h1; by rewrite list_lookup_insert_eq).
  unfold np_empty. apply wp_bind, wp_alloc. apply wp_bind, wp_alloc.
  set (folds := map_to_list (CrossVal.cross_val_dict (base self))).
  set (Cs := candidates (sc_C self) sessions).
  set (T0 := replicate (length folds) (replicate (length (sc_C self)) uninitialised)).
  set (P0 := replicate (length Y) (replicate (length Cs) uninitialised)).
  apply wp_bind.
  eapply (wp_mono _ _ _ (λ _, False));
    [apply (wp_fold_m _ _
              (λ _ h', h' !! data self = Some Xm1
                       ∧ tables (length h1) (length (h1 ++ [T0])) (length Y)
                                (length Cs) (length folds) (length (sc_C self)) h'))
    | |done].
  - split.
    + rewrite !lookup_app_l; [done|lia|rewrite length_app; lia].
    + exists P0, T0. split_and!.
      * by apply list_lookup_middle.
      * unfold P0. by rewrite length_replicate.
      * unfold P0, rectangular. apply Forall_replicate. by rewrite length_replicate.
      * rewrite lookup_app_l by (rewrite length_app; simpl; lia).
        by apply list_lookup_middle.
      * unfold T0. by rewrite length_replicate.
      * unfold T0, rectangular. apply Forall_replicate. by rewrite length_replicate.
  - intros a [c_num c] h2 Hin [HX2 Ht2].
    apply elem_of_enumerate, lookup_lt_Some in Hin.
    apply (sc_candidate_ok _ _ _ _ _ _ _ _ Xm1 (length Cs) (length folds)
             (length (sc_C self))); try done.
    + lia.
    + rewrite length_app. simpl. lia.
    + lia.
    + rewrite length_app. simpl. lia.
    + intros kf Hkf. rewrite HY. by apply Hfits.
    + intros Hl. split; [done|]. cbn [fst]. unfold Cs, candidates in Hin.
      by rewrite Hl in Hin.
  - intros auc h2 [HX2 _]. apply wp_ret. exists Xm1. split; [done|lia].
Qed.

(** *** Normalisation by session and phase *)

(** Masks that select no common row. *)
Definition disjoint_masks (m1 m2 : list bool) : Prop :=
  Forall2 (λ a b, a && b = false) m1 m2.

Fixpoint pairwise_disjoint (masks : list (list bool)) : Prop :=
  match masks with
  | [] => True
  | mask :: masks' => Forall (disjoint_masks mask) masks' ∧ pairwise_disjoint masks'
  end.

(** The value of an array after [m[mask] = zscore(m[mask])], and after a
    sequence of such assignments. *)
Definition normalize_block (m : matrix) (mask : list bool) : matrix :=
  put_rows m mask (zscore (Np.getitem_mask m mask)).

Definition normalize_blocks (masks : list (list bool)) (m : matrix) : matrix :=
  foldl normalize_block m masks.

Lemma count_true_cons (b : bool) (mask : list bool) :
  count_true (b :: mask) = if b then S (count_true mask) else count_true mask.
Proof.
  unfold count_true. rewrite filter_cons.
  destruct b; [by rewrite decide_True|by rewrite decide_False].
Qed.

Lemma getitem_put_rows_same (m : matrix) (mask : list bool) (v : matrix) :
  length mask = length m → length v = count_true mask →
  Np.getitem_mask (put_rows m mask v) mask = v.
Proof.
  revert mask v. induction m as [|row m IH]; intros mask v Hl Hv.
  - destruct mask; [|done]. by destruct v.
  - destruct mask as [|b mask]; [done|]. rewrite count_true_cons in Hv.
    simpl in Hl. destruct b; simpl.
    + destruct v as [|r v]; [done|]. simpl in *. f_equal. apply IH; lia.
    + apply IH; lia.
Qed.

Lemma getitem_put_rows_other (m : matrix) (mask mask' : list bool) (v : matrix) :
  disjoint_masks mask mask' →
  Np.getitem_mask (put_rows m mask v) mask' = Np.getitem_mask m mask'.
Proof.
  intros Hd. revert m v. induction Hd as [|b b' mask mask' Hb _ IH]; intros m v.
  - by destruct m.
  - destruct m as [|row m]; [done|]. simpl.
    destruct b; simpl in Hb; subst.
    + destruct v; simpl; apply IH.
    + destruct b'; simpl; [f_equal|]; apply IH.
Qed.

Lemma lookup_put_rows_false (m : matrix) (mask : list bool) (v : matrix) (i : nat) :
  mask !! i = Some false → put_rows m mask v !! i = m !! i.
Proof.
  revert mask v i. induction m as [|row m IH]; intros mask v i Hi; [by destruct mask|].
  destruct mask as [|b mask]; [done|]. destruct i as [|i]; simpl in *.
  - injection Hi as ->. done.
  - destruct b; [destruct v|]; simpl; by apply IH.
Qed.

Lemma disjoint_masks_sym (m1 m2 : list bool) : disjoint_masks m1 m2 → disjoint_masks m2 m1.
Proof.
  unfold disjoint_masks. induction 1 as [|a b ?? Hab]; constructor; [|done].
  by rewrite andb_comm.
Qed.

Lemma normalize_blocks_cons (mask : list bool) (masks : list (list bool)) (m : matrix) :
  normalize_blocks (mask :: masks) m = normalize_blocks masks (normalize_block m mask).
Proof. done. Qed.

Lemma length_normalize_blocks (masks : list (list bool)) (m : matrix) :
  length (normalize_blocks masks m) = length m.
Proof.
  revert m. induction masks as [|mask masks IH]; intros m; [done|].
  rewrite normalize_blocks_cons, IH. apply length_put_rows.
Qed.

Lemma normalize_blocks_app (a b : list (list bool)) (m : matrix) :
  normalize_blocks (a ++ b) m = normalize_blocks b (normalize_blocks a m).
Proof. unfold normalize_blocks. by rewrite foldl_app. Qed.

Lemma normalize_blocks_other (masks : list (list bool)) (m : matrix) (mask' : list bool) :
  Forall (λ mask, disjoint_masks mask mask') masks →
  Np.getitem_mask (normalize_blocks masks m) mask' = Np.getitem_mask m mask'.
Proof.
  intros Hd. revert m. induction Hd as [|mask masks Hmask _ IH]; intros m; [done|].
  rewrite normalize_blocks_cons, IH. by apply getitem_put_rows_other.
Qed.

Lemma normalize_blocks_lookup (masks : list (list bool)) (m : matrix) (i : nat) :
  Forall (λ mask, mask !! i = Some false) masks →
  normalize_blocks masks m !! i = m !! i.
Proof.
  intros Hd. revert m. induction Hd as [|mask masks Hmask _ IH]; intros m; [done|].
  rewrite normalize_blocks_cons, IH. by apply lookup_put_rows_false.
Qed.

(** Disjoint blocks are normalised independently: each holds the scores
    of its own rows as they were at the start. *)
Lemma normalize_blocks_spec (masks : list (list bool)) (m : matrix) (mask : list bool) :
  pairwise_disjoint masks → Forall (λ mask, length mask = length m) masks →
  mask ∈ masks →
  Np.getitem_mask (normalize_blocks masks m) mask = zscore (Np.getitem_mask m mask).
Proof.
  intros Hpd Hl Hin. revert m Hl.
  induction masks as [|mask0 masks IH]; intros m Hl; [by apply elem_of_nil in Hin|].
  destruct Hpd as [Hd0 Hpd]. apply Forall_cons in Hl as [Hl0 Hl].
  rewrite normalize_blocks_cons.
  apply elem_of_cons in Hin as [->|Hin].
  - rewrite normalize_blocks_other.
    + apply getitem_put_rows_same; [done|]. rewrite zscore_length.
      apply length_getitem_mask. lia.
    + eapply Forall_impl; [exact Hd0|]. intros mask'. apply disjoint_masks_sym.
  - rewrite IH; [|done|done|].
    + f_equal. apply getitem_put_rows_other.
      by eapply Forall_forall in Hd0.
    + eapply Forall_impl; [exact Hl|]. cbn beta. intros mask' ->.
      unfold normalize_block. by rewrite length_put_rows.
Qed.

Lemma pairwise_disjoint_app (a b : list (list bool)) :
  pairwise_disjoint a → pairwise_disjoint b →
  (∀ x y, x ∈ a → y ∈ b → disjoint_masks x y) → pairwise_disjoint (a ++ b).
Proof.
  intros Ha Hb Hab. induction a as [|x a IH]; [done|]. destruct Ha as [Hx Ha].
  simpl. split.
  - apply Forall_app. split; [done|]. apply Forall_forall. intros y Hy.
    apply Hab; [apply list_elem_of_here|done].
  - apply IH; [done|]. intros x' y Hx' Hy. apply Hab; [by apply list_elem_of_further|done].
Qed.

Lemma pairwise_disjoint_fmap {B} (f : B → list bool) (l : list B) :
  NoDup l → (∀ x y, x ≠ y → disjoint_masks (f x) (f y)) → pairwise_disjoint (f <$> l).
Proof.
  intros Hnd Hf. induction Hnd as [|x l Hx _ IH]; [done|]. simpl. split; [|done].
  apply Forall_fmap, Forall_forall. intros y Hy. apply Hf. by intros ->.
Qed.

Lemma pairwise_disjoint_bind {B} (f : B → list (list bool)) (l : list B) :
  NoDup l → (∀ x, pairwise_disjoint (f x)) →
  (∀ x y a b, x ≠ y → a ∈ f x → b ∈ f y → disjoint_masks a b) →
  pairwise_disjoint (l ≫= f).
Proof.
  intros Hnd Hf Hxy. induction Hnd as [|x l Hx _ IH]; [done|]. csimpl.
  apply pairwise_disjoint_app; [done|done|].
  intros a b Ha (y & Hb & Hy)%list_elem_of_bind.
  apply (Hxy x y); [by intros ->|done|done].
Qed.

Lemma block_disjoint (sessions : list Z) (tp : list string) (s s' : Z) (p p' : string) :
  s ≠ s' ∨ p ≠ p' →
  disjoint_masks (Np.and_mask (Np.eq_mask sessions s) (Np.str_eq_mask tp p))
                 (Np.and_mask (Np.eq_mask sessions s') (Np.str_eq_mask tp p')).
Proof.
  intros Hne. unfold disjoint_masks, Np.and_mask, Np.eq_mask, Np.str_eq_mask.
  revert tp. induction sessions as [|x sessions IH]; intros [|t tp]; simpl;
    try by constructor.
  constructor; [|apply IH].
  destruct (Z.eqb_spec x s), (Z.eqb_spec x s'); try done;
    repeat case_bool_decide; try done.
  destruct Hne; congruence.
Qed.

(** The loops run to the end when the masks fit the array. *)
Lemma normalize_loop_run {B} (l : list B) (mask_of : B → list bool) (X : nat)
    (m : matrix) (h : heap) :
  h !! X = Some m → (∀ b, b ∈ l → length (mask_of b) = length m) →
  for_each l (λ b, sel ← getitem_rows_at X (mask_of b);
                   setitem_rows_at X (mask_of b) (zscore sel)) h
  = (inr (), <[X := normalize_blocks (mask_of <$> l) m]> h).
Proof.
  revert m h. induction l as [|b l IH]; intros m h HX Hl.
  - simpl. by rewrite list_insert_id.
  - assert (Hb : length (mask_of b) = length m) by apply Hl, list_elem_of_here.
    rewrite fmap_cons, normalize_blocks_cons. cbn [for_each].
    rewrite !bind_run, getitem_rows_at_run, HX. unfold getitem_rows.
    rewrite decide_True by done. unfold setitem_rows_at.
    rewrite update_at_run, HX, setitem_rows_ok;
      [|done|rewrite zscore_length; apply length_getitem_mask; lia].
    fold (normalize_block m (mask_of b)).
    rewrite (IH (normalize_block m (mask_of b))).
    + by rewrite list_insert_insert_eq.
    + apply list_lookup_insert_eq. by eapply lookup_lt_Some.
    + intros b' Hb'. unfold normalize_block. rewrite length_put_rows.
      by apply Hl, list_elem_of_further.
Qed.

Lemma normalize_nested_run {B D} (l1 : list B) (l2 : list D)
    (mask_of : B → D → list bool) (X : nat) (m : matrix) (h : heap) :
  h !! X = Some m → (∀ b d, length (mask_of b d) = length m) →
  for_each l1 (λ b, for_each l2 (λ d,
    sel ← getitem_rows_at X (mask_of b d);
    setitem_rows_at X (mask_of b d) (zscore sel))) h
  = (inr (), <[X := normalize_blocks (l1 ≫= λ b, mask_of b <$> l2) m]> h).
Proof.
  revert m h. induction l1 as [|b l1 IH]; intros m h HX Hl; simpl.
  - by rewrite list_insert_id.
  - rewrite bind_run, (normalize_loop_run l2 (mask_of b) X m) by done.
    csimpl. rewrite normalize_blocks_app.
    rewrite (IH (normalize_blocks (mask_of b <$> l2) m)).
    + by rewrite list_insert_insert_eq.
    + apply list_lookup_insert_eq. by eapply lookup_lt_Some.
    + intros b' d. by rewrite length_normalize_blocks.
Qed.

(** The normalisation loops of [_normalize_power] and of
    [compute_classifier]: each block of rows (one session, one phase) gets
    the scores of its own rows; the other rows stay. *)
Lemma normalize_by_block (sessions : list Z) (tp phases : list string) (X : nat)
    (Xm : matrix) (h : heap) :
  h !! X = Some Xm → length sessions = length Xm → length tp = length Xm →
  ∃ Xm',
    for_each (Np.unique sessions) (λ sess,
      for_each (remove_dups phases) (λ phase,
        sel ← getitem_rows_at X (Np.and_mask (Np.eq_mask sessions sess)
                                             (Np.str_eq_mask tp phase));
        setitem_rows_at X (Np.and_mask (Np.eq_mask sessions sess)
                                       (Np.str_eq_mask tp phase)) (zscore sel))) h
    = (inr (), <[X := Xm']> h)
    ∧ length Xm' = length Xm
    ∧ (∀ s p, s ∈ sessions → p ∈ phases →
         Np.getitem_mask Xm' (Np.and_mask (Np.eq_mask sessions s) (Np.str_eq_mask tp p))
         = zscore (Np.getitem_mask Xm (Np.and_mask (Np.eq_mask sessions s)
                                                   (Np.str_eq_mask tp p))))
    ∧ (∀ i p, tp !! i = Some p → p ∉ phases → Xm' !! i = Xm !! i).
Proof.
  intros HX Hs Htp.
  set (block := λ (s : Z) (p : string),
         Np.and_mask (Np.eq_mask sessions s) (Np.str_eq_mask tp p)).
  assert (Hlen : ∀ s p, length (block s p) = length Xm).
  { intros s p. unfold block, Np.and_mask, Np.eq_mask, Np.str_eq_mask.
    rewrite length_zip_with, !length_fmap. lia. }
  exists (normalize_blocks (Np.unique sessions ≫= λ s, block s <$> remove_dups phases) Xm).
  split; [apply (normalize_nested_run _ _ block X Xm h HX Hlen)|].
  split; [apply length_normalize_blocks|]. split.
  - intros s p Hsin Hpin.
    change (Np.and_mask (Np.eq_mask sessions s) (Np.str_eq_mask tp p)) with (block s p).
    apply normalize_blocks_spec.
    + apply pairwise_disjoint_bind; [apply Np.unique_NoDup| |].
      * intros s0. apply pairwise_disjoint_fmap; [apply NoDup_remove_dups|].
        intros p1 p2 Hp. apply block_disjoint. by right.
      * intros s1 s2 a b Hs12 (p1 & -> & _)%list_elem_of_fmap (p2 & -> & _)%list_elem_of_fmap.
        apply block_disjoint. by left.
    + apply Forall_forall. intros mask (s0 & Hmask & _)%list_elem_of_bind.
      apply list_elem_of_fmap in Hmask as (p0 & -> & _). apply Hlen.
    + apply list_elem_of_bind. exists s. split; [|by apply Np.elem_of_unique].
      apply list_elem_of_fmap_2. by apply elem_of_remove_dups.
  - intros i p Hi Hp. apply normalize_blocks_lookup.
    apply Forall_forall. intros mask (s0 & Hmask & _)%list_elem_of_bind.
    apply list_elem_of_fmap in Hmask as (p0 & -> & Hp0).
    rewrite elem_of_remove_dups in Hp0.
    unfold block, Np.and_mask, Np.eq_mask, Np.str_eq_mask.
    rewrite lookup_zip_with, !list_lookup_fmap, Hi.
    destruct (sessions !! i) as [x|] eqn:Hx.
    + cbn. rewrite bool_decide_eq_false_2; [by rewrite andb_false_r|].
      intros ->. by apply Hp.
    + apply lookup_ge_None in Hx. apply lookup_lt_Some in Hi. lia.
Qed.

(** [_normalize_power] on the phases of the plan: every block of rows of
    one session and one phase is replaced by the scores of its own rows as
    they were when the method was called, whatever the order of the
    phases; rows of other phases stay; the method does not raise. *)
Theorem normalize_power_by_block (self : SubjectClassifier) (sessions : list Z)
    (tp : list string) (X : nat) (Xm : matrix) (h : heap) :
  h !! X = Some Xm → length sessions = length Xm →
  CrossVal.task_phase (base self) = Some tp → length tp = length Xm →
  ∃ Xm',
    sc_normalize_power self sessions X h = (inr (), <[X := Xm']> h)
    ∧ length Xm' = length Xm
    ∧ (∀ s p, s ∈ sessions →
         p ∈ CrossVal.train_phase (base self) ++ CrossVal.test_phase (base self) →
         Np.getitem_mask Xm' (Np.and_mask (Np.eq_mask sessions s) (Np.str_eq_mask tp p))
         = zscore (Np.getitem_mask Xm (Np.and_mask (Np.eq_mask sessions s)
                                                   (Np.str_eq_mask tp p))))
    ∧ (∀ i p, tp !! i = Some p →
         p ∉ CrossVal.train_phase (base self) ++ CrossVal.test_phase (base self) →
         Xm' !! i = Xm !! i).
Proof.
  intros HX Hs Htp Hl. unfold sc_normalize_power. rewrite Htp.
  by apply normalize_by_block.
Qed.

(** The normalisation by session in [compute_classifier], which runs when
    the features are power values: every block of rows of one session and
    one of the mapped phases is replaced, in [feat_mat] itself, by the
    scores of its own rows as they were before; rows of other phases stay;
    the loops do not raise. *)
Theorem th_normalize_sessions_by_block (self : ClassifyTH) (sessions : list Z)
    (task_phase : list string) (feat_mat : nat) (Xm : matrix) (h : heap) :
  feat_type self = "power"%string →
  h !! feat_mat = Some Xm → length sessions = length Xm →
  length task_phase = length Xm →
  ∃ Xm',
    th_normalize_sessions self sessions task_phase feat_mat h
    = (inr (), <[feat_mat := Xm']> h)
    ∧ length Xm' = length Xm
    ∧ (∀ s p, s ∈ sessions →
         p ∈ CrossVal.th_phases (train_phase self) ++ CrossVal.th_phases (test_phase self) →
         Np.getitem_mask Xm' (Np.and_mask (Np.eq_mask sessions s)
                                          (Np.str_eq_mask task_phase p))
         = zscore (Np.getitem_mask Xm (Np.and_mask (Np.eq_mask sessions s)
                                                   (Np.str_eq_mask task_phase p))))
    ∧ (∀ i p, task_phase !! i = Some p →
         p ∉ CrossVal.th_phases (train_phase self) ++ CrossVal.th_phases (test_phase self) →
         Xm' !! i = Xm !! i).
Proof.
  intros Hft HX Hs Hl. unfold th_normalize_sessions.
  rewrite bool_decide_eq_true_2 by done. by apply normalize_by_block.
Qed.

End Shapes.

End Externals.

(** *** Examples *)

(** Stand-ins for the functions of scipy and scikit-learn in the examples:
    normalisations that return the rows they are given, a score of 1/2, and
    a classifier that predicts 1/2 for every row. *)
Definition zscore_same (a : matrix) : matrix := a.
Definition zmap_same (scores compare : matrix) : matrix := scores.
Definition score_half (y_true : list bool) (y_score : list Q) : Q := (1 # 2)%Q.
Definition fit_nothing (c : Q) (penalty : string) (x : matrix) (y : list bool)
    (w : option (list Q)) : unit := ().
Definition predict_half (m : unit) (x : matrix) : list Q := replicate (length x) (1 # 2)%Q.
Definition rand_zero (rows cols : nat) : matrix := replicate rows (replicate cols 0%Q).
Definition recalled_trial_1 (task : string) (evs : list CrossVal.event) : list bool :=
  (λ e, bool_decide (CrossVal.ev_trial e = 1%Z)) <$> evs.

(** Two encoding events of one session, in two trials, and two candidate
    values. *)
Definition two_values : ClassifyTH :=
  {| train_phase := ["enc"%string]; test_phase := ["enc"%string]; do_rand := false;
     feat_type := "power"; C := [1; 2]%Q; norm := "l2"; scale_enc := None |}.

Definition one_session_folds : gmap Z CrossVal.fold :=
  <[0%Z := CrossVal.Fold [false; true] [true; false] ["enc"%string] ["enc"%string]]>
    (<[1%Z := CrossVal.Fold [true; false] [false; true] ["enc"%string] ["enc"%string]]> ∅).

Definition one_session : SubjectClassifier :=
  {| base := {| CrossVal.task := "RAM_TH1";
                CrossVal.subject_data :=
                  Some [CrossVal.Event 0 0 0 "enc"; CrossVal.Event 0 1 0 "enc"];
                CrossVal.train_phase := ["enc"%string];
                CrossVal.test_phase := ["enc"%string];
                CrossVal.cross_val_dict := one_session_folds;
                CrossVal.task_phase := Some ["enc"%string; "enc"%string] |};
     sc_C := [1; 2]%Q; sc_norm := "l2"; sc_scale_enc := None;
     sc_feat_type := "power"; data := 0 |}.

Definition two_rows : matrix := [[1]; [2]]%Q.

Lemma single_session_runs_witness :
  classify zscore_same zmap_same score_half unit fit_nothing predict_half 0%Q
    recalled_trial_1 one_session [two_rows]
  = (inr (inl msg_multiple_C), [two_rows]).
Proof.
  refine (proj1 (single_session_runs zscore_same zmap_same score_half unit fit_nothing
                   predict_half rand_zero 0%Q recalled_trial_1)
            one_session _ [two_rows] _ eq_refl _ _).
  - apply insert_non_empty.
  - reflexivity.
  - simpl. lia.
Defined.

(** C7, as worded: [compute_classifier], given two candidate values and the
    events of a single session, is not turned away; it returns a result,
    with AUC 1/2 here. *)
Lemma compute_classifier_takes_multiple_C_with_one_session :
  ∃ res h',
    1 < length (C two_values) ∧ length (Np.unique [0; 0]%Z) = 1
    ∧ compute_classifier zscore_same zmap_same score_half unit fit_nothing predict_half
        rand_zero 0%Q two_values [false; true] [0; 0]%Z [0; 1]%Z 0
        ["enc"%string; "enc"%string] [two_rows]
      = (inr res, h')
    ∧ auc res = (1 # 2)%Q.
Proof.
  eexists _, _. split; [simpl; lia|]. split; [reflexivity|].
  split; [vm_compute; reflexivity|reflexivity].
Qed.

Lemma folds_leave_feature_matrix_unchanged_witness :
  (th_fold zscore_same zmap_same score_half unit fit_nothing predict_half 0%Q
     two_values [false; true] [0; 1]%Z ["enc"%string; "enc"%string] 0 1 2
     false 0 1%Q 0 0%Z [two_rows; []; []]).2 !! 0 = Some two_rows.
Proof.
  refine (proj1 (folds_leave_feature_matrix_unchanged zscore_same zmap_same score_half
                   unit fit_nothing predict_half 0%Q two_values one_session
                   [false; true] [false; true] [0; 0]%Z [0; 1]%Z
                   ["enc"%string; "enc"%string] 0 1 2 two_rows
                   [two_rows; []; []] eq_refl _ _) false 0 1%Q 0 0%Z); lia.
Defined.

(** Two training and two test events of each phase; the test events of
    the fold come in the other order of phases. *)
Definition train_phases_of_fold : list string := ["enc"; "enc"; "rec"; "rec"]%string.
Definition test_phases_of_fold : list string := ["rec"; "rec"; "enc"; "enc"]%string.
Definition feats_train_of_fold : matrix := [[1]; [3]; [10]; [20]]%Q.
Definition feats_test_of_fold : matrix := [[5]; [6]; [7]; [8]]%Q.

Lemma two_rows_inv (a : matrix) : length a = 2 → ∃ r1 r2, a = [r1; r2].
Proof. destruct a as [|r1 [|r2 [|]]]; simpl; try lia. eauto. Qed.

(** C3, at a concrete input of [compute_classifier]: the rows computed for
    the encoding test events (rows 2 and 3 of the test features, mapped on
    the encoding training rows) are stored in rows 0 and 1 of [x_test],
    which belong to the retrieval test events, and the other way round:
    the rows are placed by the phases of the training events. *)
Theorem th_normalize_test_places_rows_by_train_phases
    (zscore : matrix → matrix) (zmap : matrix → matrix → matrix) (u : Q) :
  (∀ a b, length (zmap a b) = length a) →
  th_normalize_test zscore zmap ["enc"; "rec"]%string ["enc"; "rec"]%string
    train_phases_of_fold test_phases_of_fold 0 1 2
    [feats_train_of_fold; feats_test_of_fold; replicate 4 [u]]
  = (inr (),
     [feats_train_of_fold; feats_test_of_fold;
      zmap [[7]; [8]]%Q [[1]; [3]]%Q ++ zmap [[5]; [6]]%Q [[10]; [20]]%Q]).
Proof.
  intros Hlen.
  destruct (two_rows_inv _ (Hlen [[7]; [8]]%Q [[1]; [3]]%Q)) as (a1 & a2 & Ha).
  destruct (two_rows_inv _ (Hlen [[5]; [6]]%Q [[10]; [20]]%Q)) as (b1 & b2 & Hb).
  vm_compute. rewrite Ha. vm_compute. rewrite Hb. reflexivity.
Qed.

Lemma th_normalize_test_places_rows_by_train_phases_witness :
  th_normalize_test zscore_same zmap_same ["enc"; "rec"]%string ["enc"; "rec"]%string
    train_phases_of_fold test_phases_of_fold 0 1 2
    [feats_train_of_fold; feats_test_of_fold; replicate 4 [0%Q]]
  = (inr (), [feats_train_of_fold; feats_test_of_fold; [[7]; [8]; [5]; [6]]%Q]).
Proof.
  exact (th_normalize_test_places_rows_by_train_phases zscore_same zmap_same 0%Q
           (λ a b, eq_refl)).
Defined.

(** At the same input the loop of [classify] places the rows by the phases
    of the test events. *)
Lemma sc_normalize_test_places_rows_by_test_phases
    (zscore : matrix → matrix) (zmap : matrix → matrix → matrix) :
  (∀ a b, length (zmap a b) = length a) →
  sc_normalize_test zscore zmap ["enc"; "rec"]%string ["enc"; "rec"]%string
    train_phases_of_fold test_phases_of_fold 0 1
    [feats_train_of_fold; feats_test_of_fold]
  = (inr (),
     [feats_train_of_fold;
      zmap [[5]; [6]]%Q [[10]; [20]]%Q ++ zmap [[7]; [8]]%Q [[1]; [3]]%Q]).
Proof.
  intros Hlen.
  destruct (two_rows_inv _ (Hlen [[7]; [8]]%Q [[1]; [3]]%Q)) as (a1 & a2 & Ha).
  destruct (two_rows_inv _ (Hlen [[5]; [6]]%Q [[10]; [20]]%Q)) as (b1 & b2 & Hb).
  vm_compute. rewrite Ha. vm_compute. rewrite Hb. reflexivity.
Qed.

(** In [classify] the training rows are normalised in the array that the
    test rows are then mapped on: the test rows are expressed relative to
    the normalised training rows, not to the training rows. *)
Lemma sc_normalize_maps_on_normalised_rows
    (zscore : matrix → matrix) (zmap : matrix → matrix → matrix) :
  (∀ a, length (zscore a) = length a) →
  (∀ a b, length (zmap a b) = length a) →
  (sc_normalize_train zscore ["enc"%string] ["enc"; "enc"]%string 0;;
   sc_normalize_test zscore zmap ["enc"%string] ["enc"%string]
     ["enc"; "enc"]%string ["enc"%string] 0 1)
    [[[1]; [3]]%Q; [[7]]%Q]
  = (inr (), [zscore [[1]; [3]]%Q; zmap [[7]]%Q (zscore [[1]; [3]]%Q)]).
Proof.
  intros Hz Hm.
  destruct (two_rows_inv _ (Hz [[1]; [3]]%Q)) as (a1 & a2 & Ha).
  vm_compute. rewrite Ha. vm_compute.
  pose proof (Hm [[7]]%Q [a1; a2]) as Hl.
  destruct (zmap [[7%Q]] [a1; a2]) as [|b [|]]; simpl in Hl; try lia.
  reflexivity.
Qed.

(** Two sessions of two encoding events each. *)
Definition four_rows : matrix := [[1]; [2]; [3]; [4]]%Q.

Lemma compute_classifier_loso_auc_witness :
  ∃ res h' X T,
    compute_classifier zscore_same zmap_same score_half unit fit_nothing predict_half
      rand_zero 0%Q two_values [true; false; true; false] [0; 0; 1; 1]%Z [0; 0; 1; 1]%Z 0
      (replicate 4 "enc"%string) [four_rows]
    = (inr res, h')
    ∧ length T = 2 ∧ rectangular T 2
    ∧ (∀ i j cv c, [0; 1]%Z !! i = Some cv → [1; 2]%Q !! j = Some c →
         ∃ a, th_fold_auc zscore_same zmap_same score_half unit fit_nothing predict_half
                0%Q two_values [true; false; true; false] [0; 0; 1; 1]%Z
                (replicate 4 "enc"%string) X c cv = inr a
              ∧ cell T i j = Some a)
    ∧ auc res = (amax (mean_axis0 T) - Selection.bias T)%Q.
Proof.
  destruct (compute_classifier zscore_same zmap_same score_half unit fit_nothing
              predict_half rand_zero 0%Q two_values [true; false; true; false]
              [0; 0; 1; 1]%Z [0; 0; 1; 1]%Z 0 (replicate 4 "enc"%string) [four_rows])
    as [[e|res] h'] eqn:Hrun; [by vm_compute in Hrun|].
  destruct (compute_classifier_loso_auc zscore_same zmap_same score_half unit
              fit_nothing predict_half rand_zero 0%Q two_values
              [true; false; true; false] [0; 0; 1; 1]%Z [0; 0; 1; 1]%Z 0
              (replicate 4 "enc"%string) [four_rows] h' res
              (ex_intro _ four_rows eq_refl) eq_refl Hrun)
    as (X & T & _ & Hlen & Hrect & Hcells & _ & Hauc).
  exists res, h', X, T.
  split; [reflexivity|]. split; [exact Hlen|]. split; [exact Hrect|].
  split; [exact Hcells|exact Hauc].
Defined.

(** *** Examples for the result of [compute_classifier] *)

Definition no_values : ClassifyTH :=
  {| train_phase := ["enc"%string]; test_phase := ["enc"%string]; do_rand := false;
     feat_type := "power"; C := []; norm := "l2"; scale_enc := None |}.

Definition random_values : ClassifyTH :=
  {| train_phase := ["enc"%string]; test_phase := ["enc"%string]; do_rand := true;
     feat_type := "power"; C := [1; 2]%Q; norm := "l2"; scale_enc := None |}.

Local Abbreviation run_th self recalls sessions cv_sel feat_mat task_phase h :=
  (compute_classifier zscore_same zmap_same score_half unit fit_nothing predict_half
     rand_zero 0%Q self recalls sessions cv_sel feat_mat task_phase h).

Lemma do_rand_leaves_feature_matrix_witness :
  (run_th random_values [false; true] [0; 0]%Z [0; 1]%Z 0 ["enc"%string; "enc"%string]
     [two_rows]).2 !! 0 = Some two_rows.
Proof.
  by apply (do_rand_leaves_feature_matrix zscore_same zmap_same score_half unit
              fit_nothing predict_half rand_zero 0%Q random_values).
Defined.

Lemma compute_classifier_empty_C_witness :
  ∃ e h', run_th no_values [false; true] [0; 0]%Z [0; 1]%Z 0 ["enc"%string; "enc"%string]
            [two_rows] = (inl e, h').
Proof.
  by apply (compute_classifier_empty_C zscore_same zmap_same score_half unit
              fit_nothing predict_half rand_zero 0%Q no_values).
Defined.

Lemma compute_classifier_probs_aligned_witness :
  ∃ res h',
    run_th two_values [false; true] [0; 0]%Z [0; 1]%Z 0 ["enc"%string; "enc"%string]
      [two_rows] = (inr res, h')
    ∧ classes res = [false; true] ∧ length (classes res) = 2 ∧ length (probs res) = 2.
Proof.
  destruct (run_th two_values [false; true] [0; 0]%Z [0; 1]%Z 0
              ["enc"%string; "enc"%string] [two_rows]) as [[e|res] h'] eqn:Hrun;
    [by vm_compute in Hrun|].
  exists res, h'. split; [done|].
  exact (compute_classifier_probs_aligned zscore_same zmap_same score_half unit
           fit_nothing predict_half rand_zero 0%Q two_values [false; true] [0; 0]%Z
           [0; 1]%Z 0 ["enc"%string; "enc"%string] [two_rows] h' res eq_refl Hrun).
Defined.

Lemma compute_classifier_needs_equal_fold_sizes_witness :
  count_true (CrossVal.th_mask_train ["enc"%string] [0; 0; 1; 1]%Z
                (replicate 4 "enc"%string) 0%Z)
  = count_true (CrossVal.th_mask_test ["enc"%string] [0; 0; 1; 1]%Z
                  (replicate 4 "enc"%string) 0%Z).
Proof.
  destruct (run_th two_values [true; false; true; false] [0; 0; 1; 1]%Z [0; 0; 1; 1]%Z 0
              (replicate 4 "enc"%string) [four_rows]) as [[e|res] h'] eqn:Hrun;
    [by vm_compute in Hrun|].
  refine (compute_classifier_needs_equal_fold_sizes zscore_same zmap_same score_half unit
            fit_nothing predict_half rand_zero 0%Q two_values [true; false; true; false]
            [0; 0; 1; 1]%Z [0; 0; 1; 1]%Z 0 (replicate 4 "enc"%string) [four_rows] h' res
            _ _ Hrun 0%Z _).
  - by eexists.
  - done.
  - apply list_elem_of_here.
Defined.

Lemma compute_classifier_final_fit_witness :
  ∃ res h' X c,
    run_th two_values [false; true] [0; 0]%Z [0; 1]%Z 0 ["enc"%string; "enc"%string]
      [two_rows] = (inr res, h')
    ∧ h' !! 0 = Some X
    ∧ lr_classifier res = fit_nothing c "l2" X [false; true] None
    ∧ (length (Np.unique [0; 0]%Z) = 1 → [1; 2]%Q !! 0 = Some c).
Proof.
  destruct (run_th two_values [false; true] [0; 0]%Z [0; 1]%Z 0
              ["enc"%string; "enc"%string] [two_rows]) as [[e|res] h'] eqn:Hrun;
    [by vm_compute in Hrun|].
  destruct (compute_classifier_final_fit zscore_same zmap_same score_half unit
              fit_nothing predict_half rand_zero 0%Q two_values [false; true] [0; 0]%Z
              [0; 1]%Z 0 ["enc"%string; "enc"%string] [two_rows] h' res
              (ex_intro _ two_rows eq_refl) Hrun) as (X & c & HX & Hfit & Hone & _).
  exists res, h', X, c.
  split; [reflexivity|]. split; [exact HX|]. split; [exact Hfit|exact Hone].
Defined.

(** The plan of [make_cross_val_labels] for two sessions of two events. *)
Definition planned_two_sessions : SubjectClassifier :=
  {| base := match CrossVal.make_cross_val_labels CrossVal.two_sessions_enc_rec with
             | inr b' => b'
             | inl _ => CrossVal.two_sessions_enc_rec
             end;
     sc_C := [1; 2]%Q; sc_norm := "l2"; sc_scale_enc := None;
     sc_feat_type := "power"; data := 0 |}.

Lemma classify_completes_on_plan_witness :
  ∃ out h' Xm',
    classify zscore_same zmap_same score_half unit fit_nothing predict_half 0%Q
      recalled_trial_1 planned_two_sessions [four_rows] = (inr out, h')
    ∧ h' !! 0 = Some Xm' ∧ length Xm' = 4.
Proof.
  exact (classify_completes_on_plan zscore_same zmap_same score_half unit fit_nothing
           predict_half 0%Q recalled_trial_1
           (λ _, eq_refl) (λ _ _, eq_refl) (λ _ x, length_replicate _ _)
           (λ _ e, length_fmap _ _)
           CrossVal.two_sessions_enc_rec planned_two_sessions _ four_rows [four_rows]
           eq_refl eq_refl eq_refl eq_refl).
Defined.

Lemma normalize_power_by_block_witness :
  ∃ Xm',
    sc_normalize_power zscore_same planned_two_sessions [0; 0; 1; 1]%Z 0 [four_rows]
    = (inr (), <[0 := Xm']> [four_rows])
    ∧ length Xm' = 4
    ∧ Np.getitem_mask Xm' [false; true; false; false]
      = zscore_same (Np.getitem_mask four_rows [false; true; false; false]).
Proof.
  destruct (normalize_power_by_block zscore_same (λ _, eq_refl) planned_two_sessions
              [0; 0; 1; 1]%Z ["enc"; "rec"; "enc"; "rec"]%string 0 four_rows [four_rows]
              eq_refl eq_refl eq_refl eq_refl) as (Xm' & Hrun & Hlen & Hblocks & _).
  exists Xm'. split; [exact Hrun|]. split; [exact Hlen|].
  apply (Hblocks 0%Z "rec"%string).
  - apply list_elem_of_here.
  - apply list_elem_of_further, list_elem_of_here.
Defined.

Lemma th_normalize_sessions_by_block_witness :
  ∃ Xm',
    th_normalize_sessions zscore_same two_values [0; 0]%Z ["enc"; "enc"]%string 0
      [two_rows]
    = (inr (), <[0 := Xm']> [two_rows])
    ∧ length Xm' = 2
    ∧ Np.getitem_mask Xm' [true; true] = zscore_same (Np.getitem_mask two_rows [true; true]).
Proof.
  destruct (th_normalize_sessions_by_block zscore_same (λ _, eq_refl) two_values
              [0; 0]%Z ["enc"; "enc"]%string 0 two_rows [two_rows]
              eq_refl eq_refl eq_refl eq_refl) as (Xm' & Hrun & Hlen & Hblocks & _).
  exists Xm'. split; [exact Hrun|]. split; [exact Hlen|].
  apply (Hblocks 0%Z "enc"%string); apply list_elem_of_here.
Defined.

End Classifier.

(** ** Exclusion of sessions ([GroupLevel/exclusions.py]) *)

Module Exclusions.

Local Open Scope Z_scope.

(** The exceptions that the two functions can raise. *)
Inductive error := KeyError | AttributeError | IndexError.

Definition result (A : Type) : Type := error + A.

#[local] Instance result_ret : MRet result := λ A a, inr a.
#[local] Instance result_bind : MBind result :=
  λ A B f m, match m with inl e => inl e | inr a => f a end.

(** The columns of [subject_data.events.data] that the functions read. *)
Record event := Event {
  ev_session : Z;
  ev_trial : Z;
  ev_list : Z;
  ev_distErr : Q;
  ev_recalled : bool
}.

(** The attributes of [subj_obj] that the functions read and write. *)
Record subject := Subject {
  task : string;
  subj : string;
  subject_data : option (list event)
}.

Definition set_data (o : subject) (d : option (list event)) : subject :=
  {| task := task o; subj := subj o; subject_data := d |}.

(** The dictionary [criteria]. *)
Record criterion := Criterion {
  n_lists : Z;
  ev_string : string;
  perf_string : string
}.

Definition criteria : gmap string criterion :=
  <["RAM_TH1"%string := Criterion 30 "trial" "distErr"]>
    (<["RAM_FR1"%string := Criterion 15 "list" "recalled"]> ∅).

Definition getitem_key (k : string) : result criterion :=
  from_option inr (inl KeyError) (criteria !! k).

(** [events.data[name]] for the integer columns and for the columns that
    measure performance. *)
Definition int_field (name : string) : result (event → Z) :=
  if bool_decide (name = "session"%string) then inr ev_session
  else if bool_decide (name = "trial"%string) then inr ev_trial
  else if bool_decide (name = "list"%string) then inr ev_list
  else inl KeyError.

Definition num_field (name : string) : result (event → Q) :=
  if bool_decide (name = "distErr"%string) then inr ev_distErr
  else if bool_decide (name = "recalled"%string)
       then inr (λ e, if ev_recalled e then 1%Q else 0%Q)
  else inl KeyError.

(** A loop that may raise. *)
Fixpoint fold_result {A B} (f : A → B → result A) (a : A) (l : list B) : result A :=
  match l with
  | [] => inr a
  | x :: l' => a' ← f a x; fold_result f a' l'
  end.

(** The body of the loop of [remove_abridged_sessions] over the sessions;
    the state is [(bad_evs, bad_sessions)]. *)
Definition abridged_step (task : string) (evs : list event)
    (st : list bool * list bool) (session : Z) : result (list bool * list bool) :=
  let sessions := ev_session <$> evs in
  let sess_inds := Np.eq_mask sessions session in
  crit ← getitem_key task;
  col ← int_field (ev_string crit);
  let sess_lists := col <$> Np.getitem_mask evs sess_inds in
  let n := Z.of_nat (length (Np.unique sess_lists)) in
  th ← getitem_key "RAM_TH1";
  let is_bad := bool_decide (n ≤ n_lists th) in
  mret (zip_with (λ (m b : bool), if m then is_bad else b) sess_inds st.1,
        st.2 ++ [is_bad]).

(** [remove_abridged_sessions] *)
Definition remove_abridged_sessions (subj_obj : subject) : result subject :=
  evs ← from_option inr (inl AttributeError) (subject_data subj_obj);
  let sessions := ev_session <$> evs in
  st ← fold_result (abridged_step (task subj_obj) evs)
         (replicate (length sessions) true, []) (Np.unique sessions);
  if forallb id st.2 then mret (set_data subj_obj None)
  else mret (set_data subj_obj (Some (Np.getitem_mask evs (Np.not_mask st.1)))).

Section Tests.

(** The p-values of [statsmodels]' [proportions_chisquare(count, nobs)] and
    of [scipy.stats.ttest_ind(a, b)]. *)
Variable proportions_chisquare_p : list Q → list nat → Q.
Variable ttest_ind_p : list Q → list Q → Q.

(** The p-value of the comparison of the first session with the later
    ones. *)
Definition first_session_p (task : string) (evs : list event)
    (inds0 inds1 : list bool) : result Q :=
  if Np.str_contains "FR" task then
    crit ← getitem_key task;
    perf ← num_field (perf_string crit);
    let p0 := perf <$> Np.getitem_mask evs inds0 in
    let p1 := perf <$> Np.getitem_mask evs inds1 in
    mret (proportions_chisquare_p [NpQ.sum p0; NpQ.sum p1] [length p0; length p1])
  else if Np.str_contains "TH" task then
    crit ← getitem_key task;
    perf ← num_field (perf_string crit);
    mret (ttest_ind_p (perf <$> Np.getitem_mask evs inds0)
                      (perf <$> Np.getitem_mask evs inds1))
  else mret 1%Q.

(** [remove_first_session_if_worse] *)
Definition remove_first_session_if_worse (subj_obj : subject) : result subject :=
  evs ← from_option inr (inl AttributeError) (subject_data subj_obj);
  let sessions := ev_session <$> evs in
  if bool_decide (1 < length (Np.unique sessions))%nat then
    first ← from_option inr (inl IndexError) (head sessions);
    let inds0 := Np.eq_mask sessions first in
    let inds1 := Np.ne_mask sessions first in
    p ← first_session_p (task subj_obj) evs inds0 inds1;
    if Qlt_le_dec p (1 # 20) then mret (set_data subj_obj (Some (Np.getitem_mask evs inds1)))
    else mret subj_obj
  else mret subj_obj.

End Tests.

(** *** Facts about [remove_abridged_sessions] *)

(** The number of distinct lists of a session, and whether the session is
    long enough to be kept. *)
Definition lists_of (col : event → Z) (evs : list event) (session : Z) : list Z :=
  Np.unique (col <$> filter (λ e, ev_session e = session) evs).

Definition long_enough (col : event → Z) (evs : list event) (session : Z) : Prop :=
  30 < Z.of_nat (length (lists_of col evs session)).

#[local] Instance long_enough_dec col evs session : Decision (long_enough col evs session).
Proof. unfold long_enough. apply _. Defined.

Lemma filter_nil_Forall {A} (P : A → Prop) `{∀ x, Decision (P x)} (l : list A) :
  filter P l = [] ↔ Forall (λ x, ¬ P x) l.
Proof.
  split.
  - intros Hnil. apply Forall_forall. intros x Hx HP.
    by eapply (filter_nil_not_elem_of P l x).
  - induction 1 as [|x l Hx _ IH]; [done|]. by rewrite filter_cons_False.
Qed.

Lemma filter_all {A} (P : A → Prop) `{∀ x, Decision (P x)} (l : list A) :
  Forall P l → filter P l = l.
Proof.
  induction 1 as [|x l Hx _ IH]; [done|]. by rewrite filter_cons_True, IH.
Qed.

Lemma getitem_eq_mask (evs : list event) (session : Z) :
  Np.getitem_mask evs (Np.eq_mask (ev_session <$> evs) session)
  = filter (λ e, ev_session e = session) evs.
Proof.
  unfold Np.eq_mask. rewrite <- list_fmap_compose, Np.getitem_mask_fmap.
  apply list_filter_iff. intros e. simpl. apply Z.eqb_eq.
Qed.

Lemma getitem_ne_mask (evs : list event) (session : Z) :
  Np.getitem_mask evs (Np.ne_mask (ev_session <$> evs) session)
  = filter (λ e, ev_session e ≠ session) evs.
Proof.
  unfold Np.ne_mask. rewrite <- list_fmap_compose, Np.getitem_mask_fmap.
  apply list_filter_iff. intros e. simpl.
  rewrite negb_true_iff. apply Z.eqb_neq.
Qed.

Definition abridged (col : event → Z) (evs : list event) (session : Z) : bool :=
  bool_decide (Z.of_nat (length (lists_of col evs session)) ≤ 30).

Lemma abridged_false (col : event → Z) (evs : list event) (session : Z) :
  abridged col evs session = false ↔ long_enough col evs session.
Proof.
  unfold abridged, long_enough. rewrite bool_decide_eq_false. lia.
Qed.

(** The tasks that [criteria] knows, and the column that counts their lists. *)
Definition known_task (task : string) (col : event → Z) : Prop :=
  (task = "RAM_TH1"%string ∧ col = ev_trial) ∨ (task = "RAM_FR1"%string ∧ col = ev_list).

Lemma abridged_step_run (task : string) (col : event → Z) (evs : list event)
    (st : list bool * list bool) (session : Z) :
  known_task task col →
  abridged_step task evs st session
  = inr (zip_with (λ (m b : bool), if m then abridged col evs session else b)
           (Np.eq_mask (ev_session <$> evs) session) st.1,
         st.2 ++ [abridged col evs session]).
Proof.
  intros [[-> ->]|[-> ->]]; unfold abridged_step, abridged, lists_of;
    by rewrite getitem_eq_mask.
Qed.

Lemma fold_abridged (task : string) (col : event → Z) (evs : list event) :
  known_task task col →
  ∀ ss b bs, length b = length evs →
    ∃ b', fold_result (abridged_step task evs) (b, bs) ss
          = inr (b', bs ++ (abridged col evs <$> ss))
      ∧ length b' = length evs
      ∧ ∀ i e, evs !! i = Some e →
          b' !! i = if decide (ev_session e ∈ ss)
                    then Some (abridged col evs (ev_session e)) else b !! i.
Proof.
  intros Hk ss. induction ss as [|s ss IH]; intros b bs Hlen.
  - exists b. cbn [fold_result fmap list_fmap]. rewrite app_nil_r.
    split; [done|]. split; [done|].
    intros i e _. rewrite decide_False; [done|]. apply not_elem_of_nil.
  - cbn [fold_result]. rewrite (abridged_step_run task col) by done. cbn [fst snd].
    set (b1 := zip_with _ _ b).
    assert (Hlen1 : length b1 = length evs).
    { unfold b1, Np.eq_mask. rewrite length_zip_with, !length_fmap. lia. }
    destruct (IH b1 (bs ++ [abridged col evs s]) Hlen1) as (b' & Hrun & Hlen' & Hb').
    exists b'. split; [|split; [done|]].
    + change (fold_result (abridged_step task evs) (b1, bs ++ [abridged col evs s]) ss
              = inr (b', bs ++ (abridged col evs <$> (s :: ss)))).
      rewrite Hrun. by rewrite <- app_assoc.
    + intros i e He. rewrite (Hb' i e He).
      destruct (decide (ev_session e ∈ ss)) as [Hin|Hnin].
      * rewrite decide_True; [done|]. by apply list_elem_of_further.
      * assert (Hb1 : b1 !! i = if decide (ev_session e = s)
                                then Some (abridged col evs s) else b !! i).
        { destruct (lookup_lt_is_Some_2 b i) as [bi Hbi];
            [rewrite Hlen; by eapply lookup_lt_Some|].
          unfold b1, Np.eq_mask. rewrite lookup_zip_with, !list_lookup_fmap, He, Hbi. simpl.
          destruct (Z.eqb_spec (ev_session e) s).
          - by rewrite decide_True.
          - by rewrite decide_False. }
        rewrite Hb1. destruct (decide (ev_session e = s)) as [<-|Hne].
        -- rewrite decide_True; [done|]. apply list_elem_of_here.
        -- rewrite decide_False; [done|]. rewrite elem_of_cons. tauto.
Qed.

Lemma forallb_id_fmap {A} (f : A → bool) (l : list A) :
  forallb id (f <$> l) = true ↔ ∀ x, x ∈ l → f x = true.
Proof.
  induction l as [|y l IH]; cbn [fmap list_fmap forallb].
  - split; [|done]. intros _ x Hx. by apply elem_of_nil in Hx.
  - rewrite andb_true_iff, IH. unfold id. split.
    + intros [Hy Hl] x [->|Hx]%elem_of_cons; [done|by apply Hl].
    + intros Hall. split; [apply Hall, list_elem_of_here|].
      intros x Hx. by apply Hall, list_elem_of_further.
Qed.

Lemma forallb_abridged (col : event → Z) (evs : list event) :
  forallb id (abridged col evs <$> Np.unique (ev_session <$> evs)) = true
  ↔ filter (λ e, long_enough col evs (ev_session e)) evs = [].
Proof.
  rewrite forallb_id_fmap, filter_nil_Forall, Forall_forall. split.
  - intros Hall e He Hlong. apply abridged_false in Hlong.
    rewrite Hall in Hlong; [done|].
    apply Np.elem_of_unique, list_elem_of_fmap. by exists e.
  - intros Hnone s Hs.
    apply Np.elem_of_unique, list_elem_of_fmap in Hs as (e & -> & He).
    destruct (abridged col evs (ev_session e)) eqn:Hbad; [done|].
    apply abridged_false in Hbad. by apply Hnone in Hbad.
Qed.

Lemma fold_result_cons {A B} (f : A → B → result A) (a : A) (x : B) (l : list B) :
  fold_result f a (x :: l) = f a x ≫= λ a', fold_result f a' l.
Proof. done. Qed.

Lemma abridged_step_unknown (task : string) (evs : list event)
    (st : list bool * list bool) (session : Z) :
  criteria !! task = None → abridged_step task evs st session = inl KeyError.
Proof. intros Hc. unfold abridged_step, getitem_key. by rewrite Hc. Qed.

Lemma unique_sessions_cons (e : event) (evs : list event) :
  ∃ s ss, Np.unique (ev_session <$> e :: evs) = s :: ss.
Proof.
  destruct (Np.unique (ev_session <$> e :: evs)) as [|s ss] eqn:Hu; [|by eauto].
  assert (ev_session e ∈ Np.unique (ev_session <$> e :: evs)) as Hin
    by (apply Np.elem_of_unique; apply list_elem_of_here).
  rewrite Hu in Hin. by apply elem_of_nil in Hin.
Qed.

Lemma known_task_criteria (task : string) (crit : criterion) :
  criteria !! task = Some crit → ∃ col, known_task task col.
Proof.
  unfold criteria. intros [[<- _]|[_ Hc]]%lookup_insert_Some; [exists ev_trial; by left|].
  apply lookup_insert_Some in Hc as [[<- _]|[_ Hc]]; [exists ev_list; by right|].
  by rewrite lookup_empty in Hc.
Qed.

(** What [remove_abridged_sessions] returns for a task that [criteria]
    knows. *)
Lemma remove_abridged_sessions_run (o : subject) (evs : list event) (col : event → Z) :
  subject_data o = Some evs → known_task (task o) col →
  remove_abridged_sessions o
  = inr (set_data o (match filter (λ e, long_enough col evs (ev_session e)) evs with
                     | [] => None
                     | kept => Some kept
                     end)).
Proof.
  intros Hd Hk. unfold remove_abridged_sessions. rewrite Hd. cbn [from_option mbind result_bind].
  destruct (fold_abridged (task o) col evs Hk (Np.unique (ev_session <$> evs))
              (replicate (length (ev_session <$> evs)) true) [])
    as (b' & Hrun & Hlen & Hb').
  { by rewrite length_replicate, length_fmap. }
  rewrite Hrun. cbn [mbind result_bind app fst snd].
  assert (Hmask : b' = (λ e, abridged col evs (ev_session e)) <$> evs).
  { apply list_eq. intros i. rewrite list_lookup_fmap.
    destruct (evs !! i) as [e|] eqn:He.
    - rewrite (Hb' i e He), decide_True; [done|].
      apply Np.elem_of_unique, list_elem_of_fmap. exists e. split; [done|].
      by eapply list_elem_of_lookup_2.
    - apply lookup_ge_None. rewrite Hlen. by apply lookup_ge_None. }
  destruct (forallb id (abridged col evs <$> Np.unique (ev_session <$> evs))) eqn:Hall.
  - apply forallb_abridged in Hall. by rewrite Hall.
  - assert (Hne : filter (λ e, long_enough col evs (ev_session e)) evs ≠ []).
    { intros Hnil. apply forallb_abridged in Hnil. congruence. }
    assert (Hkept : Np.getitem_mask evs (Np.not_mask b')
                    = filter (λ e, long_enough col evs (ev_session e)) evs).
    { rewrite Hmask. unfold Np.not_mask. rewrite <- list_fmap_compose, Np.getitem_mask_fmap.
      apply list_filter_iff. intros e. simpl.
      rewrite negb_true_iff. apply abridged_false. }
    rewrite Hkept. by destruct (filter _ evs).
Qed.

(** The events of a session that is kept are all kept. *)
Lemma lists_of_kept (col : event → Z) (evs : list event) (session : Z) :
  long_enough col evs session →
  lists_of col (filter (λ e, long_enough col evs (ev_session e)) evs) session
  = lists_of col evs session.
Proof.
  intros Hlong. unfold lists_of. f_equal. f_equal.
  rewrite list_filter_filter. apply list_filter_iff. intros e. split; [tauto|].
  intros He. split; [done|]. by rewrite He.
Qed.


(** A second call on a subject that still has data changes nothing. *)
Theorem remove_abridged_sessions_idempotent (o o' : subject) :
  remove_abridged_sessions o = inr o' → is_Some (subject_data o') →
  remove_abridged_sessions o' = inr o'.
Proof.
  intros Hrun [kept Hkept].
  destruct (subject_data o) as [evs|] eqn:Hd;
    [|unfold remove_abridged_sessions in Hrun; by rewrite Hd in Hrun].
  assert (Hk : ∃ col, known_task (task o) col).
  { destruct (criteria !! task o) as [crit|] eqn:Hc; [by eapply known_task_criteria|].
    exfalso. unfold remove_abridged_sessions in Hrun. rewrite Hd in Hrun.
    cbn [from_option mbind result_bind] in Hrun.
    destruct evs as [|e evs].
    - cbn in Hrun. injection Hrun as <-. by cbn in Hkept.
    - destruct (unique_sessions_cons e evs) as (s & ss & Hu).
      by rewrite Hu, fold_result_cons, abridged_step_unknown in Hrun. }
  destruct Hk as [col Hk].
  rewrite (remove_abridged_sessions_run o evs col Hd Hk) in Hrun. injection Hrun as <-.
  cbn [subject_data set_data] in Hkept.
  assert (Hf : filter (λ e, long_enough col evs (ev_session e)) evs = kept)
    by (destruct (filter _ evs); congruence).
  rewrite Hf in *.
  assert (Hsame : filter (λ e, long_enough col kept (ev_session e)) kept = kept).
  { apply filter_all, Forall_forall. intros e He. rewrite <- Hf in He.
    apply list_elem_of_filter in He as [Hlong _]. unfold long_enough.
    rewrite <- Hf, lists_of_kept by done. exact Hlong. }
  destruct kept as [|e0 k0]; [done|].
  rewrite (remove_abridged_sessions_run _ (e0 :: k0) col); [|done|done].
  by rewrite Hsame.
Qed.


(** *** Examples for [remove_abridged_sessions] *)

(** A session of 31 trials and a session of one trial. *)
Definition long_session : list event :=
  (λ k : nat, Event 0 (Z.of_nat k) 0 0 false) <$> seq 0 31.
Definition long_and_short : list event := long_session ++ [Event 1 0 0 0 false].

Definition th_subject : subject := Subject "RAM_TH1" "R1001P" (Some long_and_short).


Example th_subject_keeps_long_session :
  remove_abridged_sessions th_subject = inr (set_data th_subject (Some long_session)).
Proof. by vm_compute. Qed.

Lemma remove_abridged_sessions_idempotent_witness :
  remove_abridged_sessions (set_data th_subject (Some long_session))
  = inr (set_data th_subject (Some long_session)).
Proof.
  apply (remove_abridged_sessions_idempotent th_subject).
  - by vm_compute.
  - by eexists.
Defined.


(** *** Facts about [remove_first_session_if_worse] *)

Lemma NoDup_all_eq {A} (l : list A) (a : A) :
  NoDup l → (∀ x, x ∈ l → x = a) → (length l ≤ 1)%nat.
Proof.
  destruct l as [|x [|y l]]; simpl; [lia|lia|]. intros Hnd Hall. exfalso.
  assert (x = a) as -> by (apply Hall; apply list_elem_of_here).
  assert (y = a) as -> by (apply Hall; apply list_elem_of_further, list_elem_of_here).
  apply NoDup_cons in Hnd as [Hnin _]. apply Hnin, list_elem_of_here.
Qed.

Section TestsFacts.

Variable proportions_chisquare_p : list Q → list nat → Q.
Variable ttest_ind_p : list Q → list Q → Q.

Local Abbreviation remove_first :=
  (remove_first_session_if_worse proportions_chisquare_p ttest_ind_p).

(** When the function returns, the subject is as it was, or it has lost
    exactly the events whose session is the session of the first event;
    this happens only with more than one session, and some event remains. *)
Theorem remove_first_session_if_worse_outcome (o o' : subject) (evs : list event) :
  subject_data o = Some evs → remove_first o = inr o' →
  o' = o
  ∨ ∃ e0, head evs = Some e0
      ∧ (1 < length (Np.unique (ev_session <$> evs)))%nat
      ∧ o' = set_data o (Some (filter (λ e, ev_session e ≠ ev_session e0) evs))
      ∧ filter (λ e, ev_session e ≠ ev_session e0) evs ≠ [].
Proof.
  intros Hd. unfold remove_first_session_if_worse. rewrite Hd.
  cbn [from_option mbind result_bind].
  case_bool_decide as Hmany; [|intros [= <-]; by left].
  destruct evs as [|e0 evs']; [simpl in Hmany; lia|].
  change (head (ev_session <$> e0 :: evs')) with (Some (ev_session e0)).
  cbn [from_option mbind result_bind]. rewrite getitem_ne_mask.
  destruct (first_session_p _ _ _ _ _ _) as [err|p]; [done|].
  cbn [mbind result_bind].
  destruct (Qlt_le_dec p (1 # 20)); cbn [mret result_ret]; intros [= <-]; [right|by left].
  exists e0. split; [done|]. split; [done|]. split; [done|].
  intros Hnil. apply filter_nil_Forall in Hnil.
  assert (length (Np.unique (ev_session <$> e0 :: evs')) ≤ 1)%nat; [|lia].
  apply (NoDup_all_eq _ (ev_session e0)); [apply Np.unique_NoDup|].
  intros s Hs. apply Np.elem_of_unique, list_elem_of_fmap in Hs as (e & -> & He).
  eapply Forall_forall in Hnil; [|exact He]. simpl in Hnil.
  by destruct (decide (ev_session e = ev_session e0)).
Qed.

(** With at most one session, or with a task whose name holds neither
    ['FR'] nor ['TH'], the subject is returned as it was; [criteria] is
    not consulted. *)
Theorem remove_first_session_if_worse_keeps (o : subject) (evs : list event) :
  subject_data o = Some evs →
  (length (Np.unique (ev_session <$> evs)) ≤ 1)%nat
  ∨ (Np.str_contains "FR" (task o) = false ∧ Np.str_contains "TH" (task o) = false) →
  remove_first o = inr o.
Proof.
  intros Hd Hcase. unfold remove_first_session_if_worse. rewrite Hd.
  cbn [from_option mbind result_bind].
  case_bool_decide as Hmany; [|done].
  destruct Hcase as [Hone|[Hfr Hth]]; [lia|].
  destruct evs as [|e0 evs']; [simpl in Hmany; lia|].
  change (head (ev_session <$> e0 :: evs')) with (Some (ev_session e0)).
  cbn [from_option mbind result_bind]. unfold first_session_p.
  by rewrite Hfr, Hth.
Qed.

(** With several sessions and a task whose name holds ['FR'] or ['TH'] but
    is not a key of [criteria], the function raises [KeyError]. *)
Theorem remove_first_session_if_worse_unknown_task (o : subject) (evs : list event) :
  subject_data o = Some evs →
  (1 < length (Np.unique (ev_session <$> evs)))%nat →
  Np.str_contains "FR" (task o) = true ∨ Np.str_contains "TH" (task o) = true →
  criteria !! task o = None →
  remove_first o = inl KeyError.
Proof.
  intros Hd Hmany Hname Hc. unfold remove_first_session_if_worse. rewrite Hd.
  cbn [from_option mbind result_bind]. rewrite bool_decide_eq_true_2 by done.
  destruct evs as [|e0 evs']; [simpl in Hmany; lia|].
  change (head (ev_session <$> e0 :: evs')) with (Some (ev_session e0)).
  cbn [from_option mbind result_bind]. unfold first_session_p, getitem_key.
  rewrite Hc. destruct (Np.str_contains "FR" (task o)); [done|].
  destruct Hname as [? | ->]; done.
Qed.

End TestsFacts.

(** *** Examples for [remove_first_session_if_worse] *)

(** Stand-ins for the two tests: one that always finds a difference and
    one that never does. *)
Definition p_zero_chisquare (count : list Q) (nobs : list nat) : Q := 0%Q.
Definition p_zero_ttest (a b : list Q) : Q := 0%Q.

Definition two_sessions : list event :=
  [Event 3 0 0 (5 # 1) false; Event 1 0 0 (2 # 1) false; Event 3 1 0 (7 # 1) false].

Definition th_two_sessions : subject := Subject "RAM_TH1" "R1001P" (Some two_sessions).
Definition fr2_two_sessions : subject := Subject "RAM_FR2" "R1001P" (Some two_sessions).
Definition yc_two_sessions : subject := Subject "RAM_YC1" "R1001P" (Some two_sessions).

(** The session that is removed is the session of the first event, here
    session 3, not the session with the smallest number. *)
Lemma remove_first_session_if_worse_outcome_witness :
  set_data th_two_sessions (Some [Event 1 0 0 (2 # 1) false]) = th_two_sessions
  ∨ ∃ e0, head two_sessions = Some e0
      ∧ (1 < length (Np.unique (ev_session <$> two_sessions)))%nat
      ∧ set_data th_two_sessions (Some [Event 1 0 0 (2 # 1) false])
        = set_data th_two_sessions
            (Some (filter (λ e, ev_session e ≠ ev_session e0) two_sessions))
      ∧ filter (λ e, ev_session e ≠ ev_session e0) two_sessions ≠ [].
Proof.
  apply (remove_first_session_if_worse_outcome p_zero_chisquare p_zero_ttest
           th_two_sessions _ two_sessions).
  - reflexivity.
  - by vm_compute.
Defined.

Lemma remove_first_session_if_worse_keeps_witness :
  remove_first_session_if_worse p_zero_chisquare p_zero_ttest yc_two_sessions
  = inr yc_two_sessions.
Proof.
  apply (remove_first_session_if_worse_keeps p_zero_chisquare p_zero_ttest
           yc_two_sessions two_sessions).
  - reflexivity.
  - right. by vm_compute.
Defined.

Lemma remove_first_session_if_worse_unknown_task_witness :
  remove_first_session_if_worse p_zero_chisquare p_zero_ttest fr2_two_sessions
  = inl KeyError.
Proof.
  apply (remove_first_session_if_worse_unknown_task p_zero_chisquare p_zero_ttest
           fr2_two_sessions two_sessions).
  - reflexivity.
  - vm_compute. lia.
  - left. by vm_compute.
  - by vm_compute.
Defined.

End Exclusions.
